(** * vmmlib: the Tucker3 tensor model ([tucker3_tensor.hpp]), the
      tensor3 iterator ([tensor3_iterator.hpp]) and the 4x4 matrix
      ([Matrix4.h])

    A shallow embedding of the class [tucker3_tensor< J1, J2, J3, I1, I2, I3, T >],
    of the forward iterator over a [tensor3] and of the class [Matrix4< T >],
    together with the properties of decomposition, rank reduction,
    subsampling and flat export/import, of the walk of the iterator, and of
    the access, product, determinant and transformation members of the 4x4
    matrix.

    The template extents are ordinary [nat] arguments, the element type [T] is
    a type class, [double] is the kernel's binary64 float.  The containers
    [matrix] and [tensor3], the LAPACK SVD wrapper and the pseudo-inverse are
    not part of the files embedded here: containers are modelled from their
    documented behaviour, numerical collaborators are a type class.  The same
    holds for [Vector3], [Vector4] and [Matrix3], which [Matrix4.h] uses. *)

From Stdlib Require Import ZArith Floats Lia List Ring.
From stdpp Require Import base list.

Set Default Proof Using "Type".
Open Scope nat_scope.

(** ** Failures: a contract violation aborts the call *)

Inductive failure : Type :=
  | assertion_failed      (* an [assert( ... )] at the entry of a transform *)
  | index_out_of_bounds   (* a checked accessor, [std::vector::at] included *)
  | out_of_fuel.          (* the bound given to a pointer loop was too small *)

Inductive result (A : Type) : Type :=
  | Ok (a : A)
  | Fail (e : failure).
Arguments Ok {A} a.
Arguments Fail {A} e.

#[global] Instance result_ret : MRet result := @Ok.
#[global] Instance result_bind : MBind result :=
  fun A B f c => match c with Ok a => f a | Fail e => Fail e end.

Definition assert (b : bool) : result unit :=
  if b then Ok tt else Fail assertion_failed.

(** [for( size_t j = lo; j < lo + count; ++j ) body] *)
Fixpoint for_loop {St : Type} (lo count : nat)
    (body : nat -> St -> result St) (s : St) : result St :=
  match count with
  | 0 => Ok s
  | S k => s' ← body lo s; for_loop (S lo) k body s'
  end.

(** ** The element type [T] of the templates *)

Class Scalar (T : Type) : Type := {
  T0 : T;                 (* T( 0 ) *)
  T1 : T;                 (* T( 1 ) *)
  Tadd : T -> T -> T;
  Tmul : T -> T -> T;
  Tdiv : T -> T -> T
}.

(** [double] *)
Abbreviation double := PrimFloat.float.

(** Modelled from the spec: [vector.hpp], [matrix.hpp] and [tensor3.hpp] are
    missing.  A [vector< N, T >] is its array of N elements; a
    [matrix< M, N, T >] (M rows, N columns) is its array of M*N elements in
    column-major order, which is also the order of its iterator; a
    [tensor3< I1, I2, I3, T >] is the array of its I3 frontal slices, each a
    [matrix< I1, I2, T >], as [get_frontal_slice_fwd] of the iterator shows.
    The extents are template arguments of the source and explicit arguments
    of the operations here. *)
Abbreviation vector T := (list T).
Abbreviation matrix T := (list T).
Abbreviation tensor3 T := (list (list T)).

Section containers.
Context {T : Type} `{Scalar T}.

(** ** [vector< N, T >] *)

(** Modelled from the spec: [v += w] of the missing [vector.hpp],
    entry by entry. *)
Definition vector_add (v w : vector T) : vector T := zip_with Tadd v w.

(** Modelled from the spec: [v /= a] of the missing [vector.hpp],
    entry by entry. *)
Definition vector_div (v : vector T) (a : T) : vector T :=
  map (fun x => Tdiv x a) v.

(** ** [matrix< M, N, T >] *)

(** an array of the extents of its type *)
Definition wf_matrix (M N : nat) (m : matrix T) : Prop := length m = M * N.

(** Modelled from the spec: the matrix with entry [f r c] at row [r] and
    column [c], in the column-major order of the missing [matrix.hpp]. *)
Definition mk_matrix (M N : nat) (f : nat -> nat -> T) : matrix T :=
  flat_map (fun c => map (fun r => f r c) (seq 0 M)) (seq 0 N).

(** Modelled from the spec: [zero()] of the missing [matrix.hpp]. *)
Definition matrix_zero (M N : nat) : matrix T := replicate (M * N) T0.

(** Modelled from the spec: the unchecked read [at( row, col )] of the
    missing [matrix.hpp]; inside the extents it reads the array. *)
Definition matrix_at (M : nat) (m : matrix T) (r c : nat) : T :=
  nth (c * M + r) m T0.

(** Modelled from the spec: [get_row] of the missing [matrix.hpp]; an index
    outside the extents is a contract violation. *)
Definition get_row (M N : nat) (m : matrix T) (r : nat) : result (vector T) :=
  if r <? M then Ok (map (fun c => matrix_at M m r c) (seq 0 N))
  else Fail index_out_of_bounds.

(** Modelled from the spec: [set_row] of the missing [matrix.hpp], which
    writes [at( r, c )] for each column [c]. *)
Definition set_row (M N : nat) (m : matrix T) (r : nat) (row : vector T)
    : result (matrix T) :=
  if r <? M
  then Ok (fold_left (fun a c => <[c * M + r := nth c row T0]> a) (seq 0 N) m)
  else Fail index_out_of_bounds.

(** Modelled from the spec: [get_column] of the missing [matrix.hpp]; a
    column is M consecutive elements of the array. *)
Definition get_column (M N : nat) (m : matrix T) (c : nat) : result (vector T) :=
  if c <? N then Ok (take M (drop (c * M) m))
  else Fail index_out_of_bounds.

(** Modelled from the spec: [set_column] of the missing [matrix.hpp]. *)
Definition set_column (M N : nat) (m : matrix T) (c : nat) (col : vector T)
    : result (matrix T) :=
  if c <? N then Ok (list_inserts (c * M) col m)
  else Fail index_out_of_bounds.

(** Modelled from the spec: [transpose] of the missing [matrix.hpp]; the
    argument has extents (M, N), the result (N, M). *)
Definition transpose (M N : nat) (m : matrix T) : matrix T :=
  mk_matrix N M (fun r c => matrix_at M m c r).

(** Modelled from the spec: [get_sub_matrix( result )] of the missing
    [matrix.hpp] at offset (0, 0); the result has extents (O, P) and is read
    from a matrix of M rows. *)
Definition get_sub_matrix (M O P : nat) (m : matrix T) : matrix T :=
  mk_matrix O P (fun r c => matrix_at M m r c).

(** ** [tensor3< I1, I2, I3, T >] *)

(** an array of slices of the extents of its type *)
Definition wf_tensor3 (R C S : nat) (t : tensor3 T) : Prop :=
  length t = S /\ Forall (wf_matrix R C) t.

(** Modelled from the spec: the tensor with entry [f i1 i2 i3], slice by
    slice, for the missing [tensor3.hpp]. *)
Definition mk_tensor3 (R C S : nat) (f : nat -> nat -> nat -> T) : tensor3 T :=
  map (fun s => mk_matrix R C (fun r c => f r c s)) (seq 0 S).

(** Modelled from the spec: the all-zero tensor, [zero()] of the missing
    [tensor3.hpp]. *)
Definition tensor3_zero (R C S : nat) : tensor3 T :=
  replicate S (matrix_zero R C).

(** Modelled from the spec: the unchecked read [at( i1, i2, i3 )] of the
    missing [tensor3.hpp]. *)
Definition tensor3_at (R : nat) (t : tensor3 T) (i1 i2 i3 : nat) : T :=
  matrix_at R (nth i3 t []) i1 i2.

(** Modelled from the spec: [at( i1, i2, i3 )] of the missing [tensor3.hpp]
    as [reduce_ranks] uses it, to read and to write; an index outside the
    extents is a contract violation. *)
Definition tensor3_get (R C S : nat) (t : tensor3 T) (i1 i2 i3 : nat) : result T :=
  if (i1 <? R) && (i2 <? C) && (i3 <? S) then Ok (tensor3_at R t i1 i2 i3)
  else Fail index_out_of_bounds.

Definition tensor3_set (R C S : nat) (t : tensor3 T) (i1 i2 i3 : nat) (x : T)
    : result (tensor3 T) :=
  if (i1 <? R) && (i2 <? C) && (i3 <? S)
  then Ok (<[i3 := <[i2 * R + i1 := x]> (nth i3 t [])]> t)
  else Fail index_out_of_bounds.

(** the sum of [f 0 .. f (n-1)], accumulated from [T( 0 )] in this order *)
Definition sum_upto (n : nat) (f : nat -> T) : T :=
  fold_left (fun acc k => Tadd acc (f k)) (seq 0 n) T0.

(** Modelled from the spec: the n-mode products of the missing [tensor3.hpp],
    "multiplying a multi-dimensional array by a matrix along one specific
    axis".  [multiply_lateral] contracts mode 1: the argument has K rows,
    [U] has extents (R, K). *)
Definition multiply_lateral (R K C S : nat) (t : tensor3 T) (U : matrix T)
    : tensor3 T :=
  mk_tensor3 R C S (fun i j s =>
    sum_upto K (fun k => Tmul (matrix_at R U i k) (tensor3_at K t k j s))).

(** Modelled from the spec: [multiply_frontal] of the missing [tensor3.hpp]
    contracts mode 2: the argument has K columns, [U] has extents (C, K). *)
Definition multiply_frontal (R C K S : nat) (t : tensor3 T) (U : matrix T)
    : tensor3 T :=
  mk_tensor3 R C S (fun i j s =>
    sum_upto K (fun k => Tmul (matrix_at C U j k) (tensor3_at R t i k s))).

(** Modelled from the spec: [multiply_horizontal] of the missing
    [tensor3.hpp] contracts mode 3: the argument has K slices, [U] has
    extents (S, K). *)
Definition multiply_horizontal (R C S K : nat) (t : tensor3 T) (U : matrix T)
    : tensor3 T :=
  mk_tensor3 R C S (fun i j s =>
    sum_upto K (fun k => Tmul (matrix_at S U s k) (tensor3_at R t i j k))).

(** Modelled from the spec: [full_tensor3_matrix_multiplication] of the
    missing [tensor3.hpp], "successive n-mode products along each axis in
    turn"; the argument has extents (K1, K2, K3), the matrices (R, K1),
    (C, K2), (S, K3), the result (R, C, S). *)
Definition full_tensor3_matrix_multiplication (R C S K1 K2 K3 : nat)
    (core : tensor3 T) (U1 U2 U3 : matrix T) : tensor3 T :=
  let t3_result_1 := multiply_lateral R K1 K2 K3 core U1 in
  let t3_result_2 := multiply_frontal R C K2 K3 t3_result_1 U2 in
  multiply_horizontal R C S K3 t3_result_2 U3.

(** ** [tensor3_iterator< T >] and [tensor3_const_iterator< T >]

    A [matrix_iterator] is a pointer into the array of one frontal slice: the
    index of the slice and the offset in its array.  [_tensor3] is the tensor
    the loops below are given. *)

Definition matrix_iterator := (nat * nat)%type.

Definition slice_begin (index : nat) : matrix_iterator := (index, 0).
Definition slice_end (R C index : nat) : matrix_iterator := (index, R * C).

Record tensor3_iterator : Type := {
  _matrix_it : matrix_iterator;
  _matrix_it_end : matrix_iterator;
  _matrix_index : nat
}.

(** [tensor3_iterator( t_, begin_ )].  [get_frontal_slice_fwd] of the
    missing [tensor3.hpp] is given the index 0 or [T::SLICES - 1]; the latter
    is computed on [size_t], so for SLICES = 0 it is the largest [size_t].
    With no slice, either index is out of bounds. *)
Definition tensor3_iterator_new (R C S : nat) (begin_ : bool)
    : result tensor3_iterator :=
  if begin_ then
    if 0 <? S then
      Ok {| _matrix_it := slice_begin 0;
            _matrix_it_end := slice_end R C 0;
            _matrix_index := 0 |}
    else Fail index_out_of_bounds
  else
    if 0 <? S then
      Ok {| _matrix_it := slice_end R C (S - 1);
            _matrix_it_end := slice_begin (S - 1);
            _matrix_index := S - 1 |}
    else Fail index_out_of_bounds.

(** [operator*] *)
Definition tensor3_iterator_deref (t : tensor3 T) (it : tensor3_iterator)
    : result T :=
  match t !! (_matrix_it it).1 ≫= (fun slice => slice !! (_matrix_it it).2) with
  | Some x => Ok x
  | None => Fail index_out_of_bounds
  end.

(** [*it = x] *)
Definition tensor3_iterator_assign (t : tensor3 T) (it : tensor3_iterator) (x : T)
    : result (tensor3 T) :=
  match t !! (_matrix_it it).1 with
  | Some slice =>
      if (_matrix_it it).2 <? length slice
      then Ok (<[(_matrix_it it).1 := <[(_matrix_it it).2 := x]> slice]> t)
      else Fail index_out_of_bounds
  | None => Fail index_out_of_bounds
  end.

(** [operator!=]: only the matrix iterators are compared *)
Definition tensor3_iterator_neq (a b : tensor3_iterator) : bool :=
  negb (bool_decide (_matrix_it b = _matrix_it a)).

(** [operator++]; [_tensor3] is never null here *)
Definition tensor3_iterator_incr (R C S : nat) (it : tensor3_iterator)
    : tensor3_iterator :=
  let mit :=
    if negb (bool_decide (_matrix_it it = _matrix_it_end it))
    then ((_matrix_it it).1, (_matrix_it it).2 + 1)
    else _matrix_it it in
  if bool_decide (mit = _matrix_it_end it) && (_matrix_index it + 1 <? S)
  then {| _matrix_it := slice_begin (_matrix_index it + 1);
          _matrix_it_end := slice_end R C (_matrix_index it + 1);
          _matrix_index := _matrix_index it + 1 |}
  else {| _matrix_it := mit;
          _matrix_it_end := _matrix_it_end it;
          _matrix_index := _matrix_index it |}.

(** [for( ; it != it_end; ++it ) data_.push_back( *it );] over a tensor *)
Fixpoint tensor3_export_loop (fuel R C S : nat) (t : tensor3 T)
    (it it_end : tensor3_iterator) (data_ : list T) : result (list T) :=
  if tensor3_iterator_neq it it_end then
    match fuel with
    | 0 => Fail out_of_fuel
    | S fuel' =>
        x ← tensor3_iterator_deref t it;
        tensor3_export_loop fuel' R C S t (tensor3_iterator_incr R C S it)
          it_end (data_ ++ [x])
    end
  else Ok data_.

(** [std::vector::at] *)
Definition vector_at (data_ : list T) (i : nat) : result T :=
  match data_ !! i with
  | Some x => Ok x
  | None => Fail index_out_of_bounds
  end.

(** [for( ; it != it_end; ++it, ++i ) *it = data_.at( i );] over a tensor *)
Fixpoint tensor3_import_loop (fuel R C S : nat) (data_ : list T)
    (it it_end : tensor3_iterator) (st : tensor3 T * nat)
    : result (tensor3 T * nat) :=
  if tensor3_iterator_neq it it_end then
    match fuel with
    | 0 => Fail out_of_fuel
    | S fuel' =>
        x ← vector_at data_ st.2;
        t' ← tensor3_iterator_assign st.1 it x;
        tensor3_import_loop fuel' R C S data_ (tensor3_iterator_incr R C S it)
          it_end (t', st.2 + 1)
    end
  else Ok st.

(** Modelled from the spec: the iterator of the missing [matrix.hpp] walks
    the array from [begin()] to [end()], M*N elements in column-major order;
    [for( ; it != it_end; ++it ) data_.push_back( *it );] over a matrix. *)
Definition matrix_export_loop (M N : nat) (m : matrix T) (data_ : list T)
    : result (list T) :=
  for_loop 0 (M * N) (fun k d => x ← vector_at m k; Ok (d ++ [x])) data_.

(** Modelled from the spec: the same walk of the missing [matrix.hpp] for
    [for( ; it != it_end; ++it, ++i ) *it = data_.at( i );]. *)
Definition matrix_import_loop (M N : nat) (data_ : list T) (st : matrix T * nat)
    : result (matrix T * nat) :=
  for_loop 0 (M * N)
    (fun k st => x ← vector_at data_ st.2; Ok (<[k := x]> st.1, st.2 + 1)) st.

(** *** Vocabulary of the statements below *)

(** the iterator standing at offset [off] of slice [k] *)
Definition it_at (R C k off : nat) : tensor3_iterator :=
  {| _matrix_it := (k, off);
     _matrix_it_end := slice_end R C k;
     _matrix_index := k |}.

(** the elements from offset [off] of slice [k] to the end *)
Definition rest (t : tensor3 T) (k off : nat) : list T :=
  drop off (nth k t []) ++ concat (drop (S k) t).

(** the position of the three nested loops over the core: the entries
    written before the loops reach (j1, j2, j3) *)
Definition visited (j3 j1 j2 a b c : nat) : Prop :=
  c < j3 \/ (c = j3 /\ (a < j1 \/ (a = j1 /\ b < j2))).

Definition core_agrees (J1 J2 J3 K1 : nat) (o : tensor3 T)
    (j3 j1 j2 : nat) (t : tensor3 T) : Prop :=
  wf_tensor3 J1 J2 J3 t /\
  forall a b c, a < J1 -> b < J2 -> c < J3 -> visited j3 j1 j2 a b c ->
    tensor3_at J1 t a b c = tensor3_at K1 o a b c.

(** the entry-wise average of the block of up to [factor] consecutive rows
    of [u] that starts at row [i * factor] and stops at the extent [K]: what
    the averaging subsampling is to leave in row [i] of the target *)
Definition block_average (K N : nat) (u : matrix T) (factor i : nat) : vector T :=
  let lo := i * factor in
  let rows :=
    map (fun r => map (fun c => matrix_at K u r c) (seq 0 N))
      (seq lo (Nat.min factor (K - lo))) in
  let sum := fold_left vector_add (tail rows) (hd [] rows) in
  let count := fold_left (fun a _ => Tadd a T1) (tail rows) T1 in
  vector_div sum count.

(** row [r] of [u] as [get_row] returns it *)
Definition row_of (K N : nat) (u : matrix T) (r : nat) : vector T :=
  map (fun c => matrix_at K u r c) (seq 0 N).

(** the row the first loop of [subsampling_on_average] writes for the source
    row [i1] *)
Definition average_row (K N : nat) (u : matrix T) (factor i1 : nat) : vector T :=
  let rows :=
    map (row_of K N u)
      (seq (i1 + 1) (Nat.min (factor + i1) K - (i1 + 1))) in
  vector_div (fold_left vector_add rows (row_of K N u i1))
    (fold_left (fun a _ => Tadd a T1) rows T1).

End containers.

(** ** The numerical collaborators *)

(** Modelled from the spec: the matricizations and the Frobenius norm of the
    missing [tensor3.hpp], [lapack_svd] of the missing [lapack_svd.hpp] and
    [compute_pseudoinverse] of the missing [matrix_pseudoinverse.hpp], each
    taken as a parameter with the extents of its template arguments.
    [compute_and_overwrite_input] yields the success flag and the overwritten
    matrix; the singular values are read nowhere and left out.
    [tensor3_convert R C S R' C' S'] is the conversion of a
    [tensor3< R, C, S, T >] to a [tensor3< R', C', S', T >] that the calls
    [hosvd_mode1( projection1, _u1 )] .. [hosvd_mode3( projection3, _u3 )] of
    [hoii] need: each passes a projection where a [tensor3< I1, I2, I3, T >]
    is expected. *)
Class Collaborators (T : Type) : Type := {
  lateral_matricization : nat -> nat -> nat -> tensor3 T -> matrix T;
  frontal_matricization : nat -> nat -> nat -> tensor3 T -> matrix T;
  horizontal_matricization : nat -> nat -> nat -> tensor3 T -> matrix T;
  compute_and_overwrite_input : nat -> nat -> matrix T -> bool * matrix T;
  compute_pseudoinverse : nat -> nat -> matrix T -> matrix T;
  frobenius_norm : tensor3 T -> double;
  tensor3_convert : nat -> nat -> nat -> nat -> nat -> nat -> tensor3 T -> tensor3 T
}.

(** ** [tucker3_tensor< J1, J2, J3, I1, I2, I3, T >] *)

Record tucker3_tensor (T : Type) : Type := {
  _core : tensor3 T;
  _u1 : matrix T;
  _u2 : matrix T;
  _u3 : matrix T
}.
Arguments _core {T} _.
Arguments _u1 {T} _.
Arguments _u2 {T} _.
Arguments _u3 {T} _.

(** the local variables of [hoii] that live across its loop *)
Record hoii_state (T : Type) : Type := {
  st_this : tucker3_tensor T;
  st_f_norm : double;
  st_last_f_norm : double;
  st_improvement : double;
  st_i : nat
}.
Arguments st_this {T} _.
Arguments st_f_norm {T} _.
Arguments st_last_f_norm {T} _.
Arguments st_improvement {T} _.
Arguments st_i {T} _.

(** [double min_improvement = 0.1]: the literal rounded to binary64 *)
Definition min_improvement : double := 0x1.999999999999ap-4%float.
Definition max_iterations : nat := 3.

Section tucker3.
Context {T : Type} `{Scalar T} `{Collaborators T}.
Variables J1 J2 J3 I1 I2 I3 : nat.

Definition set_core (this : tucker3_tensor T) (core : tensor3 T) : tucker3_tensor T :=
  {| _core := core; _u1 := _u1 this; _u2 := _u2 this; _u3 := _u3 this |}.
Definition set_u1 (this : tucker3_tensor T) (U1 : matrix T) : tucker3_tensor T :=
  {| _core := _core this; _u1 := U1; _u2 := _u2 this; _u3 := _u3 this |}.
Definition set_u2 (this : tucker3_tensor T) (U2 : matrix T) : tucker3_tensor T :=
  {| _core := _core this; _u1 := _u1 this; _u2 := U2; _u3 := _u3 this |}.
Definition set_u3 (this : tucker3_tensor T) (U3 : matrix T) : tucker3_tensor T :=
  {| _core := _core this; _u1 := _u1 this; _u2 := _u2 this; _u3 := U3 |}.

Definition get_core (this : tucker3_tensor T) : tensor3 T := _core this.
Definition get_u1 (this : tucker3_tensor T) : matrix T := _u1 this.
Definition get_u2 (this : tucker3_tensor T) : matrix T := _u2 this.
Definition get_u3 (this : tucker3_tensor T) : matrix T := _u3 this.

Definition wf_tucker3 (this : tucker3_tensor T) : Prop :=
  wf_tensor3 J1 J2 J3 (_core this) /\ wf_matrix I1 J1 (_u1 this) /\
  wf_matrix I2 J2 (_u2 this) /\ wf_matrix I3 J3 (_u3 this).

(** [reconstruction( data_ )]: the result is the new value of [data_] *)
Definition reconstruction (this : tucker3_tensor T) : tensor3 T :=
  full_tensor3_matrix_multiplication I1 I2 I3 J1 J2 J3
    (_core this) (_u1 this) (_u2 this) (_u3 this).

(** [derive_core_orthogonal_bases]: the result is the new value of [core_] *)
Definition derive_core_orthogonal_bases (data_ : tensor3 T) (U1_ U2_ U3_ : matrix T)
    : tensor3 T :=
  let u1_inv := transpose I1 J1 U1_ in
  let u2_inv := transpose I2 J2 U2_ in
  let u3_inv := transpose I3 J3 U3_ in
  full_tensor3_matrix_multiplication J1 J2 J3 I1 I2 I3 data_ u1_inv u2_inv u3_inv.

(** [derive_core]: the general path through the pseudo-inverses *)
Definition derive_core (data_ : tensor3 T) (U1_ U2_ U3_ : matrix T) : tensor3 T :=
  let u1_pinv_t := compute_pseudoinverse I1 J1 U1_ in
  let u2_pinv_t := compute_pseudoinverse I2 J2 U2_ in
  let u3_pinv_t := compute_pseudoinverse I3 J3 U3_ in
  let u1_pinv := transpose I1 J1 u1_pinv_t in
  let u2_pinv := transpose I2 J2 u2_pinv_t in
  let u3_pinv := transpose I3 J3 u3_pinv_t in
  full_tensor3_matrix_multiplication J1 J2 J3 I1 I2 I3 data_ u1_pinv u2_pinv u3_pinv.

(** [hosvd_mode1 .. 3]: the result is the new value of the output basis,
    which both branches overwrite as a whole *)
Definition hosvd_mode1 (data_ : tensor3 T) : matrix T :=
  let m_lateral := lateral_matricization I1 I2 I3 data_ in
  let svd1 := compute_and_overwrite_input I1 (I2 * I3) m_lateral in
  if svd1.1 then get_sub_matrix I1 I1 J1 svd1.2 else matrix_zero I1 J1.

Definition hosvd_mode2 (data_ : tensor3 T) : matrix T :=
  let m_frontal := frontal_matricization I1 I2 I3 data_ in
  let svd2 := compute_and_overwrite_input I2 (I1 * I3) m_frontal in
  if svd2.1 then get_sub_matrix I2 I2 J2 svd2.2 else matrix_zero I2 J2.

Definition hosvd_mode3 (data_ : tensor3 T) : matrix T :=
  let m_horizontal := horizontal_matricization I1 I2 I3 data_ in
  let svd3 := compute_and_overwrite_input I3 (I1 * I2) m_horizontal in
  if svd3.1 then get_sub_matrix I3 I3 J3 svd3.2 else matrix_zero I3 J3.

Definition hosvd (this : tucker3_tensor T) (data_ : tensor3 T) : tucker3_tensor T :=
  let this := set_u1 this (hosvd_mode1 data_) in
  let this := set_u2 this (hosvd_mode2 data_) in
  set_u3 this (hosvd_mode3 data_).

(** [optimize_mode1 .. 3]: the result is the new value of [projection_] *)
Definition optimize_mode1 (data_ : tensor3 T) (U2_ U3_ : matrix T) : tensor3 T :=
  let u2_pinv_t := compute_pseudoinverse I2 J2 U2_ in
  let u3_pinv_t := compute_pseudoinverse I3 J3 U3_ in
  let u2_pinv := transpose I2 J2 u2_pinv_t in
  let u3_pinv := transpose I3 J3 u3_pinv_t in
  let tmp := multiply_frontal I1 J2 I2 I3 data_ u2_pinv in
  multiply_horizontal I1 J2 J3 I3 tmp u3_pinv.

Definition optimize_mode2 (data_ : tensor3 T) (U1_ U3_ : matrix T) : tensor3 T :=
  let u1_pinv_t := compute_pseudoinverse I1 J1 U1_ in
  let u3_pinv_t := compute_pseudoinverse I3 J3 U3_ in
  let u1_pinv := transpose I1 J1 u1_pinv_t in
  let u3_pinv := transpose I3 J3 u3_pinv_t in
  let tmp := multiply_lateral J1 I1 I2 I3 data_ u1_pinv in
  multiply_horizontal J1 I2 J3 I3 tmp u3_pinv.

Definition optimize_mode3 (data_ : tensor3 T) (U1_ U2_ : matrix T) : tensor3 T :=
  let u1_pinv_t := compute_pseudoinverse I1 J1 U1_ in
  let u2_pinv_t := compute_pseudoinverse I2 J2 U2_ in
  let u1_pinv := transpose I1 J1 u1_pinv_t in
  let u2_pinv := transpose I2 J2 u2_pinv_t in
  let tmp := multiply_lateral J1 I1 I2 I3 data_ u1_pinv in
  multiply_frontal J1 J2 I2 I3 tmp u2_pinv.

(** the condition of the [while] of [hoii]:
    [improvement > min_improvement && i < max_iterations] *)
Definition hoii_guard (st : hoii_state T) : bool :=
  PrimFloat.ltb min_improvement (st_improvement st) && (st_i st <? max_iterations).

(** the body of the [while] of [hoii] *)
Definition hoii_body (data_ : tensor3 T) (st : hoii_state T) : hoii_state T :=
  let this := st_this st in
  let projection1 := optimize_mode1 data_ (_u2 this) (_u3 this) in
  let this :=
    set_u1 this (hosvd_mode1 (tensor3_convert I1 J2 J3 I1 I2 I3 projection1)) in
  let projection2 := optimize_mode2 data_ (_u1 this) (_u3 this) in
  let this :=
    set_u2 this (hosvd_mode2 (tensor3_convert J1 I2 J3 I1 I2 I3 projection2)) in
  let projection3 := optimize_mode3 data_ (_u1 this) (_u2 this) in
  let this :=
    set_u3 this (hosvd_mode3 (tensor3_convert J1 J2 I3 I1 I2 I3 projection3)) in
  let this := set_u1 this (_u1 this) in
  let this := set_u2 this (_u2 this) in
  let this := set_u3 this (_u3 this) in
  let this :=
    set_core this
      (derive_core_orthogonal_bases data_ (_u1 this) (_u2 this) (_u3 this)) in
  let this := set_core this (_core this) in
  let approximated_data := reconstruction this in
  let f_norm := frobenius_norm approximated_data in
  let improvement := PrimFloat.sub f_norm (st_last_f_norm st) in
  let last_f_norm := f_norm in
  {| st_this := this; st_f_norm := f_norm; st_last_f_norm := last_f_norm;
     st_improvement := improvement; st_i := st_i st + 1 |}.

(** the [while] of [hoii], given a bound on the number of its iterations *)
Fixpoint hoii_while (fuel : nat) (data_ : tensor3 T) (st : hoii_state T)
    : result (hoii_state T) :=
  if hoii_guard st then
    match fuel with
    | 0 => Fail out_of_fuel
    | S fuel' => hoii_while fuel' data_ (hoii_body data_ st)
    end
  else Ok st.

(** the state in which [hoii] enters its loop *)
Definition hoii_init (this : tucker3_tensor T) (data_ : tensor3 T) : hoii_state T :=
  let this := hosvd this data_ in
  let approximated_data := reconstruction this in
  let f_norm := frobenius_norm approximated_data in
  let max_f_norm := frobenius_norm data_ in
  let last_f_norm := f_norm in
  let improvement := PrimFloat.sub max_f_norm f_norm in
  {| st_this := this; st_f_norm := f_norm; st_last_f_norm := last_f_norm;
     st_improvement := improvement; st_i := 0 |}.

Definition hoii (this : tucker3_tensor T) (data_ : tensor3 T)
    : result (tucker3_tensor T) :=
  st ← hoii_while max_iterations data_ (hoii_init this data_);
  let this := st_this st in
  Ok (set_core this
        (derive_core_orthogonal_bases data_ (_u1 this) (_u2 this) (_u3 this))).

Definition tucker_als (this : tucker3_tensor T) (data_ : tensor3 T)
    : result (tucker3_tensor T) :=
  this ← hoii this data_;
  Ok (set_core this
        (derive_core_orthogonal_bases data_ (_u1 this) (_u2 this) (_u3 this))).

Definition decomposition (this : tucker3_tensor T) (data_ : tensor3 T)
    : result (tucker3_tensor T) :=
  tucker_als this data_.

(** *** Cross-model transforms; [other] has the extents K1, K2, K3 *)

Variables K1 K2 K3 : nat.

(** [reduce_ranks]: [other] is a
    [tucker3_tensor< K1, K2, K3, I1, I2, I3, T >] *)
Definition reduce_ranks (this other : tucker3_tensor T)
    : result (tucker3_tensor T) :=
  _ ← assert (J1 <=? K1);
  _ ← assert (J2 <=? K2);
  _ ← assert (J3 <=? K3);
  let u1 := get_u1 other in
  u1' ← for_loop 0 J1
          (fun j1 u => col ← get_column I1 K1 u1 j1; set_column I1 J1 u j1 col)
          (_u1 this);
  let u2 := get_u2 other in
  u2' ← for_loop 0 J2
          (fun j2 u => col ← get_column I2 K2 u2 j2; set_column I2 J2 u j2 col)
          (_u2 this);
  let u3 := get_u3 other in
  u3' ← for_loop 0 J3
          (fun j3 u => col ← get_column I3 K3 u3 j3; set_column I3 J3 u j3 col)
          (_u3 this);
  let other_core := get_core other in
  core' ← for_loop 0 J3 (fun j3 =>
            for_loop 0 J1 (fun j1 =>
              for_loop 0 J2 (fun j2 core =>
                x ← tensor3_get K1 K2 K3 other_core j1 j2 j3;
                tensor3_set J1 J2 J3 core j1 j2 j3 x)))
          (_core this);
  Ok {| _core := core'; _u1 := u1'; _u2 := u2'; _u3 := u3' |}.

(** [for( size_t i1 = 0, i = 0; i1 < K; i1 += factor, ++i ) body]: the loop
    of the two subsampling transforms, given a bound on its iterations.
    [factor] is passed as a [T]; it is modelled for the integral values the
    transforms are meant for, by that value. *)
Fixpoint subsampling_loop (fuel K factor : nat)
    (body : nat -> nat -> matrix T -> result (matrix T)) (i1 i : nat)
    (u : matrix T) : result (matrix T) :=
  if i1 <? K then
    match fuel with
    | 0 => Fail out_of_fuel
    | S fuel' =>
        u' ← body i1 i u;
        subsampling_loop fuel' K factor body (i1 + factor) (i + 1) u'
    end
  else Ok u.

(** the asserts at the entry of the three transforms below *)
Definition assert_extents : result unit :=
  _ ← assert (I1 <=? K1);
  _ ← assert (I1 <=? K2);
  assert (I1 <=? K3).

(** [subsampling]: [other] is a
    [tucker3_tensor< J1, J2, J3, K1, K2, K3, T >].  A loop ends at the latest
    when [set_row] leaves the target, hence its bound. *)
Definition subsampling (this other : tucker3_tensor T) (factor : nat)
    : result (tucker3_tensor T) :=
  _ ← assert_extents;
  let u1 := get_u1 other in
  u1' ← subsampling_loop (S I1) K1 factor
          (fun i1 i u => row ← get_row K1 J1 u1 i1; set_row I1 J1 u i row)
          0 0 (_u1 this);
  let u2 := get_u2 other in
  u2' ← subsampling_loop (S I2) K2 factor
          (fun i2 i u => row ← get_row K2 J2 u2 i2; set_row I2 J2 u i row)
          0 0 (_u2 this);
  let u3 := get_u3 other in
  u3' ← subsampling_loop (S I3) K3 factor
          (fun i3 i u => row ← get_row K3 J3 u3 i3; set_row I3 J3 u i row)
          0 0 (_u3 this);
  Ok {| _core := get_core other; _u1 := u1'; _u2 := u2'; _u3 := u3' |}.

(** the inner loop of [subsampling_on_average]:
    [for( size_t j = i1+1; (j < (factor+i1)) & (j < K); ++j, ++num_items_averaged )
       tmp_row += u.get_row( j );]
    on the pair of [tmp_row] and [num_items_averaged] *)
Definition average_loop (K N : nat) (u : matrix T) (factor i1 : nat)
    (acc : vector T * T) : result (vector T * T) :=
  for_loop (i1 + 1) (Nat.min (factor + i1) K - (i1 + 1))
    (fun j acc => row ← get_row K N u j; Ok (vector_add acc.1 row, Tadd acc.2 T1))
    acc.

(** [subsampling_on_average] *)
Definition subsampling_on_average (this other : tucker3_tensor T) (factor : nat)
    : result (tucker3_tensor T) :=
  _ ← assert_extents;
  let u1 := get_u1 other in
  u1' ← subsampling_loop (S I1) K1 factor
          (fun i1 i u =>
             tmp_row ← get_row K1 J1 u1 i1;
             acc ← average_loop K1 J1 u1 factor i1 (tmp_row, T1);
             let tmp_row := vector_div acc.1 acc.2 in
             set_row I1 J1 u i tmp_row)
          0 0 (_u1 this);
  let u2 := get_u2 other in
  u2' ← subsampling_loop (S I2) K2 factor
          (fun i2 i u =>
             tmp_row ← get_row K2 J2 u2 i2;
             acc ← average_loop K2 J2 u2 factor i2 (tmp_row, T1);
             let tmp_row := vector_div acc.1 acc.2 in
             row ← get_row K2 J2 u2 i2;
             set_row I2 J2 u i row)
          0 0 (_u2 this);
  let u3 := get_u3 other in
  u3' ← subsampling_loop (S I3) K3 factor
          (fun i3 i u =>
             tmp_row ← get_row K3 J3 u3 i3;
             acc ← average_loop K3 J3 u3 factor i3 (tmp_row, T1);
             let tmp_row := vector_div acc.1 acc.2 in
             row ← get_row K3 J3 u3 i3;
             set_row I3 J3 u i row)
          0 0 (_u3 this);
  Ok {| _core := get_core other; _u1 := u1'; _u2 := u2'; _u3 := u3' |}.

(** [region_of_interest]; the indices are passed as [T] and modelled by their
    integral values *)
Definition region_of_interest (this other : tucker3_tensor T)
    (start_index1 end_index1 start_index2 end_index2 start_index3 end_index3 : nat)
    : result (tucker3_tensor T) :=
  _ ← assert_extents;
  _ ← assert (start_index1 <? end_index1);
  _ ← assert (start_index2 <? end_index2);
  _ ← assert (start_index3 <? end_index3);
  _ ← assert (end_index1 <? K1);
  _ ← assert (end_index2 <? K2);
  _ ← assert (end_index3 <? K3);
  let u1 := get_u1 other in
  u1' ← for_loop start_index1 (end_index1 - start_index1)
          (fun i1 u => row ← get_row K1 J1 u1 i1;
                       set_row I1 J1 u (i1 - start_index1) row)
          (_u1 this);
  let u2 := get_u2 other in
  u2' ← for_loop start_index2 (end_index2 - start_index2)
          (fun i2 u => row ← get_row K2 J2 u2 i2;
                       set_row I2 J2 u (i2 - start_index2) row)
          (_u2 this);
  let u3 := get_u3 other in
  u3' ← for_loop start_index3 (end_index3 - start_index3)
          (fun i3 u => row ← get_row K3 J3 u3 i3;
                       set_row I3 J3 u (i3 - start_index3) row)
          (_u3 this);
  Ok {| _core := get_core other; _u1 := u1'; _u2 := u2'; _u3 := u3' |}.

(** *** Flat export and import *)

(** [export_to]: a [const] member; the result is the object after the call
    and the new value of [data_].  The loop over the core ends after one
    step per element, hence its bound. *)
Definition export_to (this : tucker3_tensor T) (data_ : list T)
    : result (tucker3_tensor T * list T) :=
  data_ ← matrix_export_loop I1 J1 (_u1 this) data_;
  data_ ← matrix_export_loop I2 J2 (_u2 this) data_;
  data_ ← matrix_export_loop I3 J3 (_u3 this) data_;
  it_core ← tensor3_iterator_new J1 J2 J3 true;
  it_core_end ← tensor3_iterator_new J1 J2 J3 false;
  data_ ← tensor3_export_loop (J1 * J2 * J3) J1 J2 J3 (_core this)
            it_core it_core_end data_;
  Ok (this, data_).

(** [import_from]: [i] counts the elements read from [data_] *)
Definition import_from (this : tucker3_tensor T) (data_ : list T)
    : result (tucker3_tensor T) :=
  let i := 0 in
  '(u1', i) ← matrix_import_loop I1 J1 data_ (_u1 this, i);
  '(u2', i) ← matrix_import_loop I2 J2 data_ (_u2 this, i);
  '(u3', i) ← matrix_import_loop I3 J3 data_ (_u3 this, i);
  it_core ← tensor3_iterator_new J1 J2 J3 true;
  it_core_end ← tensor3_iterator_new J1 J2 J3 false;
  '(core', i) ← tensor3_import_loop (J1 * J2 * J3) J1 J2 J3 data_
                  it_core it_core_end (_core this, i);
  Ok {| _core := core'; _u1 := u1'; _u2 := u2'; _u3 := u3' |}.

(** what [export_to] appends: the three bases, then the frontal slices of
    the core, each array in its own order *)
Definition exported (this : tucker3_tensor T) : list T :=
  _u1 this ++ _u2 this ++ _u3 this ++ concat (_core this).

(** the model [reduce_ranks] leaves, read off the source model alone *)
Definition reduced (other : tucker3_tensor T) : tucker3_tensor T :=
  {| _core := mk_tensor3 J1 J2 J3 (fun a b c => tensor3_at K1 (_core other) a b c);
     _u1 := take (I1 * J1) (_u1 other);
     _u2 := take (I2 * J2) (_u2 other);
     _u3 := take (I3 * J3) (_u3 other) |}.

End tucker3.


(** ** An instance on binary64 floats

    [T = double], with stand-ins for the collaborators that are exact on the
    arrays they meet in the examples below. *)

Module Binary64.

#[global] Instance double_scalar : Scalar double := {|
  T0 := 0%float;
  T1 := 1%float;
  Tadd := PrimFloat.add;
  Tmul := PrimFloat.mul;
  Tdiv := PrimFloat.div
|}.

(** the three unfoldings, columns in the order of the second remaining index *)
Definition lateral (I1 I2 I3 : nat) (t : tensor3 double) : matrix double :=
  mk_matrix I1 (I2 * I3) (fun r c => tensor3_at I1 t r (c mod I2) (c / I2)).
Definition frontal (I1 I2 I3 : nat) (t : tensor3 double) : matrix double :=
  mk_matrix I2 (I1 * I3) (fun r c => tensor3_at I1 t (c mod I1) r (c / I1)).
Definition horizontal (I1 I2 I3 : nat) (t : tensor3 double) : matrix double :=
  mk_matrix I3 (I1 * I2) (fun r c => tensor3_at I1 t (c mod I1) (c / I1) r).

Definition row_dot (M N : nat) (m : matrix double) (r r' : nat) : double :=
  sum_upto N (fun c => PrimFloat.mul (matrix_at M m r c) (matrix_at M m r' c)).

Definition rows_orthogonal (M N : nat) (m : matrix double) : bool :=
  forallb (fun r => forallb (fun r' =>
      (r =? r') || PrimFloat.eqb (row_dot M N m r r') 0%float)
    (seq 0 M)) (seq 0 M).

Definition longest_row (M N : nat) (m : matrix double) : nat :=
  fold_left (fun best r =>
      if PrimFloat.ltb (row_dot M N m best best) (row_dot M N m r r)
      then r else best)
    (seq 0 M) 0.

(** A stand-in for the SVD.  It reports success only on a non-zero matrix
    whose rows are pairwise orthogonal; there A * A^T is diagonal, so the unit
    vector of the longest row is a dominant left singular vector, which is
    left in the first column.  On every other matrix, the zero matrix
    included, it reports failure. *)
Definition svd_orthogonal_rows (M N : nat) (m : matrix double)
    : bool * matrix double :=
  let k := longest_row M N m in
  if rows_orthogonal M N m && PrimFloat.ltb 0%float (row_dot M N m k k)
  then (true, mk_matrix M N (fun r c =>
                if (c =? 0) && (r =? k) then 1%float else 0%float))
  else (false, m).

(** A stand-in for the pseudo-inverse, handed back transposed as
    [compute_pseudoinverse] does: for a matrix with orthonormal columns the
    pseudo-inverse is the transpose, so the matrix itself is handed back. *)
Definition pinv_orthonormal (M N : nat) (m : matrix double) : matrix double := m.

(** the square root of the sum of the squared elements *)
Definition norm (t : tensor3 double) : double :=
  PrimFloat.sqrt
    (fold_left (fun acc x => PrimFloat.add acc (PrimFloat.mul x x))
       (concat t) 0%float).

(** the common block is copied, the remainder is zero *)
Definition convert (R C S R' C' S' : nat) (t : tensor3 double) : tensor3 double :=
  mk_tensor3 R' C' S' (fun i j s =>
    if (i <? R) && (j <? C) && (s <? S) then tensor3_at R t i j s else 0%float).

#[global] Instance double_collaborators : Collaborators double := {|
  lateral_matricization := lateral;
  frontal_matricization := frontal;
  horizontal_matricization := horizontal;
  compute_and_overwrite_input := svd_orthogonal_rows;
  compute_pseudoinverse := pinv_orthonormal;
  frobenius_norm := norm;
  tensor3_convert := convert
|}.

(** a 2 x 2 x 2 array: x000 = 1, x110 = 4, x101 = 4, x011 = 4 *)
Definition data222 : tensor3 double :=
  [ [1; 0; 0; 4] ; [0; 4; 4; 0] ]%float.

(** two models of ranks (1, 1, 1) over extents (2, 2, 2) that differ in their
    core only *)
Definition model_core0 : tucker3_tensor double :=
  {| _core := [[0%float]]; _u1 := [0; 0]%float; _u2 := [0; 0]%float;
     _u3 := [0; 0]%float |}.
Definition model_core7 : tucker3_tensor double :=
  {| _core := [[7%float]]; _u1 := [0; 0]%float; _u2 := [0; 0]%float;
     _u3 := [0; 0]%float |}.

(** a model of ranks (1, 1, 1) over extents (2, 2, 2) whose bases have the
    rows [1] and [3] *)
Definition source222 : tucker3_tensor double :=
  {| _core := [[9%float]]; _u1 := [1; 3]%float; _u2 := [1; 3]%float;
     _u3 := [1; 3]%float |}.

(** targets of ranks (1, 1, 1) over extents (1, 1, 1) and (1, 3, 1) *)
Definition target111 : tucker3_tensor double :=
  {| _core := [[0%float]]; _u1 := [0%float]; _u2 := [0%float];
     _u3 := [0%float] |}.
Definition target131 : tucker3_tensor double :=
  {| _core := [[0%float]]; _u1 := [0%float]; _u2 := [0; 0; 0]%float;
     _u3 := [0%float] |}.

(** a model of ranks (2, 2, 2) over extents (1, 1, 1) *)
Definition source_rank2 : tucker3_tensor double :=
  {| _core := [ [1; 2; 3; 4] ; [5; 6; 7; 8] ]%float;
     _u1 := [1; 2]%float; _u2 := [3; 4]%float; _u3 := [5; 6]%float |}.

(** a model of ranks (2, 2, 2) over extents (1, 1, 1) with all entries zero *)
Definition fresh_rank2 : tucker3_tensor double :=
  {| _core := [ [0; 0; 0; 0] ; [0; 0; 0; 0] ]%float;
     _u1 := [0; 0]%float; _u2 := [0; 0]%float; _u3 := [0; 0]%float |}.

(** source and target of ranks (1, 1, 1) over extents (2, 1, 1) *)
Definition source211 : tucker3_tensor double :=
  {| _core := [[9%float]]; _u1 := [1; 3]%float; _u2 := [1%float];
     _u3 := [1%float] |}.
Definition target211 : tucker3_tensor double :=
  {| _core := [[0%float]]; _u1 := [0; 0]%float; _u2 := [0%float];
     _u3 := [0%float] |}.

(** a model whose core holds a negative entry *)
Definition model_core_neg : tucker3_tensor double :=
  {| _core := [[(-5)%float]]; _u1 := [1; 3]%float; _u2 := [1; 3]%float;
     _u3 := [1; 3]%float |}.

(** a model whose core holds an infinite entry *)
Definition model_core_inf : tucker3_tensor double :=
  {| _core := [[PrimFloat.infinity]]; _u1 := [1; 3]%float;
     _u2 := [1; 3]%float; _u3 := [1; 3]%float |}.

(** a target of ranks (1, 1, 1) over extents (1, 1, 1) that is in use *)
Definition target111_filled : tucker3_tensor double :=
  {| _core := [[4%float]]; _u1 := [5%float]; _u2 := [6%float];
     _u3 := [7%float] |}.

End Binary64.

Arguments hoii_body : simpl never.
Arguments hoii_init : simpl never.
Arguments hoii_guard : simpl never.

(** * [Matrix4< T >] ([Matrix4.h]) *)

(** ** What [Matrix4.h] needs of [T] beyond [Scalar] *)

Class Numeric (T : Type) : Type := {
  Tsub : T -> T -> T;
  Topp : T -> T;          (* unary minus *)
  Tabs : T -> T;          (* fabs *)
  Tleb : T -> T -> bool;  (* <= *)
  Tneqb : T -> T -> bool  (* != *)
}.

(** Modelled from the spec: [Vector4.h] is missing.  A [Vector4< T >] is its
    four components; [v[0]] .. [v[3]] are [x] .. [w], the four-value
    constructor takes them in this order and the constructor from a [T*]
    reads four consecutive elements. *)
Module Vector4.
Record t (T : Type) : Type := mk { x : T; y : T; z : T; w : T }.
Arguments mk {T} _ _ _ _.
Arguments x {T} _.
Arguments y {T} _.
Arguments z {T} _.
Arguments w {T} _.
End Vector4.

(** Modelled from the spec: [Vector3.h] is missing.  A [Vector3< T >] is its
    three components [x], [y], [z], also read as [v[0]] .. [v[2]]. *)
Module Vector3.
Record t (T : Type) : Type := mk { x : T; y : T; z : T }.
Arguments mk {T} _ _ _.
Arguments x {T} _.
Arguments y {T} _.
Arguments z {T} _.
End Vector3.

(** Modelled from the spec: what [Matrix4.h] calls and does not define.
    [Matrix3_det] is [Matrix3< T >( v00, .. , v22 ).det()] of the missing
    [Matrix3.h] as a function of the nine constructor arguments,
    [Vector3_of_Vector4] the conversion constructor of the missing
    [Vector3.h], [Tsin] and [Tcos] are [sin] and [cos] of [math.h]. *)
Class Matrix4_collaborators (T : Type) : Type := {
  Matrix3_det : T -> T -> T -> T -> T -> T -> T -> T -> T -> T;
  Vector3_of_Vector4 : Vector4.t T -> Vector3.t T;
  Tsin : T -> T;
  Tcos : T -> T
}.

Module Matrix4.

(** the sixteen members of the anonymous struct, in the order of the union:
    [mRC] is the element in row R and column C, and the array [ml] holds the
    columns one after the other *)
Record t (T : Type) : Type := mk {
  m00 : T; m10 : T; m20 : T; m30 : T;
  m01 : T; m11 : T; m21 : T; m31 : T;
  m02 : T; m12 : T; m22 : T; m32 : T;
  m03 : T; m13 : T; m23 : T; m33 : T
}.
Arguments mk {T} _ _ _ _ _ _ _ _ _ _ _ _ _ _ _ _.
Arguments m00 {T} _.
Arguments m10 {T} _.
Arguments m20 {T} _.
Arguments m30 {T} _.
Arguments m01 {T} _.
Arguments m11 {T} _.
Arguments m21 {T} _.
Arguments m31 {T} _.
Arguments m02 {T} _.
Arguments m12 {T} _.
Arguments m22 {T} _.
Arguments m32 {T} _.
Arguments m03 {T} _.
Arguments m13 {T} _.
Arguments m23 {T} _.
Arguments m33 {T} _.

Section members.
Context {T : Type} `{Scalar T} `{Numeric T} `{Matrix4_collaborators T}.

(** *** The views [ml] and [m] of the union *)

(** [T ml[16]] as a value *)
Definition ml (this : t T) : list T :=
  [ m00 this; m10 this; m20 this; m30 this;
    m01 this; m11 this; m21 this; m31 this;
    m02 this; m12 this; m22 this; m32 this;
    m03 this; m13 this; m23 this; m33 this ].

(** the matrix whose array [ml] is the given one *)
Definition of_ml (a : list T) : result (t T) :=
  match a with
  | [ a0; a1; a2; a3; a4; a5; a6; a7; a8; a9; a10; a11; a12; a13; a14; a15 ] =>
      Ok (mk a0 a1 a2 a3 a4 a5 a6 a7 a8 a9 a10 a11 a12 a13 a14 a15)
  | _ => Fail index_out_of_bounds
  end.

(** [m[col][row]] read and written.  The source checks no index here; an
    index outside the array is undefined behaviour, given as
    [index_out_of_bounds]. *)
Definition m_get (this : t T) (col row : nat) : result T :=
  if (col <? 4) && (row <? 4) then
    match ml this !! (4 * col + row) with
    | Some v => Ok v
    | None => Fail index_out_of_bounds
    end
  else Fail index_out_of_bounds.

Definition m_set (this : t T) (col row : nat) (v : T) : result (t T) :=
  if (col <? 4) && (row <? 4) then of_ml (<[4 * col + row := v]> (ml this))
  else Fail index_out_of_bounds.

(** *** Constructors and constants *)

(** [Matrix4( v00, v01, v02, v03, v10, .. , v33 )]: the arguments come row
    by row, the initialisers name the member of each *)
Definition new (v00 v01 v02 v03 v10 v11 v12 v13
                v20 v21 v22 v23 v30 v31 v32 v33 : T) : t T :=
  {| m00 := v00; m10 := v10; m20 := v20; m30 := v30;
     m01 := v01; m11 := v11; m21 := v21; m31 := v31;
     m02 := v02; m12 := v12; m22 := v22; m32 := v32;
     m03 := v03; m13 := v13; m23 := v23; m33 := v33 |}.

Definition IDENTITY : t T :=
  new T1 T0 T0 T0 T0 T1 T0 T0 T0 T0 T1 T0 T0 T0 T0 T1.

Definition ZERO : t T :=
  new T0 T0 T0 T0 T0 T0 T0 T0 T0 T0 T0 T0 T0 T0 T0 T0.

(** [Matrix4( v0, v1, v2, v3, columnVectors )]: with the flag
    [m[k][i] = vk[i]], without it [m[i][k] = vk[i]], for i = 0 .. 3 *)
Definition new_vectors (v0 v1 v2 v3 : Vector4.t T) (columnVectors : bool)
    : t T :=
  if columnVectors then
    {| m00 := Vector4.x v0; m10 := Vector4.y v0;
       m20 := Vector4.z v0; m30 := Vector4.w v0;
       m01 := Vector4.x v1; m11 := Vector4.y v1;
       m21 := Vector4.z v1; m31 := Vector4.w v1;
       m02 := Vector4.x v2; m12 := Vector4.y v2;
       m22 := Vector4.z v2; m32 := Vector4.w v2;
       m03 := Vector4.x v3; m13 := Vector4.y v3;
       m23 := Vector4.z v3; m33 := Vector4.w v3 |}
  else
    {| m00 := Vector4.x v0; m10 := Vector4.x v1;
       m20 := Vector4.x v2; m30 := Vector4.x v3;
       m01 := Vector4.y v0; m11 := Vector4.y v1;
       m21 := Vector4.y v2; m31 := Vector4.y v3;
       m02 := Vector4.z v0; m12 := Vector4.z v1;
       m22 := Vector4.z v2; m32 := Vector4.z v3;
       m03 := Vector4.w v0; m13 := Vector4.w v1;
       m23 := Vector4.w v2; m33 := Vector4.w v3 |}.

(** *** Element, row and column access *)

Definition getElement (this : t T) (row col : nat) : result T :=
  m_get this col row.

(** [operator==]: false at the first [ml[i] != mm.ml[i]] *)
Definition operator_eq (this mm : t T) : bool :=
  forallb (fun p => negb (Tneqb p.1 p.2)) (zip (ml this) (ml mm)).

Definition operator_neq (this mm : t T) : bool := negb (operator_eq this mm).

(** [getColumn]: [Vector4< T >( m[column] )] *)
Definition getColumn (this : t T) (column : nat) : result (Vector4.t T) :=
  _ ← assert (column <? 4);
  c0 ← m_get this column 0;
  c1 ← m_get this column 1;
  c2 ← m_get this column 2;
  c3 ← m_get this column 3;
  Ok (Vector4.mk c0 c1 c2 c3).

(** [getRow]: [ml[0+row], ml[4+row], ml[8+row], ml[12+row]] *)
Definition getRow (this : t T) (row : nat) : result (Vector4.t T) :=
  _ ← assert (row <? 4);
  r0 ← m_get this 0 row;
  r1 ← m_get this 1 row;
  r2 ← m_get this 2 row;
  r3 ← m_get this 3 row;
  Ok (Vector4.mk r0 r1 r2 r3).

Definition setColumn (this : t T) (column : nat) (columnvec : Vector4.t T)
    : result (t T) :=
  this ← m_set this column 0 (Vector4.x columnvec);
  this ← m_set this column 1 (Vector4.y columnvec);
  this ← m_set this column 2 (Vector4.z columnvec);
  m_set this column 3 (Vector4.w columnvec).

Definition setRow (this : t T) (row : nat) (rowvec : Vector4.t T)
    : result (t T) :=
  this ← m_set this 0 row (Vector4.x rowvec);
  this ← m_set this 1 row (Vector4.y rowvec);
  this ← m_set this 2 row (Vector4.z rowvec);
  m_set this 3 row (Vector4.w rowvec).

(** the [Vector3] overloads write three elements and leave the fourth *)
Definition setColumn3 (this : t T) (column : nat) (columnvec : Vector3.t T)
    : result (t T) :=
  this ← m_set this column 0 (Vector3.x columnvec);
  this ← m_set this column 1 (Vector3.y columnvec);
  m_set this column 2 (Vector3.z columnvec).

Definition setRow3 (this : t T) (row : nat) (rowvec : Vector3.t T)
    : result (t T) :=
  this ← m_set this 0 row (Vector3.x rowvec);
  this ← m_set this 1 row (Vector3.y rowvec);
  m_set this 2 row (Vector3.z rowvec).

(** *** Arithmetic *)

(** [for ( size_t i = 0; i < 16; ++i ) result.ml[i] = f( ml[i], mm.ml[i] )] *)
Definition ml_map2 (f : T -> T -> T) (this mm : t T) : t T :=
  {| m00 := f (m00 this) (m00 mm); m10 := f (m10 this) (m10 mm);
     m20 := f (m20 this) (m20 mm); m30 := f (m30 this) (m30 mm);
     m01 := f (m01 this) (m01 mm); m11 := f (m11 this) (m11 mm);
     m21 := f (m21 this) (m21 mm); m31 := f (m31 this) (m31 mm);
     m02 := f (m02 this) (m02 mm); m12 := f (m12 this) (m12 mm);
     m22 := f (m22 this) (m22 mm); m32 := f (m32 this) (m32 mm);
     m03 := f (m03 this) (m03 mm); m13 := f (m13 this) (m13 mm);
     m23 := f (m23 this) (m23 mm); m33 := f (m33 this) (m33 mm) |}.

(** [for ( size_t i = 0; i < 16; ++i ) result.ml[i] = f( ml[i] )] *)
Definition ml_map (f : T -> T) (this : t T) : t T :=
  {| m00 := f (m00 this); m10 := f (m10 this);
     m20 := f (m20 this); m30 := f (m30 this);
     m01 := f (m01 this); m11 := f (m11 this);
     m21 := f (m21 this); m31 := f (m31 this);
     m02 := f (m02 this); m12 := f (m12 this);
     m22 := f (m22 this); m32 := f (m32 this);
     m03 := f (m03 this); m13 := f (m13 this);
     m23 := f (m23 this); m33 := f (m33 this) |}.

Definition operator_add (this mm : t T) : t T := ml_map2 Tadd this mm.
Definition operator_sub (this mm : t T) : t T := ml_map2 Tsub this mm.

Definition operator_mul (this o : t T) : t T :=
  {| m00 := Tadd (Tadd (Tadd (Tmul (m00 this) (m00 o)) (Tmul (m01 this) (m10 o)))
                       (Tmul (m02 this) (m20 o))) (Tmul (m03 this) (m30 o));
     m10 := Tadd (Tadd (Tadd (Tmul (m10 this) (m00 o)) (Tmul (m11 this) (m10 o)))
                       (Tmul (m12 this) (m20 o))) (Tmul (m13 this) (m30 o));
     m20 := Tadd (Tadd (Tadd (Tmul (m20 this) (m00 o)) (Tmul (m21 this) (m10 o)))
                       (Tmul (m22 this) (m20 o))) (Tmul (m23 this) (m30 o));
     m30 := Tadd (Tadd (Tadd (Tmul (m30 this) (m00 o)) (Tmul (m31 this) (m10 o)))
                       (Tmul (m32 this) (m20 o))) (Tmul (m33 this) (m30 o));

     m01 := Tadd (Tadd (Tadd (Tmul (m00 this) (m01 o)) (Tmul (m01 this) (m11 o)))
                       (Tmul (m02 this) (m21 o))) (Tmul (m03 this) (m31 o));
     m11 := Tadd (Tadd (Tadd (Tmul (m10 this) (m01 o)) (Tmul (m11 this) (m11 o)))
                       (Tmul (m12 this) (m21 o))) (Tmul (m13 this) (m31 o));
     m21 := Tadd (Tadd (Tadd (Tmul (m20 this) (m01 o)) (Tmul (m21 this) (m11 o)))
                       (Tmul (m22 this) (m21 o))) (Tmul (m23 this) (m31 o));
     m31 := Tadd (Tadd (Tadd (Tmul (m30 this) (m01 o)) (Tmul (m31 this) (m11 o)))
                       (Tmul (m32 this) (m21 o))) (Tmul (m33 this) (m31 o));

     m02 := Tadd (Tadd (Tadd (Tmul (m00 this) (m02 o)) (Tmul (m01 this) (m12 o)))
                       (Tmul (m02 this) (m22 o))) (Tmul (m03 this) (m32 o));
     m12 := Tadd (Tadd (Tadd (Tmul (m10 this) (m02 o)) (Tmul (m11 this) (m12 o)))
                       (Tmul (m12 this) (m22 o))) (Tmul (m13 this) (m32 o));
     m22 := Tadd (Tadd (Tadd (Tmul (m20 this) (m02 o)) (Tmul (m21 this) (m12 o)))
                       (Tmul (m22 this) (m22 o))) (Tmul (m23 this) (m32 o));
     m32 := Tadd (Tadd (Tadd (Tmul (m30 this) (m02 o)) (Tmul (m31 this) (m12 o)))
                       (Tmul (m32 this) (m22 o))) (Tmul (m33 this) (m32 o));

     m03 := Tadd (Tadd (Tadd (Tmul (m00 this) (m03 o)) (Tmul (m01 this) (m13 o)))
                       (Tmul (m02 this) (m23 o))) (Tmul (m03 this) (m33 o));
     m13 := Tadd (Tadd (Tadd (Tmul (m10 this) (m03 o)) (Tmul (m11 this) (m13 o)))
                       (Tmul (m12 this) (m23 o))) (Tmul (m13 this) (m33 o));
     m23 := Tadd (Tadd (Tadd (Tmul (m20 this) (m03 o)) (Tmul (m21 this) (m13 o)))
                       (Tmul (m22 this) (m23 o))) (Tmul (m23 this) (m33 o));
     m33 := Tadd (Tadd (Tadd (Tmul (m30 this) (m03 o)) (Tmul (m31 this) (m13 o)))
                       (Tmul (m32 this) (m23 o))) (Tmul (m33 this) (m33 o)) |}.

(** [operator*( T scalar )] *)
Definition operator_mul_scalar (this : t T) (scalar : T) : t T :=
  ml_map (fun v => Tmul v scalar) this.

(** [operator/( T scalar )]: [scalar = 1.0 / scalar; return operator*(scalar);] *)
Definition operator_div_scalar (this : t T) (scalar : T) : t T :=
  let scalar := Tdiv T1 scalar in operator_mul_scalar this scalar.

(** the compound assignments; the result is the new value of [*this] *)
Definition operator_add_assign (this mm : t T) : t T := ml_map2 Tadd this mm.
Definition operator_sub_assign (this mm : t T) : t T := ml_map2 Tsub this mm.

Definition operator_mul_assign (this o : t T) : t T :=
  let r :=
  {| m00 := Tadd (Tadd (Tadd (Tmul (m00 this) (m00 o)) (Tmul (m01 this) (m10 o)))
                       (Tmul (m02 this) (m20 o))) (Tmul (m03 this) (m30 o));
     m10 := Tadd (Tadd (Tadd (Tmul (m10 this) (m00 o)) (Tmul (m11 this) (m10 o)))
                       (Tmul (m12 this) (m20 o))) (Tmul (m13 this) (m30 o));
     m20 := Tadd (Tadd (Tadd (Tmul (m20 this) (m00 o)) (Tmul (m21 this) (m10 o)))
                       (Tmul (m22 this) (m20 o))) (Tmul (m23 this) (m30 o));
     m30 := Tadd (Tadd (Tadd (Tmul (m30 this) (m00 o)) (Tmul (m31 this) (m10 o)))
                       (Tmul (m32 this) (m20 o))) (Tmul (m33 this) (m30 o));

     m01 := Tadd (Tadd (Tadd (Tmul (m00 this) (m01 o)) (Tmul (m01 this) (m11 o)))
                       (Tmul (m02 this) (m21 o))) (Tmul (m03 this) (m31 o));
     m11 := Tadd (Tadd (Tadd (Tmul (m10 this) (m01 o)) (Tmul (m11 this) (m11 o)))
                       (Tmul (m12 this) (m21 o))) (Tmul (m13 this) (m31 o));
     m21 := Tadd (Tadd (Tadd (Tmul (m20 this) (m01 o)) (Tmul (m21 this) (m11 o)))
                       (Tmul (m22 this) (m21 o))) (Tmul (m23 this) (m31 o));
     m31 := Tadd (Tadd (Tadd (Tmul (m30 this) (m01 o)) (Tmul (m31 this) (m11 o)))
                       (Tmul (m32 this) (m21 o))) (Tmul (m33 this) (m31 o));

     m02 := Tadd (Tadd (Tadd (Tmul (m00 this) (m02 o)) (Tmul (m01 this) (m12 o)))
                       (Tmul (m02 this) (m22 o))) (Tmul (m03 this) (m32 o));
     m12 := Tadd (Tadd (Tadd (Tmul (m10 this) (m02 o)) (Tmul (m11 this) (m12 o)))
                       (Tmul (m12 this) (m22 o))) (Tmul (m13 this) (m32 o));
     m22 := Tadd (Tadd (Tadd (Tmul (m20 this) (m02 o)) (Tmul (m21 this) (m12 o)))
                       (Tmul (m22 this) (m22 o))) (Tmul (m23 this) (m32 o));
     m32 := Tadd (Tadd (Tadd (Tmul (m30 this) (m02 o)) (Tmul (m31 this) (m12 o)))
                       (Tmul (m32 this) (m22 o))) (Tmul (m33 this) (m32 o));

     m03 := Tadd (Tadd (Tadd (Tmul (m00 this) (m03 o)) (Tmul (m01 this) (m13 o)))
                       (Tmul (m02 this) (m23 o))) (Tmul (m03 this) (m33 o));
     m13 := Tadd (Tadd (Tadd (Tmul (m10 this) (m03 o)) (Tmul (m11 this) (m13 o)))
                       (Tmul (m12 this) (m23 o))) (Tmul (m13 this) (m33 o));
     m23 := Tadd (Tadd (Tadd (Tmul (m20 this) (m03 o)) (Tmul (m21 this) (m13 o)))
                       (Tmul (m22 this) (m23 o))) (Tmul (m23 this) (m33 o));
     m33 := Tadd (Tadd (Tadd (Tmul (m30 this) (m03 o)) (Tmul (m31 this) (m13 o)))
                       (Tmul (m32 this) (m23 o))) (Tmul (m33 this) (m33 o)) |} in
  r.

Definition operator_mul_scalar_assign (this : t T) (scalar : T) : t T :=
  ml_map (fun v => Tmul v scalar) this.

(** [operator*( const Vector4< T >& vv )] *)
Definition operator_mul_vector4 (this : t T) (vv : Vector4.t T) : Vector4.t T :=
  let v0 := Vector4.x vv in
  let v1 := Vector4.y vv in
  let v2 := Vector4.z vv in
  let v3 := Vector4.w vv in
  Vector4.mk
    (Tadd (Tadd (Tadd (Tmul v0 (m00 this)) (Tmul v1 (m10 this)))
                (Tmul v2 (m20 this))) (Tmul v3 (m30 this)))
    (Tadd (Tadd (Tadd (Tmul v0 (m01 this)) (Tmul v1 (m11 this)))
                (Tmul v2 (m21 this))) (Tmul v3 (m31 this)))
    (Tadd (Tadd (Tadd (Tmul v0 (m02 this)) (Tmul v1 (m12 this)))
                (Tmul v2 (m22 this))) (Tmul v3 (m32 this)))
    (Tadd (Tadd (Tadd (Tmul v0 (m03 this)) (Tmul v1 (m13 this)))
                (Tmul v2 (m23 this))) (Tmul v3 (m33 this))).

(** the local [Vector4< T > result] of [operator*( const Vector3< T >& vv )] *)
Definition operator_mul_vector3_result (this : t T) (vv : Vector3.t T)
    : Vector4.t T :=
  let v0 := Vector3.x vv in
  let v1 := Vector3.y vv in
  let v2 := Vector3.z vv in
  Vector4.mk
    (Tadd (Tadd (Tadd (Tmul v0 (m00 this)) (Tmul v1 (m10 this)))
                (Tmul v2 (m20 this))) (m30 this))
    (Tadd (Tadd (Tadd (Tmul v0 (m01 this)) (Tmul v1 (m11 this)))
                (Tmul v2 (m21 this))) (m31 this))
    (Tadd (Tadd (Tadd (Tmul v0 (m02 this)) (Tmul v1 (m12 this)))
                (Tmul v2 (m22 this))) (m32 this))
    (Tadd (Tadd (Tadd (Tmul v0 (m03 this)) (Tmul v1 (m13 this)))
                (Tmul v2 (m23 this))) (m33 this)).

(** [operator*( const Vector3< T >& vv )]: [return Vector3<T>( result );] *)
Definition operator_mul_vector3 (this : t T) (vv : Vector3.t T) : Vector3.t T :=
  Vector3_of_Vector4 (operator_mul_vector3_result this vv).

(** [getTransposed]: [result.m[i][j] = m[j][i]] for i, j = 0 .. 3 *)
Definition getTransposed (this : t T) : t T :=
  {| m00 := m00 this; m10 := m01 this; m20 := m02 this; m30 := m03 this;
     m01 := m10 this; m11 := m11 this; m21 := m12 this; m31 := m13 this;
     m02 := m20 this; m12 := m21 this; m22 := m22 this; m32 := m23 this;
     m03 := m30 this; m13 := m31 this; m23 := m32 this; m33 := m33 this |}.

(** *** Minors, determinant, adjugate, inverse *)

(** [getMinor( row0, row1, row2, col0, col1, col2 )] *)
Definition getMinor (this : t T) (row0 row1 row2 col0 col1 col2 : nat)
    : result T :=
  a00 ← m_get this col0 row0;
  a01 ← m_get this col1 row0;
  a02 ← m_get this col2 row0;
  a10 ← m_get this col0 row1;
  a11 ← m_get this col1 row1;
  a12 ← m_get this col2 row1;
  a20 ← m_get this col0 row2;
  a21 ← m_get this col1 row2;
  a22 ← m_get this col2 row2;
  Ok (Matrix3_det a00 a01 a02 a10 a11 a12 a20 a21 a22).

(** the locals [c], [col], [r], [row] of [getMinor( removeRow, removeCol )] *)
Record minor_state : Type := {
  ms_c : nat; ms_col : list nat; ms_r : nat; ms_row : list nat
}.

(** the body of its loop, for the index [i] *)
Definition minor_step (removeRow removeCol : nat) (s : minor_state) (i : nat)
    : minor_state :=
  let c := if ms_c s =? removeCol then ms_c s + 1 else ms_c s in
  let col := <[i := c]> (ms_col s) in
  let c := c + 1 in
  let r := if ms_r s =? removeRow then ms_r s + 1 else ms_r s in
  let row := <[i := r]> (ms_row s) in
  let r := r + 1 in
  {| ms_c := c; ms_col := col; ms_r := r; ms_row := row |}.

(** [getMinor( removeRow, removeCol )]; the arrays [col] and [row] are
    written in full before they are read *)
Definition getMinor_remove (this : t T) (removeRow removeCol : nat) : result T :=
  let s := fold_left (minor_step removeRow removeCol) (seq 0 3)
             {| ms_c := 0; ms_col := [0; 0; 0]; ms_r := 0; ms_row := [0; 0; 0] |} in
  let col := fun i => nth i (ms_col s) 0 in
  let row := fun i => nth i (ms_row s) 0 in
  a00 ← m_get this (col 0) (row 0);
  a01 ← m_get this (col 1) (row 0);
  a02 ← m_get this (col 2) (row 0);
  a10 ← m_get this (col 0) (row 1);
  a11 ← m_get this (col 1) (row 1);
  a12 ← m_get this (col 2) (row 1);
  a20 ← m_get this (col 0) (row 2);
  a21 ← m_get this (col 1) (row 2);
  a22 ← m_get this (col 2) (row 2);
  Ok (Matrix3_det a00 a01 a02 a10 a11 a12 a20 a21 a22).

Definition getDeterminant (this : t T) : result T :=
  d0 ← getMinor this 1 2 3 1 2 3;
  d1 ← getMinor this 1 2 3 0 2 3;
  d2 ← getMinor this 1 2 3 0 1 3;
  d3 ← getMinor this 1 2 3 0 1 2;
  Ok (Tsub (Tadd (Tsub (Tmul (m00 this) d0) (Tmul (m01 this) d1))
                 (Tmul (m02 this) d2)) (Tmul (m03 this) d3)).

Definition det (this : t T) : result T := getDeterminant this.

Definition getAdjugate (this : t T) : result (t T) :=
  a00 ← getMinor this 1 2 3 1 2 3;
  a01 ← getMinor this 0 2 3 1 2 3;
  a02 ← getMinor this 0 1 3 1 2 3;
  a03 ← getMinor this 0 1 2 1 2 3;
  a10 ← getMinor this 1 2 3 0 2 3;
  a11 ← getMinor this 0 2 3 0 2 3;
  a12 ← getMinor this 0 1 3 0 2 3;
  a13 ← getMinor this 0 1 2 0 2 3;
  a20 ← getMinor this 1 2 3 0 1 3;
  a21 ← getMinor this 0 2 3 0 1 3;
  a22 ← getMinor this 0 1 3 0 1 3;
  a23 ← getMinor this 0 1 2 0 1 3;
  a30 ← getMinor this 1 2 3 0 1 2;
  a31 ← getMinor this 0 2 3 0 1 2;
  a32 ← getMinor this 0 1 3 0 1 2;
  a33 ← getMinor this 0 1 2 0 1 2;
  Ok (new a00 (Topp a01) a02 (Topp a03)
          (Topp a10) a11 (Topp a12) a13
          a20 (Topp a21) a22 (Topp a23)
          (Topp a30) a31 (Topp a32) a33).

Definition getAdjoint (this : t T) : result (t T) := getAdjugate this.

(** [bool getInverse( Matrix4& result, T limit )]: the flag and the new
    value of [result] *)
Definition getInverse (this result_ : t T) (limit : T) : result (bool * t T) :=
  det ← getDeterminant this;
  if Tleb (Tabs det) limit then Ok (false, result_)
  else
    adj ← getAdjugate this;
    Ok (true, operator_mul_scalar adj (Tdiv T1 det)).

(** *** Transformations; the result is the new value of [*this] *)

Definition rotateX (this : t T) (angle : T) : t T :=
  let sinus := Tsin angle in
  let cosin := Tcos angle in
  {| m00 := Tsub (Tmul (m00 this) cosin) (Tmul (m20 this) sinus);
     m20 := Tadd (Tmul (m00 this) sinus) (Tmul (m20 this) cosin);
     m01 := Tsub (Tmul (m01 this) cosin) (Tmul (m21 this) sinus);
     m21 := Tadd (Tmul (m01 this) sinus) (Tmul (m21 this) cosin);
     m02 := Tsub (Tmul (m02 this) cosin) (Tmul (m22 this) sinus);
     m22 := Tadd (Tmul (m02 this) sinus) (Tmul (m22 this) cosin);
     m03 := Tsub (Tmul (m03 this) cosin) (Tmul (m23 this) sinus);
     m23 := Tadd (Tmul (m03 this) sinus) (Tmul (m23 this) cosin);
     m10 := m10 this; m11 := m11 this; m12 := m12 this; m13 := m13 this;
     m30 := m30 this; m31 := m31 this; m32 := m32 this; m33 := m33 this |}.

Definition rotateY (this : t T) (angle : T) : t T :=
  let sinus := Tsin angle in
  let cosin := Tcos angle in
  {| m10 := Tadd (Tmul (m10 this) cosin) (Tmul (m20 this) sinus);
     m20 := Tadd (Tmul (m10 this) (Topp sinus)) (Tmul (m20 this) cosin);
     m11 := Tadd (Tmul (m11 this) cosin) (Tmul (m21 this) sinus);
     m21 := Tadd (Tmul (m11 this) (Topp sinus)) (Tmul (m21 this) cosin);
     m12 := Tadd (Tmul (m12 this) cosin) (Tmul (m22 this) sinus);
     m22 := Tadd (Tmul (m12 this) (Topp sinus)) (Tmul (m22 this) cosin);
     m13 := Tadd (Tmul (m13 this) cosin) (Tmul (m23 this) sinus);
     m23 := Tadd (Tmul (m13 this) (Topp sinus)) (Tmul (m23 this) cosin);
     m00 := m00 this; m01 := m01 this; m02 := m02 this; m03 := m03 this;
     m30 := m30 this; m31 := m31 this; m32 := m32 this; m33 := m33 this |}.

Definition rotateZ (this : t T) (angle : T) : t T :=
  let sinus := Tsin angle in
  let cosin := Tcos angle in
  {| m00 := Tadd (Tmul (m00 this) cosin) (Tmul (m10 this) sinus);
     m10 := Tadd (Tmul (m00 this) (Topp sinus)) (Tmul (m10 this) cosin);
     m01 := Tadd (Tmul (m01 this) cosin) (Tmul (m11 this) sinus);
     m11 := Tadd (Tmul (m01 this) (Topp sinus)) (Tmul (m11 this) cosin);
     m02 := Tadd (Tmul (m02 this) cosin) (Tmul (m12 this) sinus);
     m12 := Tadd (Tmul (m02 this) (Topp sinus)) (Tmul (m12 this) cosin);
     m03 := Tadd (Tmul (m03 this) cosin) (Tmul (m13 this) sinus);
     m13 := Tadd (Tmul (m03 this) (Topp sinus)) (Tmul (m13 this) cosin);
     m20 := m20 this; m21 := m21 this; m22 := m22 this; m23 := m23 this;
     m30 := m30 this; m31 := m31 this; m32 := m32 this; m33 := m33 this |}.

(** [scale( const T scale[3] )]: [ml[0..3] *= scale[0]], [ml[4..7] *= scale[1]],
    [ml[8..11] *= scale[2]] *)
Definition scale (this : t T) (scale : T * T * T) : t T :=
  let '(s0, s1, s2) := scale in
  {| m00 := Tmul (m00 this) s0; m10 := Tmul (m10 this) s0;
     m20 := Tmul (m20 this) s0; m30 := Tmul (m30 this) s0;
     m01 := Tmul (m01 this) s1; m11 := Tmul (m11 this) s1;
     m21 := Tmul (m21 this) s1; m31 := Tmul (m31 this) s1;
     m02 := Tmul (m02 this) s2; m12 := Tmul (m12 this) s2;
     m22 := Tmul (m22 this) s2; m32 := Tmul (m32 this) s2;
     m03 := m03 this; m13 := m13 this; m23 := m23 this; m33 := m33 this |}.

(** [ml[12] *= scale[0]; ml[13] *= scale[1]; ml[14] *= scale[2];] *)
Definition scaleTranslation (this : t T) (scale : T * T * T) : t T :=
  let '(s0, s1, s2) := scale in
  {| m00 := m00 this; m10 := m10 this; m20 := m20 this; m30 := m30 this;
     m01 := m01 this; m11 := m11 this; m21 := m21 this; m31 := m31 this;
     m02 := m02 this; m12 := m12 this; m22 := m22 this; m32 := m32 this;
     m03 := Tmul (m03 this) s0; m13 := Tmul (m13 this) s1;
     m23 := Tmul (m23 this) s2; m33 := m33 this |}.

(** [ml[12] = x; ml[13] = y; ml[14] = z;] *)
Definition setTranslation (this : t T) (x y z : T) : t T :=
  {| m00 := m00 this; m10 := m10 this; m20 := m20 this; m30 := m30 this;
     m01 := m01 this; m11 := m11 this; m21 := m21 this; m31 := m31 this;
     m02 := m02 this; m12 := m12 this; m22 := m22 this; m32 := m32 this;
     m03 := x; m13 := y; m23 := z; m33 := m33 this |}.

(** [tensor( const Vector4< T >& u, const Vector4< T >& v )]:
    [m[i][j] = u[j] * v[i]] for i, j = 0 .. 3 *)
Definition tensor (u v : Vector4.t T) : t T :=
  let u0 := Vector4.x u in let u1 := Vector4.y u in
  let u2 := Vector4.z u in let u3 := Vector4.w u in
  let v0 := Vector4.x v in let v1 := Vector4.y v in
  let v2 := Vector4.z v in let v3 := Vector4.w v in
  {| m00 := Tmul u0 v0; m10 := Tmul u1 v0; m20 := Tmul u2 v0; m30 := Tmul u3 v0;
     m01 := Tmul u0 v1; m11 := Tmul u1 v1; m21 := Tmul u2 v1; m31 := Tmul u3 v1;
     m02 := Tmul u0 v2; m12 := Tmul u1 v2; m22 := Tmul u2 v2; m32 := Tmul u3 v2;
     m03 := Tmul u0 v3; m13 := Tmul u1 v3; m23 := Tmul u2 v3; m33 := Tmul u3 v3 |}.

(** [tensor( const Vector3< T >& u, const Vector3< T >& v )] *)
Definition tensor3v (u v : Vector3.t T) : t T :=
  let u0 := Vector3.x u in let u1 := Vector3.y u in let u2 := Vector3.z u in
  let v0 := Vector3.x v in let v1 := Vector3.y v in let v2 := Vector3.z v in
  {| m00 := Tmul u0 v0; m10 := Tmul u1 v0; m20 := Tmul u2 v0; m30 := v0;
     m01 := Tmul u0 v1; m11 := Tmul u1 v1; m21 := Tmul u2 v1; m31 := v1;
     m02 := Tmul u0 v2; m12 := Tmul u1 v2; m22 := Tmul u2 v2; m32 := v2;
     m03 := u0; m13 := u1; m23 := u2; m33 := T1 |}.

(** [operator-()] and [negate()]: [result *= -1.0] *)
Definition operator_neg (this : t T) : t T :=
  operator_mul_scalar_assign this (Topp T1).

Definition negate (this : t T) : t T :=
  operator_mul_scalar_assign this (Topp T1).

End members.
End Matrix4.

(** ** Vocabulary of the statements on [Matrix4] *)

Section matrix4_vocabulary.
Context {T : Type} `{Scalar T} `{Numeric T}.

(** the element in row [r] and column [c], for [r], [c] below 4 *)
Definition entry (a : Matrix4.t T) (r c : nat) : T :=
  match Matrix4.getElement a r c with Ok v => v | Fail _ => T0 end.

(** [u[0]*v[0] + u[1]*v[1] + u[2]*v[2] + u[3]*v[3]], summed from the left *)
Definition dot4 (u v : Vector4.t T) : T :=
  Tadd (Tadd (Tadd (Tmul (Vector4.x u) (Vector4.x v))
                   (Tmul (Vector4.y u) (Vector4.y v)))
             (Tmul (Vector4.z u) (Vector4.z v)))
       (Tmul (Vector4.w u) (Vector4.w v)).

(** [v[i]], for [i] below 4 *)
Definition component (v : Vector4.t T) (i : nat) : T :=
  match i with
  | 0 => Vector4.x v | 1 => Vector4.y v | 2 => Vector4.z v | _ => Vector4.w v
  end.

(** the three indices of 0 .. 3 that are left when [remove] is taken out;
    an index beyond 3 takes out the last *)
Definition kept (remove : nat) : nat * nat * nat :=
  match remove with
  | 0 => (1, 2, 3)
  | 1 => (0, 2, 3)
  | 2 => (0, 1, 3)
  | _ => (0, 1, 2)
  end.

(** the 3x3 determinant, expanded along the first row *)
Definition det3 (a00 a01 a02 a10 a11 a12 a20 a21 a22 : T) : T :=
  Tadd (Tsub (Tmul a00 (Tsub (Tmul a11 a22) (Tmul a12 a21)))
             (Tmul a01 (Tsub (Tmul a10 a22) (Tmul a12 a20))))
       (Tmul a02 (Tsub (Tmul a10 a21) (Tmul a11 a20))).

End matrix4_vocabulary.

(** ** An exact element type for the examples on [Matrix4]: the integers

    [Z] stands for [Matrix4< int >] where nothing overflows.  [Matrix3::det]
    is the determinant.  [const T sinus = sin(angle)] and
    [const T cosin = cos(angle)] store the sine and the cosine of an [int]
    converted back to [int], that is truncated toward zero: for the small
    angles of the examples the sine is 0, and the cosine is 1 at angle 0 and
    0 at every other angle. *)

Module Integers.

#[global] Instance Z_scalar : Scalar Z := {|
  T0 := 0%Z; T1 := 1%Z; Tadd := Z.add; Tmul := Z.mul; Tdiv := Z.div
|}.

#[global] Instance Z_numeric : Numeric Z := {|
  Tsub := Z.sub; Topp := Z.opp; Tabs := Z.abs; Tleb := Z.leb;
  Tneqb := fun a b => negb (Z.eqb a b)
|}.

#[global] Instance Z_collaborators : Matrix4_collaborators Z := {|
  Matrix3_det := det3;
  Vector3_of_Vector4 := fun v =>
    Vector3.mk (Vector4.x v) (Vector4.y v) (Vector4.z v);
  Tsin := fun _ => 0%Z;
  Tcos := fun angle => if (angle =? 0)%Z then 1%Z else 0%Z
|}.

(** The integers as an element type with an exact sine and cosine, as the
    overloads of [sin] and [cos] for such a type give them: the angle counts
    quarter turns, so the sine runs through 0, 1, 0, -1 and the cosine
    through 1, 0, -1, 0. *)
Definition Z_quarter_turns : Matrix4_collaborators Z := {|
  Matrix3_det := det3;
  Vector3_of_Vector4 := fun v =>
    Vector3.mk (Vector4.x v) (Vector4.y v) (Vector4.z v);
  Tsin := fun angle =>
    match (angle mod 4)%Z with 1%Z => 1%Z | 3%Z => (-1)%Z | _ => 0%Z end;
  Tcos := fun angle =>
    match (angle mod 4)%Z with 0%Z => 1%Z | 2%Z => (-1)%Z | _ => 0%Z end
|}.

(** a matrix of determinant 1 *)
Definition shear : Matrix4.t Z :=
  Eval cbv in
    Matrix4.new 1%Z 2%Z 0%Z 0%Z  0%Z 1%Z 3%Z 0%Z  0%Z 0%Z 1%Z 4%Z  0%Z 0%Z 0%Z 1%Z.

Definition counting : Matrix4.t Z :=
  Eval cbv in
    Matrix4.new 1%Z 2%Z 3%Z 4%Z  5%Z 6%Z 7%Z 8%Z
                9%Z 10%Z 11%Z 12%Z  13%Z 14%Z 15%Z 16%Z.

End Integers.

(** * Properties *)

(** arrays of the extents of their types, on concrete models *)
Ltac wf_example :=
  unfold wf_tucker3, wf_tensor3, wf_matrix; cbn;
  repeat split; repeat constructor.


(** ** Comparison of binary64 floats *)

Lemma SFcompare_antisym (x y : SpecFloat.spec_float) :
  SpecFloat.SFcompare y x = option_map CompOpp (SpecFloat.SFcompare x y).
Proof.
  destruct x as [sx|sx| |sx mx ex], y as [sy|sy| |sy my ey]; simpl;
    try reflexivity;
    try (destruct sx; reflexivity); try (destruct sy; reflexivity);
    try (destruct sx, sy; reflexivity).
  pose proof (Pos.compare_cont_antisym mx my Eq) as E. simpl in E.
  destruct sx, sy; simpl; try reflexivity; f_equal;
    rewrite (Z.compare_antisym ex ey);
    destruct (ex ?= ey)%Z; simpl; try reflexivity;
    rewrite E; reflexivity.
Qed.

(** [a > b] excludes [a <= b], also for NaN *)
Lemma float_gt_not_le (a b : double) :
  PrimFloat.ltb b a = true -> PrimFloat.leb a b = false.
Proof.
  rewrite ltb_spec, leb_spec. unfold SpecFloat.SFltb, SpecFloat.SFleb.
  rewrite (SFcompare_antisym (Prim2SF b) (Prim2SF a)).
  destruct (SpecFloat.SFcompare (Prim2SF b) (Prim2SF a)) as [[]|]; simpl;
    congruence.
Qed.

(** zero minus a value that is not negative is not above [min_improvement],
    also for NaN and the infinities *)
Lemma float_zero_sub_not_above (x : double) :
  PrimFloat.ltb x 0%float = false ->
  PrimFloat.ltb min_improvement (PrimFloat.sub 0%float x) = false.
Proof.
  rewrite !ltb_spec, sub_spec.
  let v := eval vm_compute in (Prim2SF min_improvement) in
    change (Prim2SF min_improvement) with v.
  let v := eval vm_compute in (Prim2SF 0%float) in
    change (Prim2SF 0%float) with v.
  destruct (Prim2SF x) as [[]|[]| |[] m e]; cbn; congruence.
Qed.

(** ** The loop of [hoii] *)

Section hoii_properties.
Context {T : Type} `{Scalar T} `{Collaborators T}.
Variables J1 J2 J3 I1 I2 I3 : nat.

Local Abbreviation body := (hoii_body J1 J2 J3 I1 I2 I3).
Local Abbreviation while := (hoii_while J1 J2 J3 I1 I2 I3).
Local Abbreviation init := (hoii_init J1 J2 J3 I1 I2 I3).

Lemma hoii_body_i (data_ : tensor3 T) (st : hoii_state T) :
  st_i (body data_ st) = st_i st + 1.
Proof. reflexivity. Qed.

Lemma hoii_iter_i (data_ : tensor3 T) (st : hoii_state T) (n : nat) :
  st_i (Nat.iter n (body data_) st) = st_i st + n.
Proof.
  induction n as [|n IH]; simpl; [lia|].
  rewrite ?hoii_body_i, IH. lia.
Qed.

Lemma hoii_iter_succ (data_ : tensor3 T) (st : hoii_state T) (n : nat) :
  Nat.iter n (body data_) (body data_ st) = Nat.iter (S n) (body data_) st.
Proof.
  induction n as [|n IH]; simpl; [reflexivity|]. now rewrite IH.
Qed.

(** With a bound that covers the iterations [max_iterations] still allows,
    the loop ends in the first state where its condition is false. *)
Lemma hoii_while_spec (data_ : tensor3 T) (fuel : nat) (st : hoii_state T) :
  max_iterations <= st_i st + fuel ->
  exists n, n <= fuel /\
    while fuel data_ st = Ok (Nat.iter n (body data_) st) /\
    hoii_guard (Nat.iter n (body data_) st) = false /\
    (forall k, k < n -> hoii_guard (Nat.iter k (body data_) st) = true).
Proof.
  revert st. induction fuel as [|fuel IH]; intros st Hfuel; simpl.
  - exists 0. simpl.
    assert (Hg : hoii_guard st = false).
    { unfold hoii_guard. apply andb_false_iff. right.
      apply Nat.ltb_ge. lia. }
    rewrite Hg. repeat split; try lia; auto; intros k Hk; lia.
  - destruct (hoii_guard st) eqn:Hg.
    + destruct (IH (body data_ st)) as (n & Hn & Hrun & Hend & Hbefore).
      { rewrite hoii_body_i. lia. }
      exists (S n). rewrite <- (hoii_iter_succ data_ st n). repeat split; try lia; auto.
      intros [|k] Hk; [exact Hg|].
      rewrite <- (hoii_iter_succ data_ st k). apply Hbefore. lia.
    + exists 0. simpl. repeat split; try lia; auto; intros k Hk; lia.
Qed.

Lemma hoii_while_exit (data_ : tensor3 T) (fuel : nat) (st : hoii_state T) :
  hoii_guard st = false -> while fuel data_ st = Ok st.
Proof. intros Hg. destruct fuel; cbn [hoii_while]; now rewrite Hg. Qed.

Lemma hoii_guard_improvement (st : hoii_state T) :
  hoii_guard st = true ->
  PrimFloat.leb (st_improvement st) min_improvement = false.
Proof.
  unfold hoii_guard. intros [Hlt _]%andb_true_iff.
  now apply float_gt_not_le.
Qed.

(** C2.  For every model and input array, the loop of [hoii] ends (the bound
    [max_iterations] given to it is never exhausted), its body is executed
    [n] times with [n <= 3], every execution of the body starts from a state
    whose improvement is not [<= 0.1] (so the loop is left in the first
    state whose improvement is [<= 0.1]), the improvement the body computes
    is the norm of the new reconstruction minus the previous norm, and
    [hoii] returns. *)
Theorem hoii_terminates_within_cap (this : tucker3_tensor T) (data_ : tensor3 T) :
  exists n,
    n <= 3 /\
    while max_iterations data_ (init this data_)
      = Ok (Nat.iter n (body data_) (init this data_)) /\
    hoii_guard (Nat.iter n (body data_) (init this data_)) = false /\
    (forall k, k < n ->
       hoii_guard (Nat.iter k (body data_) (init this data_)) = true /\
       PrimFloat.leb
         (st_improvement (Nat.iter k (body data_) (init this data_)))
         min_improvement = false) /\
    (forall k,
       PrimFloat.leb
         (st_improvement (Nat.iter k (body data_) (init this data_)))
         min_improvement = true -> n <= k) /\
    (forall st,
       st_improvement (body data_ st)
       = PrimFloat.sub
           (frobenius_norm
              (reconstruction J1 J2 J3 I1 I2 I3 (st_this (body data_ st))))
           (st_last_f_norm st) /\
       st_last_f_norm (body data_ st)
       = frobenius_norm
           (reconstruction J1 J2 J3 I1 I2 I3 (st_this (body data_ st)))) /\
    exists this', hoii J1 J2 J3 I1 I2 I3 this data_ = Ok this'.
Proof.
  destruct (hoii_while_spec data_ max_iterations (init this data_))
    as (n & Hn & Hrun & Hend & Hbefore).
  { simpl. lia. }
  exists n. split; [exact Hn|]. split; [exact Hrun|]. split; [exact Hend|].
  split; [|split; [|split]].
  - intros k Hk. split; [now apply Hbefore|].
    apply hoii_guard_improvement. now apply Hbefore.
  - intros k Hle. destruct (Nat.le_gt_cases n k) as [|Hlt]; [assumption|].
    apply Hbefore, hoii_guard_improvement in Hlt. congruence.
  - intros st. split; reflexivity.
  - unfold hoii. rewrite Hrun. simpl. eauto.
Qed.

End hoii_properties.

(** ** Containers: tabulation and reads *)

Lemma nth_map_seq {A : Type} (g : nat -> A) (n s : nat) (d : A) :
  s < n -> nth s (map g (seq 0 n)) d = g s.
Proof.
  intros Hs. rewrite (nth_indep _ d (g 0)) by (rewrite length_map, length_seq; lia).
  rewrite (map_nth g (seq 0 n) 0 s). now rewrite seq_nth by lia.
Qed.

Section container_properties.
Context {T : Type} `{Scalar T}.

Lemma nth_flat_map_blocks (g : nat -> list T) (M : nat) (d : T) :
  (forall c, length (g c) = M) ->
  forall n start c r, c < n -> r < M ->
    nth (c * M + r) (flat_map g (seq start n)) d = nth r (g (start + c)) d.
Proof.
  intros Hg. induction n as [|n IH]; intros start c r Hc Hr; [lia|].
  simpl. destruct c as [|c].
  - rewrite app_nth1 by (rewrite Hg; lia). now rewrite Nat.add_0_r.
  - rewrite app_nth2 by (rewrite Hg; simpl; lia).
    rewrite Hg. replace (S c * M + r - M) with (c * M + r) by (simpl; lia).
    rewrite IH by lia. f_equal. f_equal. lia.
Qed.

Lemma length_flat_map_blocks (g : nat -> list T) (M : nat) :
  (forall c, length (g c) = M) ->
  forall n start, length (flat_map g (seq start n)) = M * n.
Proof.
  intros Hg. induction n as [|n IH]; intros start; simpl; [lia|].
  rewrite length_app, Hg, IH. lia.
Qed.

Lemma length_mk_matrix (M N : nat) (f : nat -> nat -> T) :
  length (mk_matrix M N f) = M * N.
Proof.
  unfold mk_matrix. apply length_flat_map_blocks.
  intros c. now rewrite length_map, length_seq.
Qed.

Lemma matrix_at_mk_matrix (M N : nat) (f : nat -> nat -> T) (r c : nat) :
  r < M -> c < N -> matrix_at M (mk_matrix M N f) r c = f r c.
Proof.
  intros Hr Hc. unfold matrix_at, mk_matrix.
  rewrite nth_flat_map_blocks
    by (try (intros; now rewrite length_map, length_seq); lia).
  simpl. now rewrite nth_map_seq by lia.
Qed.

Lemma mk_matrix_ext (M N : nat) (f g : nat -> nat -> T) :
  (forall r c, r < M -> c < N -> f r c = g r c) ->
  mk_matrix M N f = mk_matrix M N g.
Proof.
  intros Hfg. unfold mk_matrix.
  assert (Hcols : forall n start, start + n <= N ->
    flat_map (fun c => map (fun r => f r c) (seq 0 M)) (seq start n) =
    flat_map (fun c => map (fun r => g r c) (seq 0 M)) (seq start n)).
  { induction n as [|n IH]; intros start Hn; simpl; [reflexivity|].
    rewrite IH by lia. f_equal.
    apply map_ext_in. intros r Hr%in_seq. apply Hfg; lia. }
  apply Hcols. lia.
Qed.

Lemma mk_matrix_const (M N : nat) (x : T) :
  mk_matrix M N (fun _ _ => x) = replicate (M * N) x.
Proof.
  unfold mk_matrix.
  assert (Hcol : map (fun _ : nat => x) (seq 0 M) = replicate M x).
  { generalize 0. induction M as [|M IH]; intros s; simpl; [reflexivity|].
    now rewrite IH. }
  rewrite Hcol.
  assert (Hcols : forall n start,
    flat_map (fun _ : nat => replicate M x) (seq start n) = replicate (M * n) x).
  { induction n as [|n IH]; intros start; simpl.
    - now rewrite Nat.mul_0_r.
    - rewrite IH. rewrite <- replicate_add. f_equal. lia. }
  apply Hcols.
Qed.

Lemma wf_matrix_zero (M N : nat) : wf_matrix M N (matrix_zero M N).
Proof. unfold wf_matrix, matrix_zero. apply length_replicate. Qed.

Lemma matrix_at_zero (M N r c : nat) : matrix_at M (matrix_zero M N) r c = T0.
Proof.
  unfold matrix_at, matrix_zero.
  destruct (Nat.lt_ge_cases (c * M + r) (M * N)) as [Hlt|Hge].
  - apply nth_lookup_Some with (d := T0).
    now apply lookup_replicate_2.
  - apply nth_overflow. now rewrite length_replicate.
Qed.

Lemma length_mk_tensor3 (R C S : nat) (f : nat -> nat -> nat -> T) :
  length (mk_tensor3 R C S f) = S.
Proof. unfold mk_tensor3. now rewrite length_map, length_seq. Qed.

Lemma wf_mk_tensor3 (R C S : nat) (f : nat -> nat -> nat -> T) :
  wf_tensor3 R C S (mk_tensor3 R C S f).
Proof.
  split; [apply length_mk_tensor3|].
  unfold mk_tensor3. apply Forall_forall. intros m Hm.
  apply list_elem_of_In, in_map_iff in Hm. destruct Hm as (s & <- & _).
  apply length_mk_matrix.
Qed.

Lemma tensor3_at_mk_tensor3 (R C S : nat) (f : nat -> nat -> nat -> T)
    (i j s : nat) :
  i < R -> j < C -> s < S -> tensor3_at R (mk_tensor3 R C S f) i j s = f i j s.
Proof.
  intros Hi Hj Hs. unfold tensor3_at, mk_tensor3.
  rewrite nth_map_seq by lia.
  exact (matrix_at_mk_matrix R C (fun r c => f r c s) i j Hi Hj).
Qed.

Lemma mk_tensor3_ext (R C S : nat) (f g : nat -> nat -> nat -> T) :
  (forall i j s, i < R -> j < C -> s < S -> f i j s = g i j s) ->
  mk_tensor3 R C S f = mk_tensor3 R C S g.
Proof.
  intros Hfg. unfold mk_tensor3. apply map_ext_in. intros s Hs%in_seq.
  apply mk_matrix_ext. intros r c Hr Hc. apply Hfg; lia.
Qed.

Lemma mk_tensor3_const (R C S : nat) (x : T) :
  mk_tensor3 R C S (fun _ _ _ => x) = replicate S (replicate (R * C) x).
Proof.
  unfold mk_tensor3.
  rewrite (map_ext _ (fun _ => replicate (R * C) x))
    by (intros; apply mk_matrix_const).
  generalize 0. induction S as [|S IH]; intros s; simpl; [reflexivity|].
  now rewrite IH.
Qed.

Lemma sum_upto_ext (n : nat) (f g : nat -> T) :
  (forall k, k < n -> f k = g k) -> sum_upto n f = sum_upto n g.
Proof.
  intros Hfg. unfold sum_upto. generalize T0.
  assert (Hgen : forall m start acc, start + m <= n ->
    fold_left (fun a k => Tadd a (f k)) (seq start m) acc =
    fold_left (fun a k => Tadd a (g k)) (seq start m) acc).
  { induction m as [|m IH]; intros start acc Hm; simpl; [reflexivity|].
    rewrite Hfg by lia. apply IH. lia. }
  intros acc. apply Hgen. lia.
Qed.

Lemma transpose_at (M N : nat) (m : matrix T) (r c : nat) :
  r < N -> c < M -> matrix_at N (transpose M N m) r c = matrix_at M m c r.
Proof.
  intros Hr Hc. unfold transpose.
  exact (matrix_at_mk_matrix N M (fun r c => matrix_at M m c r) r c Hr Hc).
Qed.

(** each entry of the full product, for indices inside the extents *)
Lemma full_tensor3_matrix_multiplication_at (R C S K1 K2 K3 : nat)
    (core : tensor3 T) (U1 U2 U3 : matrix T) (i j s : nat) :
  i < R -> j < C -> s < S ->
  tensor3_at R
    (full_tensor3_matrix_multiplication R C S K1 K2 K3 core U1 U2 U3) i j s =
  sum_upto K3 (fun k3 => Tmul (matrix_at S U3 s k3)
    (sum_upto K2 (fun k2 => Tmul (matrix_at C U2 j k2)
      (sum_upto K1 (fun k1 => Tmul (matrix_at R U1 i k1)
        (tensor3_at K1 core k1 k2 k3)))))).
Proof.
  intros Hi Hj Hs. unfold full_tensor3_matrix_multiplication.
  unfold multiply_horizontal at 1.
  rewrite (tensor3_at_mk_tensor3 R C S) by assumption.
  apply sum_upto_ext. intros k3 Hk3. f_equal.
  unfold multiply_frontal at 1.
  rewrite (tensor3_at_mk_tensor3 R C K3) by assumption.
  apply sum_upto_ext. intros k2 Hk2. f_equal.
  unfold multiply_lateral.
  now rewrite (tensor3_at_mk_tensor3 R K2 K3) by assumption.
Qed.

(** the first P columns of a column-major array are its first M*P elements *)
Lemma get_sub_matrix_take (M N P : nat) (m : matrix T) :
  wf_matrix M N m -> P <= N -> get_sub_matrix M M P m = take (M * P) m.
Proof.
  unfold wf_matrix. intros Hm HP.
  assert (Hlen : length (take (M * P) m) = M * P).
  { rewrite length_take. nia. }
  apply (nth_ext _ _ T0 T0).
  - unfold get_sub_matrix. now rewrite length_mk_matrix, Hlen.
  - unfold get_sub_matrix. rewrite length_mk_matrix. intros k Hk.
    assert (HM : M <> 0) by nia.
    pose proof (Nat.div_mod_eq k M) as Hdiv.
    pose proof (Nat.mod_upper_bound k M HM) as Hmod.
    assert (Hq : k / M < P).
    { apply Nat.Div0.div_lt_upper_bound. lia. }
    replace k with (k / M * M + k mod M) at 1 by lia.
    change (matrix_at M (mk_matrix M P (fun r c => matrix_at M m r c))
              (k mod M) (k / M) = nth k (take (M * P) m) T0).
    rewrite matrix_at_mk_matrix by assumption.
    rewrite nth_firstn.
    destruct (k <? M * P) eqn:Hlt; [|apply Nat.ltb_ge in Hlt; lia].
    unfold matrix_at. f_equal. lia.
Qed.

End container_properties.

(** ** Decomposition *)

Section decomposition_properties.
Context {T : Type} `{Scalar T} `{Collaborators T}.
Variables J1 J2 J3 I1 I2 I3 : nat.

(** C6.  For each mode, when the SVD reports failure on the matricization the
    output basis is the zero matrix of extents (I_k, J_k); when it reports
    success the output is the sub-matrix of the first J_k columns of the
    overwritten matricization, which, the SVD having left a matrix of the
    extents of its input with at least J_k columns, is the first I_k*J_k
    elements of its array.  Either way the call returns, with a matrix of
    extents (I_k, J_k). *)
Theorem hosvd_mode_fallback (data_ : tensor3 T) :
  let svd1 := compute_and_overwrite_input I1 (I2 * I3)
                (lateral_matricization I1 I2 I3 data_) in
  let svd2 := compute_and_overwrite_input I2 (I1 * I3)
                (frontal_matricization I1 I2 I3 data_) in
  let svd3 := compute_and_overwrite_input I3 (I1 * I2)
                (horizontal_matricization I1 I2 I3 data_) in
  (svd1.1 = false -> hosvd_mode1 J1 I1 I2 I3 data_ = matrix_zero I1 J1) /\
  (svd2.1 = false -> hosvd_mode2 J2 I1 I2 I3 data_ = matrix_zero I2 J2) /\
  (svd3.1 = false -> hosvd_mode3 J3 I1 I2 I3 data_ = matrix_zero I3 J3) /\
  (svd1.1 = true ->
     hosvd_mode1 J1 I1 I2 I3 data_ = get_sub_matrix I1 I1 J1 svd1.2 /\
     (wf_matrix I1 (I2 * I3) svd1.2 -> J1 <= I2 * I3 ->
      hosvd_mode1 J1 I1 I2 I3 data_ = take (I1 * J1) svd1.2)) /\
  (svd2.1 = true ->
     hosvd_mode2 J2 I1 I2 I3 data_ = get_sub_matrix I2 I2 J2 svd2.2 /\
     (wf_matrix I2 (I1 * I3) svd2.2 -> J2 <= I1 * I3 ->
      hosvd_mode2 J2 I1 I2 I3 data_ = take (I2 * J2) svd2.2)) /\
  (svd3.1 = true ->
     hosvd_mode3 J3 I1 I2 I3 data_ = get_sub_matrix I3 I3 J3 svd3.2 /\
     (wf_matrix I3 (I1 * I2) svd3.2 -> J3 <= I1 * I2 ->
      hosvd_mode3 J3 I1 I2 I3 data_ = take (I3 * J3) svd3.2)) /\
  wf_matrix I1 J1 (hosvd_mode1 J1 I1 I2 I3 data_) /\
  wf_matrix I2 J2 (hosvd_mode2 J2 I1 I2 I3 data_) /\
  wf_matrix I3 J3 (hosvd_mode3 J3 I1 I2 I3 data_).
Proof.
  intros svd1 svd2 svd3.
  unfold hosvd_mode1, hosvd_mode2, hosvd_mode3. fold svd1 svd2 svd3.
  repeat match goal with |- _ /\ _ => split end.
  1-3: now intros ->.
  1-3: intros Hok; rewrite Hok; split; [reflexivity|]; intros Hwf HJ;
    eapply get_sub_matrix_take; eassumption.
  - destruct (svd1.1); [apply length_mk_matrix|apply wf_matrix_zero].
  - destruct (svd2.1); [apply length_mk_matrix|apply wf_matrix_zero].
  - destruct (svd3.1); [apply length_mk_matrix|apply wf_matrix_zero].
Qed.

(** C1.  [decomposition] runs [hoii] and then sets the core to the input
    multiplied along each mode by the transpose of the basis [hoii] has
    left: the bases are those of [hoii], the core is the chain of the three
    n-mode products with the transposed bases, entry by entry the triple sum
    over the input, and this last step calls no collaborator (no
    pseudo-inverse: it does not depend on the [Collaborators]). *)
Theorem decomposition_final_core (this : tucker3_tensor T) (data_ : tensor3 T) :
  exists h d,
    hoii J1 J2 J3 I1 I2 I3 this data_ = Ok h /\
    decomposition J1 J2 J3 I1 I2 I3 this data_ = Ok d /\
    _u1 d = _u1 h /\ _u2 d = _u2 h /\ _u3 d = _u3 h /\
    _core d = derive_core_orthogonal_bases J1 J2 J3 I1 I2 I3 data_
                (_u1 d) (_u2 d) (_u3 d) /\
    _core d =
      multiply_horizontal J1 J2 J3 I3
        (multiply_frontal J1 J2 I2 I3
           (multiply_lateral J1 I1 I2 I3 data_ (transpose I1 J1 (_u1 d)))
           (transpose I2 J2 (_u2 d)))
        (transpose I3 J3 (_u3 d)) /\
    forall j1 j2 j3, j1 < J1 -> j2 < J2 -> j3 < J3 ->
      tensor3_at J1 (_core d) j1 j2 j3 =
      sum_upto I3 (fun i3 => Tmul (matrix_at I3 (_u3 d) i3 j3)
        (sum_upto I2 (fun i2 => Tmul (matrix_at I2 (_u2 d) i2 j2)
          (sum_upto I1 (fun i1 => Tmul (matrix_at I1 (_u1 d) i1 j1)
            (tensor3_at I1 data_ i1 i2 i3)))))).
Proof.
  destruct (hoii_while_spec J1 J2 J3 I1 I2 I3 data_ max_iterations
              (hoii_init J1 J2 J3 I1 I2 I3 this data_))
    as (n & _ & Hrun & _); [simpl; lia|].
  unfold decomposition, tucker_als, hoii. rewrite Hrun. simpl.
  eexists. eexists. split; [reflexivity|]. split; [reflexivity|]. simpl.
  repeat split.
  intros j1 j2 j3 Hj1 Hj2 Hj3.
  unfold derive_core_orthogonal_bases.
  rewrite full_tensor3_matrix_multiplication_at by assumption.
  apply sum_upto_ext. intros i3 Hi3. rewrite transpose_at by assumption.
  f_equal. apply sum_upto_ext. intros i2 Hi2.
  rewrite transpose_at by assumption.
  f_equal. apply sum_upto_ext. intros i1 Hi1.
  now rewrite transpose_at by assumption.
Qed.

End decomposition_properties.

(** ** Counted loops *)

Lemma for_loop_invariant {St : Type} (P : nat -> St -> Prop)
    (body : nat -> St -> result St) (count lo : nat) (s : St) :
  P lo s ->
  (forall j s0, lo <= j < lo + count -> P j s0 ->
     exists s1, body j s0 = Ok s1 /\ P (S j) s1) ->
  exists s', for_loop lo count body s = Ok s' /\ P (lo + count) s'.
Proof.
  revert lo s. induction count as [|count IH]; intros lo s Hs Hstep; simpl.
  - exists s. rewrite Nat.add_0_r. auto.
  - destruct (Hstep lo s) as (s1 & Hbody & Hs1); [lia|assumption|].
    rewrite Hbody. simpl.
    destruct (IH (S lo) s1) as (s' & Hrun & Hs'); [assumption| |].
    + intros j s0 Hj. apply Hstep. lia.
    + exists s'. split; [assumption|].
      now replace (lo + S count) with (S lo + count) by lia.
Qed.

Lemma nth_insert {A : Type} (l : list A) (k k0 : nat) (x d : A) :
  nth k (<[k0 := x]> l) d =
  if bool_decide (k = k0 /\ k0 < length l) then x else nth k l d.
Proof.
  rewrite !nth_lookup. case_bool_decide as Hk.
  - destruct Hk as [-> Hlt]. now rewrite list_lookup_insert_eq.
  - destruct (decide (k = k0)) as [->|Hne].
    + rewrite list_insert_ge by lia. reflexivity.
    + now rewrite list_lookup_insert_ne.
Qed.

(** ** Rank reduction *)

Section reduce_ranks_properties.
Context {T : Type} `{Scalar T}.

Lemma matrix_at_take (M P : nat) (m : matrix T) (r c : nat) :
  r < M -> c < P -> matrix_at M (take (M * P) m) r c = matrix_at M m r c.
Proof.
  intros Hr Hc. unfold matrix_at. rewrite nth_firstn.
  destruct (c * M + r <? M * P) eqn:Hlt; [reflexivity|].
  apply Nat.ltb_ge in Hlt. nia.
Qed.

(** the loop over the columns of one basis *)
Lemma reduce_basis_loop (I J K : nat) (u u0 : matrix T) :
  wf_matrix I K u -> wf_matrix I J u0 -> J <= K ->
  for_loop 0 J
    (fun j a => col ← get_column I K u j; set_column I J a j col) u0
  = Ok (take (I * J) u).
Proof.
  unfold wf_matrix. intros Hu Hu0 HJK.
  destruct (for_loop_invariant
    (fun j (a : matrix T) =>
       length a = I * J /\ forall k, k < j * I -> a !! k = u !! k)
    (fun j a => col ← get_column I K u j; set_column I J a j col) J 0 u0)
    as (a & Hrun & Hlen & Ha).
  - split; [assumption|]. intros k Hk. lia.
  - intros j a Hj [Hlen Ha]. unfold get_column, set_column.
    destruct (j <? K) eqn:HjK; [|apply Nat.ltb_ge in HjK; lia].
    destruct (j <? J) eqn:HjJ; [|apply Nat.ltb_ge in HjJ; lia].
    simpl. eexists. split; [reflexivity|].
    assert (Hcol : length (take I (drop (j * I) u)) = I).
    { rewrite length_take, length_drop. nia. }
    split; [now rewrite length_inserts|].
    intros k Hk. destruct (Nat.lt_ge_cases k (j * I)) as [Hlt|Hge].
    + rewrite list_lookup_inserts_lt by assumption. now apply Ha.
    + rewrite list_lookup_inserts by (rewrite ?Hcol; nia).
      rewrite lookup_take_lt by lia. rewrite lookup_drop. f_equal. lia.
  - rewrite Hrun. f_equal. apply list_eq. intros k.
    destruct (Nat.lt_ge_cases k (I * J)) as [Hlt|Hge].
    + rewrite lookup_take_lt by assumption. apply Ha. lia.
    + rewrite lookup_take_ge by assumption. apply lookup_ge_None. lia.
Qed.

Lemma tensor3_set_spec (R C S : nat) (t : tensor3 T) (a b c : nat) (x : T) :
  wf_tensor3 R C S t -> a < R -> b < C -> c < S ->
  exists t', tensor3_set R C S t a b c x = Ok t' /\
    wf_tensor3 R C S t' /\
    tensor3_at R t' a b c = x /\
    forall a' b' c', a' < R -> b' < C ->
      (a', b', c') <> (a, b, c) ->
      tensor3_at R t' a' b' c' = tensor3_at R t a' b' c'.
Proof.
  intros [Hlen Hslices] Ha Hb Hc. unfold tensor3_set.
  destruct (a <? R) eqn:Ea; [|apply Nat.ltb_ge in Ea; lia].
  destruct (b <? C) eqn:Eb; [|apply Nat.ltb_ge in Eb; lia].
  destruct (c <? S) eqn:Ec; [|apply Nat.ltb_ge in Ec; lia].
  cbn [andb]. eexists. split; [reflexivity|].
  assert (Hslice : length (nth c t []) = R * C).
  { destruct (nth_lookup_or_length t c []) as [Hl|Hl]; [|lia].
    exact (proj1 (Forall_lookup _ _) Hslices _ _ Hl). }
  split; [|split].
  - split; [now rewrite length_insert|].
    apply Forall_insert; [assumption|].
    unfold wf_matrix. now rewrite length_insert.
  - unfold tensor3_at, matrix_at. rewrite nth_insert.
    rewrite bool_decide_eq_true_2 by lia.
    rewrite nth_insert. rewrite bool_decide_eq_true_2; [reflexivity|nia].
  - intros a' b' c' Ha' Hb' Hne. unfold tensor3_at, matrix_at.
    rewrite nth_insert. case_bool_decide as Hcc; [|reflexivity].
    destruct Hcc as [-> _]. rewrite nth_insert.
    case_bool_decide as Hk; [|reflexivity].
    destruct Hk as [Hk _]. exfalso. apply Hne.
    assert (b' = b) by nia. subst b'. f_equal. f_equal. lia.
Qed.

Lemma reduce_core_loop (J1 J2 J3 K1 K2 K3 : nat) (o t0 : tensor3 T) :
  J1 <= K1 -> J2 <= K2 -> J3 <= K3 -> wf_tensor3 J1 J2 J3 t0 ->
  exists t,
    for_loop 0 J3 (fun j3 =>
      for_loop 0 J1 (fun j1 =>
        for_loop 0 J2 (fun j2 core =>
          x ← tensor3_get K1 K2 K3 o j1 j2 j3;
          tensor3_set J1 J2 J3 core j1 j2 j3 x))) t0 = Ok t /\
    wf_tensor3 J1 J2 J3 t /\
    forall a b c, a < J1 -> b < J2 -> c < J3 ->
      tensor3_at J1 t a b c = tensor3_at K1 o a b c.
Proof.
  intros HJ1 HJ2 HJ3 Hwf.
  destruct (for_loop_invariant
    (fun j3 t => core_agrees J1 J2 J3 K1 o j3 0 0 t)
    (fun j3 =>
      for_loop 0 J1 (fun j1 =>
        for_loop 0 J2 (fun j2 core =>
          x ← tensor3_get K1 K2 K3 o j1 j2 j3;
          tensor3_set J1 J2 J3 core j1 j2 j3 x))) J3 0 t0)
    as (t & Hrun & Hwf' & Hagree).
  - split; [assumption|]. unfold visited. intros a b c _ _ _ Hv. lia.
  - intros j3 t3 Hj3 Hinv3.
    destruct (for_loop_invariant
      (fun j1 t => core_agrees J1 J2 J3 K1 o j3 j1 0 t)
      (fun j1 =>
        for_loop 0 J2 (fun j2 core =>
          x ← tensor3_get K1 K2 K3 o j1 j2 j3;
          tensor3_set J1 J2 J3 core j1 j2 j3 x)) J1 0 t3)
      as (t1 & Hrun1 & Hinv1).
    + exact Hinv3.
    + intros j1 t1 Hj1 Hinv1.
      destruct (for_loop_invariant
        (fun j2 t => core_agrees J1 J2 J3 K1 o j3 j1 j2 t)
        (fun j2 core =>
          x ← tensor3_get K1 K2 K3 o j1 j2 j3;
          tensor3_set J1 J2 J3 core j1 j2 j3 x) J2 0 t1)
        as (t2 & Hrun2 & Hinv2).
      * exact Hinv1.
      * intros j2 t2 Hj2 [Hwf2 Hag2]. unfold tensor3_get.
        destruct (j1 <? K1) eqn:E1; [|apply Nat.ltb_ge in E1; lia].
        destruct (j2 <? K2) eqn:E2; [|apply Nat.ltb_ge in E2; lia].
        destruct (j3 <? K3) eqn:E3; [|apply Nat.ltb_ge in E3; lia].
        simpl.
        destruct (tensor3_set_spec J1 J2 J3 t2 j1 j2 j3
                    (tensor3_at K1 o j1 j2 j3) Hwf2)
          as (t' & Hset & Hwf' & Hnew & Hold); try lia.
        exists t'. split; [exact Hset|]. split; [exact Hwf'|].
        intros a b c Ha Hb Hc Hv.
        destruct (decide ((a, b, c) = (j1, j2, j3))) as [Heq|Hne].
        -- injection Heq as -> -> ->. exact Hnew.
        -- rewrite Hold by assumption. apply Hag2; try assumption.
           unfold visited in *.
           assert (~ (a = j1 /\ b = j2 /\ c = j3)).
           { intros (-> & -> & ->). now apply Hne. }
           lia.
      * exists t2. split; [exact Hrun2|]. destruct Hinv2 as [Hwf2 Hag2].
        split; [exact Hwf2|]. intros a b c Ha Hb Hc Hv.
        apply Hag2; try assumption. unfold visited in *. lia.
    + exists t1. split; [exact Hrun1|]. destruct Hinv1 as [Hwf1 Hag1].
      split; [exact Hwf1|]. intros a b c Ha Hb Hc Hv.
      apply Hag1; try assumption. unfold visited in *. lia.
  - exists t. split; [exact Hrun|]. split; [exact Hwf'|].
    intros a b c Ha Hb Hc. apply Hagree; try assumption.
    unfold visited. lia.
Qed.

Variables J1 J2 J3 I1 I2 I3 K1 K2 K3 : nat.

(** C4.  For target ranks not above the source ranks, [reduce_ranks] returns
    and leaves in each target basis exactly the first J_k columns of the
    source basis (the first I_k*J_k elements of its column-major array, the
    same entry at every row and column), and in the target core exactly the
    leading J1 x J2 x J3 block of the source core. *)
Theorem reduce_ranks_exact (this other : tucker3_tensor T) :
  J1 <= K1 -> J2 <= K2 -> J3 <= K3 ->
  wf_tucker3 J1 J2 J3 I1 I2 I3 this ->
  wf_tucker3 K1 K2 K3 I1 I2 I3 other ->
  exists r,
    reduce_ranks J1 J2 J3 I1 I2 I3 K1 K2 K3 this other = Ok r /\
    wf_tucker3 J1 J2 J3 I1 I2 I3 r /\
    _u1 r = take (I1 * J1) (_u1 other) /\
    _u2 r = take (I2 * J2) (_u2 other) /\
    _u3 r = take (I3 * J3) (_u3 other) /\
    (forall i j, i < I1 -> j < J1 ->
       matrix_at I1 (_u1 r) i j = matrix_at I1 (_u1 other) i j) /\
    (forall i j, i < I2 -> j < J2 ->
       matrix_at I2 (_u2 r) i j = matrix_at I2 (_u2 other) i j) /\
    (forall i j, i < I3 -> j < J3 ->
       matrix_at I3 (_u3 r) i j = matrix_at I3 (_u3 other) i j) /\
    (forall j1 j2 j3, j1 < J1 -> j2 < J2 -> j3 < J3 ->
       tensor3_at J1 (_core r) j1 j2 j3 = tensor3_at K1 (_core other) j1 j2 j3).
Proof.
  intros HJ1 HJ2 HJ3 (Hc & Hu1 & Hu2 & Hu3) (Hoc & Ho1 & Ho2 & Ho3).
  unfold reduce_ranks, assert, get_u1, get_u2, get_u3, get_core.
  rewrite (proj2 (Nat.leb_le J1 K1) HJ1), (proj2 (Nat.leb_le J2 K2) HJ2),
    (proj2 (Nat.leb_le J3 K3) HJ3).
  cbn [mbind result_bind].
  rewrite (reduce_basis_loop I1 J1 K1) by assumption.
  rewrite (reduce_basis_loop I2 J2 K2) by assumption.
  rewrite (reduce_basis_loop I3 J3 K3) by assumption.
  cbn [mbind result_bind].
  destruct (reduce_core_loop J1 J2 J3 K1 K2 K3 (_core other) (_core this))
    as (t & Hrun & Hwf & Hagree); try assumption.
  rewrite Hrun. cbn [mbind result_bind].
  unfold wf_matrix in *.
  eexists. split; [reflexivity|]. cbn [_core _u1 _u2 _u3].
  split.
  { split; [exact Hwf|]. cbn [_core _u1 _u2 _u3].
    repeat split; unfold wf_matrix; rewrite length_take; nia. }
  repeat split; try (intros; now apply matrix_at_take).
  exact Hagree.
Qed.

End reduce_ranks_properties.

(** ** Flat export and import *)

Section export_import_properties.
Context {T : Type} `{Scalar T}.

Lemma vector_at_Some (l : list T) (i : nat) (x : T) :
  l !! i = Some x -> vector_at l i = Ok x.
Proof. unfold vector_at. now intros ->. Qed.

Lemma matrix_export_gen (m : matrix T) (count lo : nat) (d : list T) :
  lo + count <= length m ->
  for_loop lo count (fun k d0 => x ← vector_at m k; Ok (d0 ++ [x])) d
  = Ok (d ++ take count (drop lo m)).
Proof.
  revert lo d. induction count as [|count IH]; intros lo d Hlen.
  - cbn [for_loop]. now rewrite take_0, app_nil_r.
  - destruct (lookup_lt_is_Some_2 m lo) as [x Hx]; [lia|].
    cbn [for_loop]. rewrite (vector_at_Some _ _ _ Hx).
    cbn [mbind result_bind]. rewrite IH by lia.
    rewrite (drop_S _ _ _ Hx). cbn [take firstn]. now rewrite <- app_assoc.
Qed.

Lemma matrix_export_loop_spec (M N : nat) (m : matrix T) (d : list T) :
  wf_matrix M N m -> matrix_export_loop M N m d = Ok (d ++ m).
Proof.
  unfold wf_matrix, matrix_export_loop. intros Hm.
  rewrite matrix_export_gen by lia. rewrite drop_0.
  now rewrite take_ge by lia.
Qed.

Lemma matrix_import_gen (data_ : list T) (count lo i : nat) (m : matrix T) :
  i + count <= length data_ ->
  for_loop lo count
    (fun k st => x ← vector_at data_ st.2; Ok (<[k := x]> st.1, st.2 + 1))
    (m, i)
  = Ok (list_inserts lo (take count (drop i data_)) m, i + count).
Proof.
  revert lo i m. induction count as [|count IH]; intros lo i m Hlen.
  - cbn [for_loop]. rewrite take_0, Nat.add_0_r. reflexivity.
  - destruct (lookup_lt_is_Some_2 data_ i) as [x Hx]; [lia|].
    cbn [for_loop fst snd]. rewrite (vector_at_Some _ _ _ Hx).
    cbn [mbind result_bind]. rewrite IH by lia.
    rewrite (drop_S _ _ _ Hx). cbn [take firstn list_inserts].
    rewrite list_insert_inserts_lt by lia.
    replace (i + 1) with (S i) by lia.
    f_equal. f_equal. lia.
Qed.

Lemma matrix_import_loop_spec (M N : nat) (data_ : list T) (i : nat)
    (m : matrix T) :
  wf_matrix M N m -> i + M * N <= length data_ ->
  matrix_import_loop M N data_ (m, i)
  = Ok (take (M * N) (drop i data_), i + M * N).
Proof.
  unfold wf_matrix, matrix_import_loop. intros Hm Hlen.
  rewrite matrix_import_gen by assumption. f_equal. f_equal.
  rewrite <- (app_nil_r (take (M * N) (drop i data_))) at 1.
  apply list_inserts_0_l.
  rewrite length_take, length_drop. lia.
Qed.

(** *** The iterator over a tensor *)

Lemma tensor3_iterator_incr_at (R C NS k off : nat) :
  off < R * C ->
  tensor3_iterator_incr R C NS (it_at R C k off) =
  if (off + 1 =? R * C) && (k + 1 <? NS)
  then it_at R C (k + 1) 0 else it_at R C k (off + 1).
Proof.
  intros Hoff. unfold tensor3_iterator_incr, it_at, slice_end, slice_begin.
  cbn [_matrix_it _matrix_it_end _matrix_index fst snd].
  rewrite (bool_decide_eq_false_2 ((k, off) = (k, R * C)))
    by (intros [=]; lia).
  cbn [negb].
  destruct (off + 1 =? R * C) eqn:E.
  - apply Nat.eqb_eq in E.
    rewrite (bool_decide_eq_true_2 ((k, off + 1) = (k, R * C)))
      by (now rewrite E).
    cbn [andb]. destruct (k + 1 <? NS); reflexivity.
  - apply Nat.eqb_neq in E.
    rewrite (bool_decide_eq_false_2 ((k, off + 1) = (k, R * C)))
      by (intros [=]; lia).
    reflexivity.
Qed.

Lemma wf_tensor3_slice (R C NS : nat) (t : tensor3 T) (k : nat) :
  wf_tensor3 R C NS t -> k < NS ->
  t !! k = Some (nth k t []) /\ length (nth k t []) = R * C.
Proof.
  intros [Hlen Hslices] Hk.
  destruct (nth_lookup_or_length t k []) as [Hl|Hl]; [|lia].
  split; [exact Hl|]. exact (proj1 (Forall_lookup _ _) Hslices _ _ Hl).
Qed.

Lemma length_concat_wf (R C NS : nat) (t : tensor3 T) :
  wf_tensor3 R C NS t -> length (concat t) = NS * (R * C).
Proof.
  intros [Hlen Hslices]. subst NS.
  induction Hslices as [|m t Hm Hslices IH]; [reflexivity|].
  cbn [concat length]. rewrite length_app, IH, Hm. lia.
Qed.

(** one step of the walk: the element under the iterator heads what is left *)
Lemma rest_step (R C NS : nat) (t : tensor3 T) (k off : nat) :
  wf_tensor3 R C NS t -> k < NS -> off < R * C ->
  exists x, nth k t [] !! off = Some x /\
    rest t k off = x ::
      (if (off + 1 =? R * C) && (k + 1 <? NS) then rest t (k + 1) 0
       else if off + 1 =? R * C then [] else rest t k (off + 1)).
Proof.
  intros Hwf Hk Hoff.
  destruct (wf_tensor3_slice R C NS t k Hwf Hk) as [Hslice Hlen].
  destruct (lookup_lt_is_Some_2 (nth k t []) off) as [x Hx]; [lia|].
  exists x. split; [exact Hx|]. unfold rest at 1.
  rewrite (drop_S _ _ _ Hx). cbn [app]. f_equal.
  destruct (off + 1 =? R * C) eqn:E.
  - apply Nat.eqb_eq in E. rewrite drop_ge by lia. cbn [app andb].
    destruct (k + 1 <? NS) eqn:Ek.
    + apply Nat.ltb_lt in Ek.
      destruct (wf_tensor3_slice R C NS t (k + 1) Hwf Ek) as [Hnext _].
      replace (S k) with (k + 1) by lia.
      rewrite (drop_S _ _ _ Hnext). unfold rest. now rewrite drop_0.
    + apply Nat.ltb_ge in Ek. destruct Hwf as [HS _].
      now rewrite drop_ge by lia.
  - cbn [andb]. unfold rest. now replace (off + 1) with (S off) by lia.
Qed.

Lemma tensor3_iterator_deref_at (R C k off : nat) (t : tensor3 T)
    (slice : matrix T) (x : T) :
  t !! k = Some slice -> slice !! off = Some x ->
  tensor3_iterator_deref t (it_at R C k off) = Ok x.
Proof.
  intros Hk Hoff. unfold tensor3_iterator_deref, it_at.
  cbn [_matrix_it fst snd]. rewrite Hk. cbn [mbind option_bind].
  now rewrite Hoff.
Qed.

Lemma tensor3_iterator_neq_at (R C k off : nat) (it_end : tensor3_iterator) :
  tensor3_iterator_neq (it_at R C k off) it_end
  = negb (bool_decide (_matrix_it it_end = (k, off))).
Proof. reflexivity. Qed.

Lemma tensor3_export_gen (R C NS : nat) (t : tensor3 T) (it_end : tensor3_iterator) :
  wf_tensor3 R C NS t -> 0 < NS ->
  _matrix_it it_end = slice_end R C (NS - 1) ->
  forall fuel k off d, k < NS -> off < R * C ->
    length (rest t k off) <= fuel ->
    tensor3_export_loop fuel R C NS t (it_at R C k off) it_end d
    = Ok (d ++ rest t k off).
Proof.
  intros Hwf HS Hend.
  induction fuel as [|fuel IH]; intros k off d Hk Hoff Hfuel.
  - destruct (rest_step R C NS t k off Hwf Hk Hoff) as (x & _ & Hrest).
    rewrite Hrest in Hfuel. cbn [length] in Hfuel. lia.
  - destruct (rest_step R C NS t k off Hwf Hk Hoff) as (x & Hx & Hrest).
    destruct (wf_tensor3_slice R C NS t k Hwf Hk) as [Hslice Hlen].
    cbn [tensor3_export_loop]. rewrite tensor3_iterator_neq_at, Hend.
    unfold slice_end.
    rewrite (bool_decide_eq_false_2 ((NS - 1, R * C) = (k, off)))
      by (intros [=]; lia).
    cbn [negb]. rewrite (tensor3_iterator_deref_at R C k off t _ x Hslice Hx).
    cbn [mbind result_bind].
    rewrite tensor3_iterator_incr_at by assumption.
    rewrite Hrest in Hfuel |- *. cbn [length] in Hfuel.
    destruct (off + 1 =? R * C) eqn:E; cbn [andb] in *.
    + apply Nat.eqb_eq in E. destruct (k + 1 <? NS) eqn:Ek.
      * apply Nat.ltb_lt in Ek. rewrite IH by lia.
        now rewrite <- app_assoc.
      * apply Nat.ltb_ge in Ek.
        destruct fuel; cbn [tensor3_export_loop];
          rewrite tensor3_iterator_neq_at, Hend; unfold slice_end;
          rewrite (bool_decide_eq_true_2 ((NS - 1, R * C) = (k, off + 1)))
            by (f_equal; lia); reflexivity.
    + apply Nat.eqb_neq in E. rewrite IH by lia. now rewrite <- app_assoc.
Qed.

Lemma rest_all (R C NS : nat) (t : tensor3 T) :
  wf_tensor3 R C NS t -> 0 < NS -> rest t 0 0 = concat t.
Proof.
  intros Hwf HS. destruct (wf_tensor3_slice R C NS t 0 Hwf HS) as [Hslice _].
  unfold rest. rewrite drop_0. destruct t as [|m t]; [discriminate|].
  reflexivity.
Qed.

Lemma tensor3_export_loop_spec (R C NS : nat) (t : tensor3 T) (d : list T) :
  wf_tensor3 R C NS t -> 0 < R * C -> 0 < NS ->
  exists it it_end,
    tensor3_iterator_new R C NS true = Ok it /\
    tensor3_iterator_new R C NS false = Ok it_end /\
    tensor3_export_loop (R * C * NS) R C NS t it it_end d = Ok (d ++ concat t).
Proof.
  intros Hwf HRC HS. unfold tensor3_iterator_new.
  rewrite (proj2 (Nat.ltb_lt 0 NS) HS).
  eexists. eexists. split; [reflexivity|]. split; [reflexivity|].
  change {| _matrix_it := slice_begin 0; _matrix_it_end := slice_end R C 0;
            _matrix_index := 0 |} with (it_at R C 0 0).
  rewrite (tensor3_export_gen R C NS t) by
    (try assumption; try reflexivity;
     rewrite (rest_all R C NS), (length_concat_wf R C NS) by assumption; lia).
  now rewrite (rest_all R C NS) by assumption.
Qed.

(** *** Writing through the iterator *)

Lemma concat_insert_slice (R C : nat) (t : tensor3 T) (k off : nat) (x : T) :
  Forall (wf_matrix R C) t -> k < length t -> off < R * C ->
  concat (<[k := <[off := x]> (nth k t [])]> t)
  = <[k * (R * C) + off := x]> (concat t).
Proof.
  intros Hslices. revert k.
  induction Hslices as [|m t Hm Hslices IH]; intros k Hk Hoff.
  - cbn [length] in Hk. lia.
  - unfold wf_matrix in Hm. destruct k as [|k].
    + cbn [nth concat]. change (<[0 := <[off := x]> m]> (m :: t))
        with (<[off := x]> m :: t).
      cbn [concat]. rewrite insert_app_l by lia. reflexivity.
    + cbn [nth]. change (<[S k := <[off := x]> (nth k t [])]> (m :: t))
        with (m :: <[k := <[off := x]> (nth k t [])]> t).
      cbn [concat]. cbn [length] in Hk. rewrite IH by lia.
      rewrite <- insert_app_r. f_equal. rewrite Hm. lia.
Qed.

Lemma take_S_insert (l : list T) (g : nat) (x : T) :
  g < length l -> take (S g) (<[g := x]> l) = take g l ++ [x].
Proof.
  intros Hg. rewrite (take_S_r _ _ x) by now apply list_lookup_insert_eq.
  now rewrite take_insert_ge by lia.
Qed.

Lemma tensor3_iterator_assign_at (R C NS k off : nat) (t : tensor3 T) (x : T) :
  wf_tensor3 R C NS t -> k < NS -> off < R * C ->
  exists t', tensor3_iterator_assign t (it_at R C k off) x = Ok t' /\
    wf_tensor3 R C NS t' /\
    concat t' = <[k * (R * C) + off := x]> (concat t).
Proof.
  intros Hwf Hk Hoff.
  destruct (wf_tensor3_slice R C NS t k Hwf Hk) as [Hslice Hlen].
  unfold tensor3_iterator_assign, it_at. cbn [_matrix_it fst snd].
  rewrite Hslice. rewrite (proj2 (Nat.ltb_lt _ _)) by lia.
  eexists. split; [reflexivity|]. destruct Hwf as [HS Hslices]. split.
  - split; [now rewrite length_insert|].
    apply Forall_insert; [assumption|].
    unfold wf_matrix. now rewrite length_insert.
  - apply (concat_insert_slice R C); [assumption|lia|assumption].
Qed.

Lemma tensor3_import_gen (R C NS : nat) (data_ : list T)
    (it_end : tensor3_iterator) :
  0 < NS -> _matrix_it it_end = slice_end R C (NS - 1) ->
  forall fuel k off t i, wf_tensor3 R C NS t -> k < NS -> off < R * C ->
    NS * (R * C) - (k * (R * C) + off) <= fuel ->
    i + (NS * (R * C) - (k * (R * C) + off)) <= length data_ ->
    exists t',
      tensor3_import_loop fuel R C NS data_ (it_at R C k off) it_end (t, i)
      = Ok (t', i + (NS * (R * C) - (k * (R * C) + off))) /\
      wf_tensor3 R C NS t' /\
      concat t' = take (k * (R * C) + off) (concat t) ++
                  take (NS * (R * C) - (k * (R * C) + off)) (drop i data_).
Proof.
  intros HS Hend.
  induction fuel as [|fuel IH]; intros k off t i Hwf Hk Hoff Hfuel Hdata;
    [nia|].
  assert (Hg : k * (R * C) + off < NS * (R * C)) by nia.
  destruct (lookup_lt_is_Some_2 data_ i) as [x Hx]; [lia|].
  destruct (tensor3_iterator_assign_at R C NS k off t x Hwf Hk Hoff)
    as (t1 & Hassign & Hwf1 & Hflat1).
  pose proof (length_concat_wf R C NS t Hwf) as Hlen.
  cbn [tensor3_import_loop]. rewrite tensor3_iterator_neq_at, Hend.
  unfold slice_end.
  rewrite (bool_decide_eq_false_2 ((NS - 1, R * C) = (k, off)))
    by (intros [=]; lia).
  cbn [negb fst snd]. rewrite (vector_at_Some _ _ _ Hx).
  cbn [mbind result_bind]. rewrite Hassign. cbn [mbind result_bind].
  rewrite tensor3_iterator_incr_at by assumption.
  assert (Hstep : forall n, 0 < n ->
    take (k * (R * C) + off) (concat t) ++ take n (drop i data_) =
    take (S (k * (R * C) + off)) (concat t1) ++
    take (n - 1) (drop (i + 1) data_)).
  { intros n Hn. rewrite Hflat1, take_S_insert by lia.
    rewrite (drop_S _ _ _ Hx). destruct n as [|n]; [lia|].
    cbn [take firstn]. rewrite <- app_assoc.
    replace (i + 1) with (S i) by lia.
    now replace (S n - 1) with n by lia. }
  destruct (off + 1 =? R * C) eqn:E; cbn [andb].
  - apply Nat.eqb_eq in E. destruct (k + 1 <? NS) eqn:Ek.
    + apply Nat.ltb_lt in Ek.
      destruct (IH (k + 1) 0 t1 (i + 1) Hwf1) as (t' & Hrun & Hwf' & Hflat);
        try nia.
      exists t'. split; [|split; [exact Hwf'|]].
      * rewrite Hrun. f_equal. f_equal. nia.
      * rewrite Hflat, (Hstep (NS * (R * C) - (k * (R * C) + off)) ltac:(lia)). f_equal; f_equal; nia.
    + apply Nat.ltb_ge in Ek. exists t1. split; [|split; [exact Hwf1|]].
      * destruct fuel; cbn [tensor3_import_loop];
          rewrite tensor3_iterator_neq_at, Hend; unfold slice_end;
          rewrite (bool_decide_eq_true_2 ((NS - 1, R * C) = (k, off + 1)))
            by (f_equal; lia); cbn [negb]; f_equal; f_equal; nia.
      * rewrite (Hstep (NS * (R * C) - (k * (R * C) + off)) ltac:(lia)).
        replace (NS * (R * C) - (k * (R * C) + off) - 1) with 0 by nia.
        rewrite take_0, app_nil_r. rewrite take_ge; [reflexivity|].
        rewrite (length_concat_wf R C NS t1 Hwf1). nia.
  - apply Nat.eqb_neq in E.
    destruct (IH k (off + 1) t1 (i + 1) Hwf1) as (t' & Hrun & Hwf' & Hflat);
      try nia.
    exists t'. split; [|split; [exact Hwf'|]].
    + rewrite Hrun. f_equal. f_equal. nia.
    + rewrite Hflat, (Hstep (NS * (R * C) - (k * (R * C) + off)) ltac:(lia)). f_equal; f_equal; nia.
Qed.

Lemma concat_wf_inj (R C NS : nat) (t1 t2 : tensor3 T) :
  wf_tensor3 R C NS t1 -> wf_tensor3 R C NS t2 ->
  concat t1 = concat t2 -> t1 = t2.
Proof.
  intros [Hl1 Hs1] [Hl2 Hs2]. subst NS. revert t2 Hl2 Hs2.
  induction Hs1 as [|m1 t1 Hm1 Hs1 IH]; intros [|m2 t2] Hl2 Hs2 Hflat;
    try discriminate; [reflexivity|].
  apply Forall_cons in Hs2 as [Hm2 Hs2]. cbn [concat] in Hflat.
  apply app_inj_1 in Hflat as [-> Hflat];
    [|unfold wf_matrix in *; congruence].
  f_equal. apply IH; auto.
Qed.

Lemma tensor3_import_loop_spec (R C NS : nat) (data_ : list T) (i : nat)
    (t : tensor3 T) :
  wf_tensor3 R C NS t -> 0 < R * C -> 0 < NS ->
  i + R * C * NS <= length data_ ->
  exists it it_end t',
    tensor3_iterator_new R C NS true = Ok it /\
    tensor3_iterator_new R C NS false = Ok it_end /\
    tensor3_import_loop (R * C * NS) R C NS data_ it it_end (t, i)
      = Ok (t', i + R * C * NS) /\
    wf_tensor3 R C NS t' /\
    concat t' = take (R * C * NS) (drop i data_).
Proof.
  intros Hwf HRC HS Hdata. unfold tensor3_iterator_new.
  rewrite (proj2 (Nat.ltb_lt 0 NS) HS).
  destruct (tensor3_import_gen R C NS data_
    {| _matrix_it := slice_end R C (NS - 1);
       _matrix_it_end := slice_begin (NS - 1);
       _matrix_index := NS - 1 |} HS eq_refl (R * C * NS) 0 0 t i Hwf)
    as (t' & Hrun & Hwf' & Hflat); try lia.
  exists (it_at R C 0 0). eexists. exists t'.
  split; [reflexivity|]. split; [reflexivity|].
  split; [|split; [exact Hwf'|]].
  - rewrite Hrun. f_equal. f_equal. lia.
  - rewrite Hflat. cbn [Nat.mul Nat.add]. rewrite take_0. cbn [app].
    f_equal. lia.
Qed.

Variables J1 J2 J3 I1 I2 I3 : nat.

Lemma length_exported (this : tucker3_tensor T) :
  wf_tucker3 J1 J2 J3 I1 I2 I3 this ->
  length (exported this) = I1 * J1 + I2 * J2 + I3 * J3 + J1 * J2 * J3.
Proof.
  intros (Hc & Hu1 & Hu2 & Hu3). unfold exported, wf_matrix in *.
  rewrite !length_app, (length_concat_wf J1 J2 J3) by assumption. lia.
Qed.

Lemma export_to_spec (this : tucker3_tensor T) (data_ : list T) :
  wf_tucker3 J1 J2 J3 I1 I2 I3 this -> 0 < J1 -> 0 < J2 -> 0 < J3 ->
  export_to J1 J2 J3 I1 I2 I3 this data_ = Ok (this, data_ ++ exported this).
Proof.
  intros (Hc & Hu1 & Hu2 & Hu3) HJ1 HJ2 HJ3. unfold export_to.
  rewrite (matrix_export_loop_spec I1 J1) by assumption.
  cbn [mbind result_bind].
  rewrite (matrix_export_loop_spec I2 J2) by assumption.
  cbn [mbind result_bind].
  rewrite (matrix_export_loop_spec I3 J3) by assumption.
  cbn [mbind result_bind].
  destruct (tensor3_export_loop_spec J1 J2 J3 (_core this)
              (((data_ ++ _u1 this) ++ _u2 this) ++ _u3 this) Hc)
    as (it & it_end & -> & -> & Hrun); [nia|lia|].
  cbn [mbind result_bind]. rewrite Hrun. cbn [mbind result_bind].
  unfold exported. now rewrite <- !app_assoc.
Qed.

Lemma import_from_spec (this : tucker3_tensor T) (data_ : list T) :
  wf_tucker3 J1 J2 J3 I1 I2 I3 this -> 0 < J1 -> 0 < J2 -> 0 < J3 ->
  I1 * J1 + I2 * J2 + I3 * J3 + J1 * J2 * J3 <= length data_ ->
  exists r, import_from J1 J2 J3 I1 I2 I3 this data_ = Ok r /\
    wf_tensor3 J1 J2 J3 (_core r) /\
    _u1 r = take (I1 * J1) data_ /\
    _u2 r = take (I2 * J2) (drop (I1 * J1) data_) /\
    _u3 r = take (I3 * J3) (drop (I1 * J1 + I2 * J2) data_) /\
    concat (_core r)
      = take (J1 * J2 * J3) (drop (I1 * J1 + I2 * J2 + I3 * J3) data_).
Proof.
  intros (Hc & Hu1 & Hu2 & Hu3) HJ1 HJ2 HJ3 Hlen. unfold import_from.
  rewrite (matrix_import_loop_spec I1 J1) by (try assumption; lia).
  cbn [mbind result_bind].
  rewrite (matrix_import_loop_spec I2 J2) by (try assumption; lia).
  cbn [mbind result_bind].
  rewrite (matrix_import_loop_spec I3 J3) by (try assumption; lia).
  cbn [mbind result_bind].
  destruct (tensor3_import_loop_spec J1 J2 J3 data_
              (0 + I1 * J1 + I2 * J2 + I3 * J3) (_core this) Hc)
    as (it & it_end & t' & -> & -> & Hrun & Hwf' & Hflat); [nia|lia|lia|].
  cbn [mbind result_bind]. rewrite Hrun. cbn [mbind result_bind].
  eexists. split; [reflexivity|]. cbn [_core _u1 _u2 _u3].
  rewrite drop_0. repeat split; try apply Hwf'; try reflexivity.
  exact Hflat.
Qed.

(** C10.  [export_to] appends to the vector it is given: the vector keeps
    its contents and gains, after them, the I1*J1 + I2*J2 + I3*J3 + J1*J2*J3
    exported elements; the model is unchanged. *)
Theorem export_to_appends (this : tucker3_tensor T) (data_ : list T) :
  wf_tucker3 J1 J2 J3 I1 I2 I3 this -> 0 < J1 -> 0 < J2 -> 0 < J3 ->
  exists this' data' appended,
    export_to J1 J2 J3 I1 I2 I3 this data_ = Ok (this', data') /\
    this' = this /\
    data' = data_ ++ appended /\
    appended = exported this /\
    length appended = I1 * J1 + I2 * J2 + I3 * J3 + J1 * J2 * J3.
Proof.
  intros Hwf HJ1 HJ2 HJ3.
  exists this, (data_ ++ exported this), (exported this).
  split; [now apply export_to_spec|]. repeat split.
  now apply length_exported.
Qed.

(** C5.  [export_to] on an empty vector yields the elements of basis 1, then
    of basis 2, then of basis 3, then of the core (its frontal slices in
    turn), each array in its own order; and [import_from], run on a model of
    the same extents whatever its contents, gives back the exported model:
    the same core and the same three bases. *)
Theorem export_import_round_trip (this fresh : tucker3_tensor T) :
  wf_tucker3 J1 J2 J3 I1 I2 I3 this ->
  wf_tucker3 J1 J2 J3 I1 I2 I3 fresh ->
  0 < J1 -> 0 < J2 -> 0 < J3 ->
  exists data_,
    export_to J1 J2 J3 I1 I2 I3 this [] = Ok (this, data_) /\
    data_ = _u1 this ++ _u2 this ++ _u3 this ++ concat (_core this) /\
    import_from J1 J2 J3 I1 I2 I3 fresh data_ = Ok this.
Proof.
  intros Hwf Hfresh HJ1 HJ2 HJ3. exists (exported this).
  split; [exact (export_to_spec this [] Hwf HJ1 HJ2 HJ3)|].
  split; [reflexivity|].
  destruct (import_from_spec fresh (exported this) Hfresh HJ1 HJ2 HJ3)
    as (r & Hrun & Hwfr & Hr1 & Hr2 & Hr3 & Hrc).
  { now rewrite (length_exported this Hwf). }
  rewrite Hrun. f_equal.
  destruct Hwf as (Hc & Hu1 & Hu2 & Hu3). unfold wf_matrix in *.
  unfold exported in *.
  rewrite take_app_length' in Hr1 by lia.
  rewrite drop_app_length', take_app_length' in Hr2 by lia.
  rewrite (app_assoc (_u1 this)) in Hr3, Hrc.
  rewrite drop_app_length', take_app_length' in Hr3
    by (rewrite ?length_app; lia).
  rewrite (app_assoc (_u1 this ++ _u2 this)) in Hrc.
  rewrite drop_app_length' in Hrc by (rewrite ?length_app; lia).
  rewrite take_ge in Hrc
    by (rewrite (length_concat_wf J1 J2 J3) by assumption; lia).
  apply (concat_wf_inj J1 J2 J3) in Hrc; try assumption.
  destruct r, this. cbn [_core _u1 _u2 _u3] in *. congruence.
Qed.

End export_import_properties.

(** ** Zero arrays *)

Section zero_properties.
Context {T : Type} `{Scalar T}.

Lemma tensor3_at_zero (R C NS i j s : nat) :
  tensor3_at R (tensor3_zero R C NS) i j s = T0.
Proof.
  unfold tensor3_at, tensor3_zero.
  destruct (Nat.lt_ge_cases s NS) as [Hlt|Hge].
  - rewrite (nth_lookup_Some _ _ _ (matrix_zero R C))
      by now apply lookup_replicate_2.
    apply matrix_at_zero.
  - rewrite nth_overflow by now rewrite length_replicate.
    unfold matrix_at. now destruct (j * R + i).
Qed.

Lemma tensor3_at_Forall (P : T -> Prop) (R : nat) (t : tensor3 T) (i j s : nat) :
  P T0 -> Forall (Forall P) t -> P (tensor3_at R t i j s).
Proof.
  intros H0 Ht. unfold tensor3_at, matrix_at.
  destruct (nth_lookup_or_length t s []) as [Hs|Hs].
  - pose proof (proj1 (Forall_lookup _ _) Ht _ _ Hs) as Hslice.
    destruct (nth_lookup_or_length (nth s t []) (j * R + i) T0) as [Hx|Hx].
    + exact (proj1 (Forall_lookup _ _) Hslice _ _ Hx).
    + now rewrite nth_overflow.
  - rewrite (nth_overflow t) by assumption. now destruct (j * R + i).
Qed.

Lemma sum_upto_zero (n : nat) : Tadd T0 T0 = T0 -> sum_upto n (fun _ => T0) = T0.
Proof.
  intros Hadd. unfold sum_upto. generalize 0.
  induction n as [|n IH]; intros start; simpl; [reflexivity|].
  rewrite Hadd. apply IH.
Qed.

Lemma mk_tensor3_zero (R C NS : nat) (f : nat -> nat -> nat -> T) :
  (forall i j s, f i j s = T0) -> mk_tensor3 R C NS f = tensor3_zero R C NS.
Proof.
  intros Hf. rewrite (mk_tensor3_ext R C NS f (fun _ _ _ => T0))
    by (intros; apply Hf).
  apply mk_tensor3_const.
Qed.

Lemma transpose_zero (M N : nat) : transpose M N (matrix_zero M N) = matrix_zero N M.
Proof.
  unfold transpose.
  rewrite (mk_matrix_ext N M _ (fun _ _ => T0))
    by (intros; apply matrix_at_zero).
  apply mk_matrix_const.
Qed.

(** an n-mode product with the zero matrix is the zero array, as soon as
    [T( 0 ) * x] is [T( 0 )] for the entries [x] of the argument *)
Lemma multiply_lateral_zero (R K C NS : nat) (t : tensor3 T) :
  Tadd T0 T0 = T0 -> (forall k j s, Tmul T0 (tensor3_at K t k j s) = T0) ->
  multiply_lateral R K C NS t (matrix_zero R K) = tensor3_zero R C NS.
Proof.
  intros Hadd Hmul. apply mk_tensor3_zero. intros i j s.
  rewrite (sum_upto_ext K _ (fun _ => T0)); [now apply sum_upto_zero|].
  intros k _. now rewrite matrix_at_zero.
Qed.

Lemma multiply_frontal_zero (R C K NS : nat) (t : tensor3 T) :
  Tadd T0 T0 = T0 -> (forall i k s, Tmul T0 (tensor3_at R t i k s) = T0) ->
  multiply_frontal R C K NS t (matrix_zero C K) = tensor3_zero R C NS.
Proof.
  intros Hadd Hmul. apply mk_tensor3_zero. intros i j s.
  rewrite (sum_upto_ext K _ (fun _ => T0)); [now apply sum_upto_zero|].
  intros k _. now rewrite matrix_at_zero.
Qed.

Lemma multiply_horizontal_zero (R C NS K : nat) (t : tensor3 T) :
  Tadd T0 T0 = T0 -> (forall i j k, Tmul T0 (tensor3_at R t i j k) = T0) ->
  multiply_horizontal R C NS K t (matrix_zero NS K) = tensor3_zero R C NS.
Proof.
  intros Hadd Hmul. apply mk_tensor3_zero. intros i j s.
  rewrite (sum_upto_ext K _ (fun _ => T0)); [now apply sum_upto_zero|].
  intros k _. now rewrite matrix_at_zero.
Qed.

Lemma full_multiplication_zero (R C NS K1 K2 K3 : nat) (t : tensor3 T) :
  Tadd T0 T0 = T0 -> Tmul T0 T0 = T0 ->
  Forall (Forall (fun x => Tmul T0 x = T0)) t ->
  full_tensor3_matrix_multiplication R C NS K1 K2 K3 t
    (matrix_zero R K1) (matrix_zero C K2) (matrix_zero NS K3)
  = tensor3_zero R C NS.
Proof.
  intros Hadd Hmul Ht. unfold full_tensor3_matrix_multiplication.
  rewrite multiply_lateral_zero; [|assumption|].
  - rewrite multiply_frontal_zero; [|assumption|].
    + apply multiply_horizontal_zero; [assumption|].
      intros. now rewrite tensor3_at_zero.
    + intros. now rewrite tensor3_at_zero.
  - intros. now apply (tensor3_at_Forall (fun x => Tmul T0 x = T0)).
Qed.

Lemma Forall_tensor3_zero (P : T -> Prop) (R C NS : nat) :
  P T0 -> Forall (Forall P) (tensor3_zero R C NS).
Proof.
  intros H0. unfold tensor3_zero, matrix_zero.
  apply Forall_replicate. now apply Forall_replicate.
Qed.

End zero_properties.

Section degenerate_input.
Context {T : Type} `{Scalar T} `{Collaborators T}.
Variables J1 J2 J3 I1 I2 I3 : nat.

(** with entries [x] such that [T( 0 ) * x] is [T( 0 )], a core multiplied
    by zero bases is the zero array *)
Lemma reconstruction_zero_bases (core : tensor3 T) :
  Tadd T0 T0 = T0 -> Tmul T0 T0 = T0 ->
  Forall (Forall (fun x => Tmul T0 x = T0)) core ->
  reconstruction J1 J2 J3 I1 I2 I3
    {| _core := core; _u1 := matrix_zero I1 J1; _u2 := matrix_zero I2 J2;
       _u3 := matrix_zero I3 J3 |}
  = tensor3_zero I1 I2 I3.
Proof.
  intros Hadd Hmul Hcore. unfold reconstruction. cbn [_core _u1 _u2 _u3].
  now apply full_multiplication_zero.
Qed.


End degenerate_input.

(** ** The asserts of the cross-model transforms *)

(** the asserts pass exactly when the first target extent is at most each of
    the three source extents *)
Lemma assert_extents_spec (I1 K1 K2 K3 : nat) :
  assert_extents I1 K1 K2 K3 = Ok tt <-> I1 <= K1 /\ I1 <= K2 /\ I1 <= K3.
Proof.
  unfold assert_extents, assert.
  destruct (I1 <=? K1) eqn:E1, (I1 <=? K2) eqn:E2, (I1 <=? K3) eqn:E3;
    cbn [mbind result_bind];
    rewrite ?Nat.leb_le, ?Nat.leb_gt in *;
    split; try discriminate; try reflexivity; lia.
Qed.

(** ** The examples on binary64 floats *)

Section examples.
Import Binary64.

Lemma double_neq_1_0 : 1%float <> 0%float.
Proof.
  intros Heq. apply (f_equal (fun x => PrimFloat.eqb x 0%float)) in Heq.
  vm_compute in Heq. discriminate.
Qed.

(** C9.  What [decomposition] returns does not depend on the bases the
    model holds before the call: two models with the same core give the same
    result on every input, with every collaborator.  It does depend on the
    core held before the call, through the improvement [hoii] starts from,
    which is the norm of the input minus the norm of that core multiplied by
    the fresh HOSVD bases: on the array [data222], two models that differ in
    their core only (0 and 7) are decomposed to different results, here with
    different first bases. *)
Theorem decomposition_reads_core_not_bases :
  (forall (T : Type) (HS : Scalar T) (HC : Collaborators T)
      (J1 J2 J3 I1 I2 I3 : nat) (core : tensor3 T)
      (u1 u2 u3 u1' u2' u3' : matrix T) (data_ : tensor3 T),
      decomposition J1 J2 J3 I1 I2 I3
        {| _core := core; _u1 := u1; _u2 := u2; _u3 := u3 |} data_
      = decomposition J1 J2 J3 I1 I2 I3
        {| _core := core; _u1 := u1'; _u2 := u2'; _u3 := u3' |} data_) /\
  (forall (T : Type) (HS : Scalar T) (HC : Collaborators T)
      (J1 J2 J3 I1 I2 I3 : nat) (this : tucker3_tensor T) (data_ : tensor3 T),
      st_improvement (hoii_init J1 J2 J3 I1 I2 I3 this data_)
      = PrimFloat.sub (frobenius_norm data_)
          (frobenius_norm
             (full_tensor3_matrix_multiplication I1 I2 I3 J1 J2 J3
                (_core this) (hosvd_mode1 J1 I1 I2 I3 data_)
                (hosvd_mode2 J2 I1 I2 I3 data_)
                (hosvd_mode3 J3 I1 I2 I3 data_)))) /\
  (exists a b,
      _u1 model_core0 = _u1 model_core7 /\
      _u2 model_core0 = _u2 model_core7 /\
      _u3 model_core0 = _u3 model_core7 /\
      decomposition 1 1 1 2 2 2 model_core0 data222 = Ok a /\
      decomposition 1 1 1 2 2 2 model_core7 data222 = Ok b /\
      _u1 a = [1; 0]%float /\ _u1 b = [0; 1]%float /\
      _core a = [[4%float]] /\ _core b = [[0%float]] /\
      a <> b).
Proof.
  split; [|split].
  - intros. reflexivity.
  - intros. reflexivity.
  - eexists. eexists.
    split; [reflexivity|]. split; [reflexivity|]. split; [reflexivity|].
    split; [vm_compute; reflexivity|]. split; [vm_compute; reflexivity|].
    cbn [_u1 _core].
    split; [reflexivity|]. split; [reflexivity|].
    split; [reflexivity|]. split; [reflexivity|].
    intros Heq. apply (f_equal (fun m => hd 0%float (_u1 m))) in Heq.
    cbn in Heq. now apply double_neq_1_0.
Qed.

(** C3, on a source whose three bases have the rows [1] and [3], at factor
    2: [subsampling_on_average] returns with the core of the source and, in
    row 0 of the first basis, the average [2] of the block; in row 0 of the
    second and of the third basis it leaves the first row [1] of the block,
    not its average [2]. *)
Theorem subsampling_on_average_modes_2_3 :
  subsampling_on_average 1 1 1 1 1 1 2 2 2 target111 source222 2
  = Ok {| _core := [[9%float]]; _u1 := [2%float]; _u2 := [1%float];
          _u3 := [1%float] |} /\
  block_average 2 1 (_u1 source222) 2 0 = [2%float] /\
  block_average 2 1 (_u2 source222) 2 0 = [2%float] /\
  block_average 2 1 (_u3 source222) 2 0 = [2%float] /\
  get_row 2 1 (_u2 source222) 0 = Ok [1%float] /\
  get_row 2 1 (_u3 source222) 0 = Ok [1%float].
Proof. vm_compute. repeat split. Qed.

(** C7, on a target of extents (1, 3, 1) and a source of extents (2, 2, 2):
    the second target extent 3 exceeds the second source extent 2, and all
    three transforms pass their asserts and return; the asserts compare the
    first target extent with each source extent.  Conversely, on extents
    (2, 1, 1) for both, where no target extent exceeds its source extent,
    [subsampling] fails its second assert. *)
Theorem extent_asserts_compare_I1_only :
  (3 <=? 2) = false /\
  assert_extents 1 2 2 2 = Ok tt /\
  subsampling 1 1 1 1 3 1 2 2 2 target131 source222 2
  = Ok {| _core := [[9%float]]; _u1 := [1%float];
          _u2 := [1; 0; 0]%float; _u3 := [1%float] |} /\
  subsampling_on_average 1 1 1 1 3 1 2 2 2 target131 source222 2
  = Ok {| _core := [[9%float]]; _u1 := [2%float];
          _u2 := [1; 0; 0]%float; _u3 := [1%float] |} /\
  region_of_interest 1 1 1 1 3 1 2 2 2 target131 source222 0 1 0 1 0 1
  = Ok {| _core := [[9%float]]; _u1 := [1%float];
          _u2 := [1; 0; 0]%float; _u3 := [1%float] |} /\
  subsampling 1 1 1 2 1 1 2 1 1 target211 source211 1
  = Fail assertion_failed.
Proof. vm_compute. repeat split. Qed.

(** *** The theorems with hypotheses, at concrete inputs *)

Lemma hosvd_mode_fallback_witness :
  hosvd_mode1 1 2 2 2 data222 = take (2 * 1) [0; 1; 0; 0; 0; 0; 0; 0]%float /\
  hosvd_mode1 1 2 2 2 (tensor3_zero 2 2 2) = matrix_zero 2 1.
Proof.
  pose proof (hosvd_mode_fallback 1 1 1 2 2 2 data222)
    as (_ & _ & _ & H1 & _).
  pose proof (hosvd_mode_fallback 1 1 1 2 2 2 (tensor3_zero 2 2 2))
    as (Hz & _).
  split.
  - exact (proj2 (H1 eq_refl) eq_refl ltac:(cbn; lia)).
  - exact (Hz eq_refl).
Defined.

Lemma reduce_ranks_exact_witness :
  wf_tucker3 1 1 1 1 1 1 target111 /\
  wf_tucker3 2 2 2 1 1 1 source_rank2 /\
  exists r,
    reduce_ranks 1 1 1 1 1 1 2 2 2 target111 source_rank2 = Ok r /\
    _u1 r = take (1 * 1) (_u1 source_rank2) /\
    tensor3_at 1 (_core r) 0 0 0 = tensor3_at 2 (_core source_rank2) 0 0 0.
Proof.
  assert (Hthis : wf_tucker3 1 1 1 1 1 1 target111) by wf_example.
  assert (Hother : wf_tucker3 2 2 2 1 1 1 source_rank2) by wf_example.
  split; [exact Hthis|]. split; [exact Hother|].
  destruct (reduce_ranks_exact 1 1 1 1 1 1 2 2 2 target111 source_rank2
    ltac:(lia) ltac:(lia) ltac:(lia) Hthis Hother)
    as (r & Hrun & _ & Hu1 & _ & _ & _ & _ & _ & Hcore).
  exists r. split; [exact Hrun|]. split; [exact Hu1|].
  apply Hcore; lia.
Defined.

Lemma export_to_appends_witness :
  wf_tucker3 2 2 2 1 1 1 source_rank2 /\
  exists appended,
    export_to 2 2 2 1 1 1 source_rank2 [42%float]
    = Ok (source_rank2, [42%float] ++ appended) /\
    length appended = 1 * 2 + 1 * 2 + 1 * 2 + 2 * 2 * 2.
Proof.
  assert (Hthis : wf_tucker3 2 2 2 1 1 1 source_rank2) by wf_example.
  split; [exact Hthis|].
  destruct (export_to_appends 2 2 2 1 1 1 source_rank2 [42%float] Hthis
    ltac:(lia) ltac:(lia) ltac:(lia))
    as (this' & data' & appended & Hrun & -> & -> & _ & Hlen).
  exists appended. split; [exact Hrun|exact Hlen].
Defined.

Lemma export_import_round_trip_witness :
  wf_tucker3 2 2 2 1 1 1 source_rank2 /\
  wf_tucker3 2 2 2 1 1 1 fresh_rank2 /\
  exists data_,
    export_to 2 2 2 1 1 1 source_rank2 [] = Ok (source_rank2, data_) /\
    import_from 2 2 2 1 1 1 fresh_rank2 data_ = Ok source_rank2.
Proof.
  assert (Hthis : wf_tucker3 2 2 2 1 1 1 source_rank2) by wf_example.
  assert (Hfresh : wf_tucker3 2 2 2 1 1 1 fresh_rank2) by wf_example.
  split; [exact Hthis|]. split; [exact Hfresh|].
  destruct (export_import_round_trip 2 2 2 1 1 1 source_rank2 fresh_rank2
    Hthis Hfresh ltac:(lia) ltac:(lia) ltac:(lia))
    as (data_ & Hexport & _ & Himport).
  exists data_. split; [exact Hexport|exact Himport].
Defined.



Lemma decomposition_final_core_witness :
  exists d,
    decomposition 1 1 1 2 2 2 model_core0 data222 = Ok d /\
    tensor3_at 1 (_core d) 0 0 0 =
      sum_upto 2 (fun i3 => Tmul (matrix_at 2 (_u3 d) i3 0)
        (sum_upto 2 (fun i2 => Tmul (matrix_at 2 (_u2 d) i2 0)
          (sum_upto 2 (fun i1 => Tmul (matrix_at 2 (_u1 d) i1 0)
            (tensor3_at 2 data222 i1 i2 i3)))))).
Proof.
  destruct (decomposition_final_core 1 1 1 2 2 2 model_core0 data222)
    as (h & d & _ & Hrun & _ & _ & _ & _ & _ & Hat).
  exists d. split; [exact Hrun|]. apply Hat; lia.
Defined.

Lemma hoii_terminates_within_cap_witness :
  exists n this',
    n <= 3 /\
    hoii_guard (Nat.iter n (hoii_body 1 1 1 2 2 2 data222)
                  (hoii_init 1 1 1 2 2 2 model_core0 data222)) = false /\
    hoii 1 1 1 2 2 2 model_core0 data222 = Ok this'.
Proof.
  destruct (hoii_terminates_within_cap 1 1 1 2 2 2 model_core0 data222)
    as (n & Hn & _ & Hend & _ & _ & _ & this' & Hrun).
  exists n, this'. split; [exact Hn|]. split; [exact Hend|exact Hrun].
Defined.

End examples.

(** * Further properties *)

(** ** Rows of a matrix *)

Section row_properties.
Context {T : Type} `{Scalar T}.

Lemma set_row_fold (M N : nat) (m : matrix T) (r : nat) (row : vector T) (n : nat) :
  r < M -> n <= N -> wf_matrix M N m ->
  let m' := fold_left (fun a c => <[c * M + r := nth c row T0]> a) (seq 0 n) m in
  length m' = length m /\
  (forall c, c < n -> nth (c * M + r) m' T0 = nth c row T0) /\
  (forall k, (forall c, c < n -> k <> c * M + r) -> nth k m' T0 = nth k m T0).
Proof.
  unfold wf_matrix. intros Hr Hn Hm. induction n as [|n IH].
  - cbn. repeat split; intros; try lia; reflexivity.
  - rewrite seq_S, fold_left_app. cbn [fold_left Nat.add].
    destruct IH as (Hlen & Hnew & Hold); [lia|].
    split; [now rewrite length_insert|]. split.
    + intros c Hc. rewrite nth_insert. case_bool_decide as Hk.
      * destruct Hk as [Hk _]. assert (c = n) by nia. now subst c.
      * apply Hnew. assert (c <> n); [|lia].
        intros ->. apply Hk. split; [reflexivity|]. rewrite Hlen. nia.
    + intros k Hk. rewrite nth_insert. case_bool_decide as Hkn.
      * destruct Hkn as [-> _]. exfalso. apply (Hk n); [lia|reflexivity].
      * apply Hold. intros c Hc. apply Hk. lia.
Qed.

Lemma set_row_spec (M N : nat) (m : matrix T) (r : nat) (row : vector T) :
  wf_matrix M N m -> r < M ->
  exists m', set_row M N m r row = Ok m' /\
    wf_matrix M N m' /\
    (forall c, c < N -> matrix_at M m' r c = nth c row T0) /\
    (forall r' c, r' < M -> r' <> r -> matrix_at M m' r' c = matrix_at M m r' c).
Proof.
  intros Hm Hr. unfold set_row. rewrite (proj2 (Nat.ltb_lt r M) Hr).
  eexists. split; [reflexivity|].
  destruct (set_row_fold M N m r row N Hr (Nat.le_refl N) Hm)
    as (Hlen & Hnew & Hold).
  split; [|split].
  - unfold wf_matrix in *. now rewrite Hlen.
  - intros c Hc. unfold matrix_at. now apply Hnew.
  - intros r' c Hr' Hne. unfold matrix_at. apply Hold.
    intros c' _ Heq. apply Hne. 
    assert (c = c') by nia. subst c'. lia.
Qed.

Lemma set_row_out_of_bounds (M N : nat) (m : matrix T) (r : nat) (row : vector T) :
  M <= r -> set_row M N m r row = Fail index_out_of_bounds.
Proof.
  intros Hr. unfold set_row. now rewrite (proj2 (Nat.ltb_ge r M) Hr).
Qed.

Lemma get_row_in_bounds (M N : nat) (m : matrix T) (r : nat) :
  r < M -> get_row M N m r = Ok (map (fun c => matrix_at M m r c) (seq 0 N)).
Proof. intros Hr. unfold get_row. now rewrite (proj2 (Nat.ltb_lt r M) Hr). Qed.

(** the row read after a row was written *)
Lemma get_row_set_row (M N : nat) (m m' : matrix T) (r : nat) (row : vector T) :
  wf_matrix M N m -> r < M -> length row = N ->
  set_row M N m r row = Ok m' -> get_row M N m' r = Ok row.
Proof.
  intros Hm Hr Hrow Hset.
  destruct (set_row_spec M N m r row Hm Hr) as (m'' & Hset' & _ & Hnew & _).
  rewrite Hset in Hset'. injection Hset' as <-.
  rewrite get_row_in_bounds by assumption. f_equal.
  apply (nth_ext _ _ T0 T0).
  - now rewrite length_map, length_seq.
  - rewrite length_map, length_seq. intros c Hc.
    rewrite (nth_indep _ T0 (matrix_at M m' r 0))
      by (rewrite length_map, length_seq; lia).
    rewrite (map_nth (fun c0 => matrix_at M m' r c0) (seq 0 N) 0 c).
    rewrite seq_nth by lia. now apply Hnew.
Qed.

(** two rows with the same entries *)
Lemma get_row_ext (M M' N : nat) (m m' : matrix T) (r r' : nat) :
  r < M -> r' < M' ->
  (forall c, c < N -> matrix_at M m r c = matrix_at M' m' r' c) ->
  get_row M N m r = get_row M' N m' r'.
Proof.
  intros Hr Hr' Heq. rewrite !get_row_in_bounds by assumption. f_equal.
  apply map_ext_in. intros c Hc%in_seq. apply Heq. lia.
Qed.

End row_properties.

(** ** Subsampling *)

Section subsampling_properties.
Context {T : Type} `{Scalar T}.

(** loops whose bodies agree on the rows they are run on end alike *)
Lemma subsampling_loop_ext (K factor : nat)
    (body body' : nat -> nat -> matrix T -> result (matrix T)) :
  (forall i1 i u, i1 < K -> body i1 i u = body' i1 i u) ->
  forall fuel i1 i u,
    subsampling_loop fuel K factor body i1 i u
    = subsampling_loop fuel K factor body' i1 i u.
Proof.
  intros Hbody. induction fuel as [|fuel IH]; intros i1 i u;
    cbn [subsampling_loop]; destruct (i1 <? K) eqn:E; try reflexivity.
  apply Nat.ltb_lt in E. rewrite Hbody by assumption.
  destruct (body' i1 i u); cbn [mbind result_bind]; [apply IH|reflexivity].
Qed.

(** a loop that writes the row [g i1] into row [i] of a target of I rows, on
    a source of K rows with K <= I * factor *)
Lemma subsampling_loop_rows (I J K factor : nat) (g : nat -> vector T)
    (body : nat -> nat -> matrix T -> result (matrix T)) :
  K <= I * factor ->
  (forall i1 i u, i1 < K -> body i1 i u = set_row I J u i (g i1)) ->
  forall fuel i u, wf_matrix I J u -> I + 1 <= fuel + i ->
    exists u', subsampling_loop fuel K factor body (i * factor) i u = Ok u' /\
      wf_matrix I J u' /\
      (forall i' c, i <= i' -> i' * factor < K -> c < J ->
         matrix_at I u' i' c = nth c (g (i' * factor)) T0) /\
      (forall i' c, i' < I -> i' < i \/ K <= i' * factor ->
         matrix_at I u' i' c = matrix_at I u i' c).
Proof.
  intros HK Hbody. induction fuel as [|fuel IH]; intros i u Hu Hfuel;
    cbn [subsampling_loop]; destruct (i * factor <? K) eqn:E.
  - apply Nat.ltb_lt in E. nia.
  - apply Nat.ltb_ge in E. exists u. split; [reflexivity|].
    split; [assumption|]. split; [|reflexivity].
    intros i' c Hi' Hlt. nia.
  - apply Nat.ltb_lt in E. assert (Hi : i < I) by nia.
    rewrite Hbody by assumption.
    destruct (set_row_spec I J u i (g (i * factor)) Hu Hi)
      as (u1 & -> & Hu1 & Hnew & Hold).
    cbn [mbind result_bind].
    replace (i * factor + factor) with ((i + 1) * factor) by lia.
    destruct (IH (i + 1) u1 Hu1) as (u' & Hrun & Hu' & Hrows & Hframe); [lia|].
    exists u'. split; [exact Hrun|]. split; [exact Hu'|]. split.
    + intros i' c Hi' Hlt Hc. destruct (decide (i' = i)) as [->|Hne].
      * rewrite Hframe by (try lia; nia). now apply Hnew.
      * apply Hrows; lia.
    + intros i' c Hi' Hcase. rewrite Hframe by (try assumption; lia).
      apply Hold; [assumption|]. intros ->. nia.
  - apply Nat.ltb_ge in E. exists u. split; [reflexivity|].
    split; [assumption|]. split; [|reflexivity].
    intros i' c Hi' Hlt. nia.
Qed.

(** the loop leaves the target when the source has more than I * factor rows:
    it does not return *)
Lemma subsampling_loop_overflow (I J K factor : nat)
    (body : nat -> nat -> matrix T -> result (matrix T)) :
  I * factor < K ->
  (forall i1 i u, i1 < K -> exists row, body i1 i u = set_row I J u i row) ->
  forall fuel i u, wf_matrix I J u -> i <= I -> I + 1 <= fuel + i ->
    subsampling_loop fuel K factor body (i * factor) i u
    = Fail index_out_of_bounds.
Proof.
  intros HK Hbody. induction fuel as [|fuel IH]; intros i u Hu Hi Hfuel;
    [lia|].
  cbn [subsampling_loop].
  assert (E : i * factor < K) by nia.
  rewrite (proj2 (Nat.ltb_lt _ _) E).
  destruct (Hbody (i * factor) i u E) as (row & ->).
  destruct (decide (i = I)) as [->|Hne].
  - now rewrite set_row_out_of_bounds by lia.
  - destruct (set_row_spec I J u i row Hu) as (u1 & -> & Hu1 & _); [lia|].
    cbn [mbind result_bind].
    replace (i * factor + factor) with ((i + 1) * factor) by lia.
    apply IH; [assumption|lia|lia].
Qed.

Lemma length_row_of (K N : nat) (u : matrix T) (r : nat) :
  length (row_of K N u r) = N.
Proof. unfold row_of. now rewrite length_map, length_seq. Qed.

Lemma nth_row_of (K N : nat) (u : matrix T) (r c : nat) :
  c < N -> nth c (row_of K N u r) T0 = matrix_at K u r c.
Proof. intros Hc. unfold row_of. now rewrite nth_map_seq. Qed.

(** the body of the loops of [subsampling] *)
Lemma subsampling_body (I J K : nat) (src u : matrix T) (i1 i : nat) :
  i1 < K ->
  (row ← get_row K J src i1; set_row I J u i row)
  = set_row I J u i (row_of K J src i1).
Proof. intros Hi1. now rewrite get_row_in_bounds by assumption. Qed.

(** one basis of [subsampling] *)
Lemma subsampling_basis (I J K factor : nat) (src u : matrix T) :
  K <= I * factor -> wf_matrix I J u ->
  exists u',
    subsampling_loop (S I) K factor
      (fun i1 i a => row ← get_row K J src i1; set_row I J a i row) 0 0 u
    = Ok u' /\
    wf_matrix I J u' /\
    (forall i, i * factor < K ->
       get_row I J u' i = get_row K J src (i * factor)) /\
    (forall i, i < I -> K <= i * factor -> get_row I J u' i = get_row I J u i).
Proof.
  intros HK Hu.
  destruct (subsampling_loop_rows I J K factor (row_of K J src)
    (fun i1 i a => row ← get_row K J src i1; set_row I J a i row) HK
    (fun i1 i a Hi1 => subsampling_body I J K src a i1 i Hi1)
    (S I) 0 u Hu ltac:(lia)) as (u' & Hrun & Hu' & Hrows & Hframe).
  exists u'. split; [exact Hrun|]. split; [exact Hu'|]. split.
  - intros i Hi. apply get_row_ext; [nia|assumption|].
    intros c Hc. rewrite Hrows by (try assumption; lia).
    now apply nth_row_of.
  - intros i Hi HKi. apply get_row_ext; try assumption.
    intros c Hc. apply Hframe; [assumption|now right].
Qed.

(** the inner loop of [subsampling_on_average] adds the rows it walks over
    and counts them *)
Lemma average_loop_gen (K N : nat) (u : matrix T) (cnt lo : nat)
    (acc : vector T * T) :
  lo + cnt <= K ->
  for_loop lo cnt
    (fun j a => row ← get_row K N u j; Ok (vector_add a.1 row, Tadd a.2 T1))
    acc
  = Ok (fold_left vector_add (map (row_of K N u) (seq lo cnt)) acc.1,
        fold_left (fun a _ => Tadd a T1) (map (row_of K N u) (seq lo cnt)) acc.2).
Proof.
  revert lo acc. induction cnt as [|cnt IH]; intros lo acc Hlo.
  - cbn. now destruct acc.
  - cbn [for_loop]. rewrite get_row_in_bounds by lia.
    cbn [mbind result_bind]. rewrite IH by lia. reflexivity.
Qed.

Lemma average_loop_spec (K N : nat) (u : matrix T) (factor i1 : nat) :
  i1 < K ->
  exists acc,
    average_loop K N u factor i1 (row_of K N u i1, T1) = Ok acc /\
    vector_div acc.1 acc.2 = average_row K N u factor i1.
Proof.
  intros Hi1. unfold average_loop. rewrite average_loop_gen by lia.
  eexists. split; reflexivity.
Qed.

Lemma average_row_block (K N : nat) (u : matrix T) (factor i : nat) :
  0 < factor -> i * factor < K ->
  average_row K N u factor (i * factor) = block_average K N u factor i.
Proof.
  intros Hf Hi. unfold average_row, block_average.
  assert (Hn : Nat.min factor (K - i * factor)
               = S (Nat.min (factor + i * factor) K - (i * factor + 1))) by lia.
  rewrite Hn. cbn [seq map hd tail]. fold (row_of K N u).
  now replace (S (i * factor)) with (i * factor + 1) by lia.
Qed.

(** the bodies of the three loops of [subsampling_on_average] *)
Lemma average_body_1 (I J K factor : nat) (src u : matrix T) (i1 i : nat) :
  i1 < K ->
  (tmp_row ← get_row K J src i1;
   acc ← average_loop K J src factor i1 (tmp_row, T1);
   set_row I J u i (vector_div acc.1 acc.2))
  = set_row I J u i (average_row K J src factor i1).
Proof.
  intros Hi1. rewrite get_row_in_bounds by assumption.
  cbn [mbind result_bind]. fold (row_of K J src i1).
  destruct (average_loop_spec K J src factor i1 Hi1) as (acc & -> & <-).
  reflexivity.
Qed.

Lemma average_body_23 (I J K factor : nat) (src u : matrix T) (i1 i : nat) :
  i1 < K ->
  (tmp_row ← get_row K J src i1;
   acc ← average_loop K J src factor i1 (tmp_row, T1);
   row ← get_row K J src i1;
   set_row I J u i row)
  = (row ← get_row K J src i1; set_row I J u i row).
Proof.
  intros Hi1. rewrite get_row_in_bounds by assumption.
  cbn [mbind result_bind]. fold (row_of K J src i1).
  destruct (average_loop_spec K J src factor i1 Hi1) as (acc & -> & _).
  reflexivity.
Qed.

Lemma length_fold_vector_add (rows : list (vector T)) (v : vector T) (N : nat) :
  length v = N -> Forall (fun row => length row = N) rows ->
  length (fold_left vector_add rows v) = N.
Proof.
  intros Hv Hrows. revert v Hv.
  induction Hrows as [|row rows Hrow Hrows IH]; intros v Hv; [assumption|].
  cbn [fold_left]. apply IH. unfold vector_add.
  rewrite length_zip_with. lia.
Qed.

Lemma length_block_average (K N : nat) (u : matrix T) (factor i : nat) :
  0 < factor -> i * factor < K -> length (block_average K N u factor i) = N.
Proof.
  intros Hf Hi. unfold block_average, vector_div. rewrite length_map.
  assert (Hn : Nat.min factor (K - i * factor)
               = S (Nat.min factor (K - i * factor) - 1)) by lia.
  rewrite Hn. cbn [seq map hd tail]. apply length_fold_vector_add.
  - now rewrite length_map, length_seq.
  - apply Forall_forall. intros row Hrow.
    apply list_elem_of_In, in_map_iff in Hrow. destruct Hrow as (r & <- & _).
    now rewrite length_map, length_seq.
Qed.

Variables J1 J2 J3 I1 I2 I3 K1 K2 K3 : nat.

Lemma assert_extents_pass :
  I1 <= K1 -> I1 <= K2 -> I1 <= K3 -> assert_extents I1 K1 K2 K3 = Ok tt.
Proof. intros. apply assert_extents_spec. auto. Qed.

Lemma subsampling_spec (this other : tucker3_tensor T) (factor : nat) :
  wf_tucker3 J1 J2 J3 I1 I2 I3 this ->
  I1 <= K1 -> I1 <= K2 -> I1 <= K3 ->
  K1 <= I1 * factor -> K2 <= I2 * factor -> K3 <= I3 * factor ->
  exists r,
    subsampling J1 J2 J3 I1 I2 I3 K1 K2 K3 this other factor = Ok r /\
    _core r = _core other /\
    wf_matrix I1 J1 (_u1 r) /\ wf_matrix I2 J2 (_u2 r) /\
    wf_matrix I3 J3 (_u3 r) /\
    (forall i, i * factor < K1 ->
       get_row I1 J1 (_u1 r) i = get_row K1 J1 (_u1 other) (i * factor)) /\
    (forall i, i * factor < K2 ->
       get_row I2 J2 (_u2 r) i = get_row K2 J2 (_u2 other) (i * factor)) /\
    (forall i, i * factor < K3 ->
       get_row I3 J3 (_u3 r) i = get_row K3 J3 (_u3 other) (i * factor)) /\
    (forall i, i < I1 -> K1 <= i * factor ->
       get_row I1 J1 (_u1 r) i = get_row I1 J1 (_u1 this) i) /\
    (forall i, i < I2 -> K2 <= i * factor ->
       get_row I2 J2 (_u2 r) i = get_row I2 J2 (_u2 this) i) /\
    (forall i, i < I3 -> K3 <= i * factor ->
       get_row I3 J3 (_u3 r) i = get_row I3 J3 (_u3 this) i).
Proof.
  intros (_ & Hu1 & Hu2 & Hu3) Ha1 Ha2 Ha3 HK1 HK2 HK3.
  unfold subsampling, get_u1, get_u2, get_u3, get_core.
  rewrite assert_extents_pass by assumption. cbn [mbind result_bind].
  destruct (subsampling_basis I1 J1 K1 factor (_u1 other) (_u1 this) HK1 Hu1)
    as (u1' & -> & Hw1 & Hr1 & Hf1).
  cbn [mbind result_bind].
  destruct (subsampling_basis I2 J2 K2 factor (_u2 other) (_u2 this) HK2 Hu2)
    as (u2' & -> & Hw2 & Hr2 & Hf2).
  cbn [mbind result_bind].
  destruct (subsampling_basis I3 J3 K3 factor (_u3 other) (_u3 this) HK3 Hu3)
    as (u3' & -> & Hw3 & Hr3 & Hf3).
  cbn [mbind result_bind].
  eexists. split; [reflexivity|]. cbn [_core _u1 _u2 _u3].
  repeat split; assumption.
Qed.

(** X1.  [subsampling], when its asserts hold and each target basis has room for
    the sampled rows (K_k <= I_k * factor): it returns, the core is the
    source's, row [i] of each target basis is row [i * factor] of the source
    basis, and the target rows past the sampled ones are left as they were. *)
Theorem subsampling_strides (this other : tucker3_tensor T) (factor : nat) :
  wf_tucker3 J1 J2 J3 I1 I2 I3 this ->
  I1 <= K1 -> I1 <= K2 -> I1 <= K3 ->
  K1 <= I1 * factor -> K2 <= I2 * factor -> K3 <= I3 * factor ->
  exists r,
    subsampling J1 J2 J3 I1 I2 I3 K1 K2 K3 this other factor = Ok r /\
    _core r = _core other /\
    wf_matrix I1 J1 (_u1 r) /\ wf_matrix I2 J2 (_u2 r) /\
    wf_matrix I3 J3 (_u3 r) /\
    (forall i, i * factor < K1 ->
       get_row I1 J1 (_u1 r) i = get_row K1 J1 (_u1 other) (i * factor)) /\
    (forall i, i * factor < K2 ->
       get_row I2 J2 (_u2 r) i = get_row K2 J2 (_u2 other) (i * factor)) /\
    (forall i, i * factor < K3 ->
       get_row I3 J3 (_u3 r) i = get_row K3 J3 (_u3 other) (i * factor)) /\
    (forall i, i < I1 -> K1 <= i * factor ->
       get_row I1 J1 (_u1 r) i = get_row I1 J1 (_u1 this) i) /\
    (forall i, i < I2 -> K2 <= i * factor ->
       get_row I2 J2 (_u2 r) i = get_row I2 J2 (_u2 this) i) /\
    (forall i, i < I3 -> K3 <= i * factor ->
       get_row I3 J3 (_u3 r) i = get_row I3 J3 (_u3 this) i).
Proof. exact (subsampling_spec this other factor). Qed.

(** X2.  [subsampling], when its asserts hold and some target basis has no room
    for the sampled rows (I_k * factor < K_k, which includes factor 0 on a
    non-empty source): [set_row] leaves the target and the call fails. *)
Theorem subsampling_overflow (this other : tucker3_tensor T) (factor : nat) :
  wf_tucker3 J1 J2 J3 I1 I2 I3 this ->
  I1 <= K1 -> I1 <= K2 -> I1 <= K3 ->
  I1 * factor < K1 \/ I2 * factor < K2 \/ I3 * factor < K3 ->
  subsampling J1 J2 J3 I1 I2 I3 K1 K2 K3 this other factor
  = Fail index_out_of_bounds.
Proof.
  intros (_ & Hu1 & Hu2 & Hu3) Ha1 Ha2 Ha3 Hover.
  unfold subsampling, get_u1, get_u2, get_u3, get_core.
  rewrite assert_extents_pass by assumption. cbn [mbind result_bind].
  assert (Hbody : forall I J K (src : matrix T) i1 i (u : matrix T), i1 < K ->
    exists row, (row ← get_row K J src i1; set_row I J u i row)
                = set_row I J u i row).
  { intros. eexists. now apply subsampling_body. }
  destruct (Nat.le_gt_cases K1 (I1 * factor)) as [HK1|HK1].
  2:{ rewrite (subsampling_loop_overflow I1 J1 K1 factor _ HK1
        (fun i1 i u => Hbody I1 J1 K1 (_u1 other) i1 i u) (S I1) 0)
        by (try assumption; lia).
      reflexivity. }
  destruct (subsampling_basis I1 J1 K1 factor (_u1 other) (_u1 this) HK1 Hu1)
    as (u1' & -> & _).
  cbn [mbind result_bind].
  destruct (Nat.le_gt_cases K2 (I2 * factor)) as [HK2|HK2].
  2:{ rewrite (subsampling_loop_overflow I2 J2 K2 factor _ HK2
        (fun i1 i u => Hbody I2 J2 K2 (_u2 other) i1 i u) (S I2) 0)
        by (try assumption; lia).
      reflexivity. }
  destruct (subsampling_basis I2 J2 K2 factor (_u2 other) (_u2 this) HK2 Hu2)
    as (u2' & -> & _).
  cbn [mbind result_bind].
  destruct (Nat.le_gt_cases K3 (I3 * factor)) as [HK3|HK3]; [lia|].
  rewrite (subsampling_loop_overflow I3 J3 K3 factor _ HK3
    (fun i1 i u => Hbody I3 J3 K3 (_u3 other) i1 i u) (S I3) 0)
    by (try assumption; lia).
  reflexivity.
Qed.

(** X3.  [subsampling_on_average], under the same conditions as [subsampling]:
    it returns, with the core of the source; row [i] of the first target
    basis is the average of the block of rows that starts at [i * factor];
    the second and the third target basis are those [subsampling] gives,
    so their rows are single rows of the source. *)
Theorem subsampling_on_average_by_mode (this other : tucker3_tensor T)
    (factor : nat) :
  wf_tucker3 J1 J2 J3 I1 I2 I3 this ->
  I1 <= K1 -> I1 <= K2 -> I1 <= K3 ->
  K1 <= I1 * factor -> K2 <= I2 * factor -> K3 <= I3 * factor ->
  exists r s,
    subsampling_on_average J1 J2 J3 I1 I2 I3 K1 K2 K3 this other factor = Ok r /\
    subsampling J1 J2 J3 I1 I2 I3 K1 K2 K3 this other factor = Ok s /\
    _core r = _core other /\
    _u2 r = _u2 s /\ _u3 r = _u3 s /\
    (forall i, i * factor < K1 ->
       get_row I1 J1 (_u1 r) i
       = Ok (block_average K1 J1 (_u1 other) factor i)) /\
    (forall i, i * factor < K2 ->
       get_row I2 J2 (_u2 r) i = get_row K2 J2 (_u2 other) (i * factor)) /\
    (forall i, i * factor < K3 ->
       get_row I3 J3 (_u3 r) i = get_row K3 J3 (_u3 other) (i * factor)).
Proof.
  intros Hwf Ha1 Ha2 Ha3 HK1 HK2 HK3.
  destruct (subsampling_spec this other factor Hwf Ha1 Ha2 Ha3 HK1 HK2 HK3)
    as (s & Hs & _ & _ & _ & _ & _ & Hs2 & Hs3 & _).
  destruct Hwf as (_ & Hu1 & Hu2 & Hu3).
  revert Hs.
  unfold subsampling_on_average, subsampling, get_u1, get_u2, get_u3, get_core.
  rewrite assert_extents_pass by assumption. cbn [mbind result_bind].
  destruct (subsampling_loop_rows I1 J1 K1 factor
    (average_row K1 J1 (_u1 other) factor)
    (fun i1 i u =>
       tmp_row ← get_row K1 J1 (_u1 other) i1;
       acc ← average_loop K1 J1 (_u1 other) factor i1 (tmp_row, T1);
       set_row I1 J1 u i (vector_div acc.1 acc.2)) HK1
    (fun i1 i u Hi1 => average_body_1 I1 J1 K1 factor (_u1 other) u i1 i Hi1)
    (S I1) 0 (_u1 this) Hu1 ltac:(lia)) as (a1 & Hrun1 & Hw1 & Hrows1 & _).
  cbn [Nat.mul] in Hrun1. rewrite Hrun1. cbn [mbind result_bind].
  rewrite (subsampling_loop_ext K2 factor _
    (fun i2 i u => row ← get_row K2 J2 (_u2 other) i2; set_row I2 J2 u i row)
    (fun i1 i u Hi1 => average_body_23 I2 J2 K2 factor (_u2 other) u i1 i Hi1)).
  rewrite (subsampling_loop_ext K3 factor _
    (fun i3 i u => row ← get_row K3 J3 (_u3 other) i3; set_row I3 J3 u i row)
    (fun i1 i u Hi1 => average_body_23 I3 J3 K3 factor (_u3 other) u i1 i Hi1)).
  destruct (subsampling_basis I1 J1 K1 factor (_u1 other) (_u1 this) HK1 Hu1)
    as (u1' & -> & _).
  cbn [mbind result_bind].
  destruct (subsampling_loop (S I2) K2 factor _ 0 0 (_u2 this)) as [u2'|];
    [|discriminate].
  cbn [mbind result_bind].
  destruct (subsampling_loop (S I3) K3 factor _ 0 0 (_u3 this)) as [u3'|];
    [|discriminate].
  cbn [mbind result_bind]. intros [= <-].
  eexists. eexists. split; [reflexivity|]. split; [reflexivity|].
  cbn [_core _u1 _u2 _u3] in *.
  repeat split; try assumption.
  intros i Hi. assert (Hf : 0 < factor) by nia.
  rewrite get_row_in_bounds by nia. f_equal.
  rewrite <- (average_row_block K1 J1 (_u1 other) factor i Hf Hi).
  apply (nth_ext _ _ T0 T0).
  - rewrite length_map, length_seq.
    rewrite (average_row_block K1 J1 (_u1 other) factor i Hf Hi).
    now rewrite length_block_average.
  - rewrite length_map, length_seq. intros c Hc.
    rewrite nth_map_seq by assumption. apply Hrows1; [lia|assumption|assumption].
Qed.

(** one basis of [region_of_interest] *)
Lemma region_basis (I J K start_index end_index : nat) (src u : matrix T) :
  end_index <= K -> end_index - start_index <= I -> wf_matrix I J u ->
  exists u',
    for_loop start_index (end_index - start_index)
      (fun i1 a => row ← get_row K J src i1;
                   set_row I J a (i1 - start_index) row) u
    = Ok u' /\
    wf_matrix I J u' /\
    (forall i, i < end_index - start_index ->
       get_row I J u' i = get_row K J src (start_index + i)) /\
    (forall i, i < I -> end_index - start_index <= i ->
       get_row I J u' i = get_row I J u i).
Proof.
  intros HK HI Hu.
  destruct (for_loop_invariant
    (fun j (a : matrix T) =>
       wf_matrix I J a /\
       (forall i c, i < j - start_index -> c < J ->
          matrix_at I a i c = matrix_at K src (start_index + i) c) /\
       (forall i c, i < I -> j - start_index <= i ->
          matrix_at I a i c = matrix_at I u i c))
    (fun i1 a => row ← get_row K J src i1;
                 set_row I J a (i1 - start_index) row)
    (end_index - start_index) start_index u)
    as (u' & Hrun & Hu' & Hrows & Hframe).
  - split; [assumption|]. split; [|reflexivity]. intros i c Hi. lia.
  - intros j a Hj (Ha & Hrows & Hframe).
    rewrite get_row_in_bounds by lia. cbn [mbind result_bind].
    destruct (set_row_spec I J a (j - start_index)
                (map (fun c => matrix_at K src j c) (seq 0 J)) Ha)
      as (a' & -> & Ha' & Hnew & Hold); [lia|].
    exists a'. split; [reflexivity|]. split; [exact Ha'|]. split.
    + intros i c Hi Hc. destruct (decide (i = j - start_index)) as [->|Hne].
      * rewrite Hnew by assumption. rewrite nth_map_seq by assumption.
        f_equal. lia.
      * rewrite Hold by lia. apply Hrows; [lia|assumption].
    + intros i c Hi Hge. rewrite Hold by lia. apply Hframe; [assumption|lia].
  - exists u'. split; [exact Hrun|]. split; [exact Hu'|]. split.
    + intros i Hi. apply get_row_ext; [lia|lia|].
      intros c Hc. apply Hrows; [lia|assumption].
    + intros i Hi Hge. apply get_row_ext; try assumption.
      intros c Hc. apply Hframe; [assumption|lia].
Qed.

(** X4.  [region_of_interest], when its asserts hold and each target basis has
    room for the selected rows: it returns, the core is the source's, row
    [i] of each target basis is row [start_index + i] of the source basis
    for [i] below [end_index - start_index], and the later target rows are
    left as they were. *)
Theorem region_of_interest_rows (this other : tucker3_tensor T)
    (s1 e1 s2 e2 s3 e3 : nat) :
  wf_tucker3 J1 J2 J3 I1 I2 I3 this ->
  I1 <= K1 -> I1 <= K2 -> I1 <= K3 ->
  s1 < e1 -> s2 < e2 -> s3 < e3 -> e1 < K1 -> e2 < K2 -> e3 < K3 ->
  e1 - s1 <= I1 -> e2 - s2 <= I2 -> e3 - s3 <= I3 ->
  exists r,
    region_of_interest J1 J2 J3 I1 I2 I3 K1 K2 K3 this other
      s1 e1 s2 e2 s3 e3 = Ok r /\
    _core r = _core other /\
    (forall i, i < e1 - s1 ->
       get_row I1 J1 (_u1 r) i = get_row K1 J1 (_u1 other) (s1 + i)) /\
    (forall i, i < e2 - s2 ->
       get_row I2 J2 (_u2 r) i = get_row K2 J2 (_u2 other) (s2 + i)) /\
    (forall i, i < e3 - s3 ->
       get_row I3 J3 (_u3 r) i = get_row K3 J3 (_u3 other) (s3 + i)) /\
    (forall i, i < I1 -> e1 - s1 <= i ->
       get_row I1 J1 (_u1 r) i = get_row I1 J1 (_u1 this) i) /\
    (forall i, i < I2 -> e2 - s2 <= i ->
       get_row I2 J2 (_u2 r) i = get_row I2 J2 (_u2 this) i) /\
    (forall i, i < I3 -> e3 - s3 <= i ->
       get_row I3 J3 (_u3 r) i = get_row I3 J3 (_u3 this) i).
Proof.
  intros (_ & Hu1 & Hu2 & Hu3) Ha1 Ha2 Ha3 Hs1 Hs2 Hs3 He1 He2 He3 Hr1 Hr2 Hr3.
  unfold region_of_interest, assert, get_u1, get_u2, get_u3, get_core.
  rewrite assert_extents_pass by assumption.
  rewrite !(proj2 (Nat.ltb_lt _ _)) by assumption.
  cbn [mbind result_bind].
  destruct (region_basis I1 J1 K1 s1 e1 (_u1 other) (_u1 this))
    as (u1' & -> & _ & Hrows1 & Hf1); try assumption; try lia.
  cbn [mbind result_bind].
  destruct (region_basis I2 J2 K2 s2 e2 (_u2 other) (_u2 this))
    as (u2' & -> & _ & Hrows2 & Hf2); try assumption; try lia.
  cbn [mbind result_bind].
  destruct (region_basis I3 J3 K3 s3 e3 (_u3 other) (_u3 this))
    as (u3' & -> & _ & Hrows3 & Hf3); try assumption; try lia.
  cbn [mbind result_bind].
  eexists. split; [reflexivity|]. cbn [_core _u1 _u2 _u3].
  repeat split; assumption.
Qed.

(** X5.  A call of [region_of_interest] that returns has passed its asserts: the
    first target extent is at most each source extent and each region is
    non-empty and ends strictly below the source extent, so the last row of
    a source basis is selected by no call. *)
Theorem region_of_interest_returns (this other r : tucker3_tensor T)
    (s1 e1 s2 e2 s3 e3 : nat) :
  region_of_interest J1 J2 J3 I1 I2 I3 K1 K2 K3 this other
    s1 e1 s2 e2 s3 e3 = Ok r ->
  (I1 <= K1 /\ I1 <= K2 /\ I1 <= K3) /\
  (s1 < e1 /\ s2 < e2 /\ s3 < e3) /\
  (e1 < K1 /\ e2 < K2 /\ e3 < K3) /\
  (forall i, s1 <= i < e1 -> i < K1 - 1) /\
  (forall i, s2 <= i < e2 -> i < K2 - 1) /\
  (forall i, s3 <= i < e3 -> i < K3 - 1).
Proof.
  unfold region_of_interest, assert. intros Hrun.
  destruct (assert_extents I1 K1 K2 K3) as [[]|] eqn:Ea; [|discriminate].
  apply assert_extents_spec in Ea.
  destruct (s1 <? e1) eqn:E1; [|discriminate].
  destruct (s2 <? e2) eqn:E2; [|discriminate].
  destruct (s3 <? e3) eqn:E3; [|discriminate].
  destruct (e1 <? K1) eqn:E4; [|discriminate].
  destruct (e2 <? K2) eqn:E5; [|discriminate].
  destruct (e3 <? K3) eqn:E6; [|discriminate].
  rewrite ?Nat.ltb_lt in *. repeat split; try lia; apply Ea.
Qed.

End subsampling_properties.

(** ** Rank reduction, continued *)

Section reduce_ranks_more.
Context {T : Type} `{Scalar T}.

(** arrays of the same extents with the same entries are the same array *)
Lemma matrix_ext (M N : nat) (m1 m2 : matrix T) :
  wf_matrix M N m1 -> wf_matrix M N m2 ->
  (forall r c, r < M -> c < N -> matrix_at M m1 r c = matrix_at M m2 r c) ->
  m1 = m2.
Proof.
  unfold wf_matrix, matrix_at. intros H1 H2 Heq.
  apply (nth_ext _ _ T0 T0); [congruence|]. intros k Hk.
  assert (HM : M <> 0) by nia.
  pose proof (Nat.div_mod_eq k M) as Hdiv.
  pose proof (Nat.mod_upper_bound k M HM) as Hmod.
  assert (Hq : k / M < N) by (apply Nat.Div0.div_lt_upper_bound; lia).
  specialize (Heq (k mod M) (k / M) Hmod Hq).
  now replace (k / M * M + k mod M) with k in Heq by lia.
Qed.

Lemma tensor3_ext (R C NS : nat) (t1 t2 : tensor3 T) :
  wf_tensor3 R C NS t1 -> wf_tensor3 R C NS t2 ->
  (forall a b c, a < R -> b < C -> c < NS ->
     tensor3_at R t1 a b c = tensor3_at R t2 a b c) ->
  t1 = t2.
Proof.
  intros [Hl1 Hs1] [Hl2 Hs2] Heq.
  apply (nth_ext _ _ [] []); [congruence|]. intros k Hk.
  destruct (nth_lookup_or_length t1 k []) as [Hk1|]; [|lia].
  destruct (nth_lookup_or_length t2 k []) as [Hk2|]; [|lia].
  apply (matrix_ext R C).
  - exact (proj1 (Forall_lookup _ _) Hs1 _ _ Hk1).
  - exact (proj1 (Forall_lookup _ _) Hs2 _ _ Hk2).
  - intros r c Hr Hc. apply (Heq r c k); lia.
Qed.

Variables J1 J2 J3 I1 I2 I3 K1 K2 K3 : nat.

Lemma reduce_ranks_reduced (this other : tucker3_tensor T) :
  J1 <= K1 -> J2 <= K2 -> J3 <= K3 ->
  wf_tucker3 J1 J2 J3 I1 I2 I3 this ->
  wf_tucker3 K1 K2 K3 I1 I2 I3 other ->
  reduce_ranks J1 J2 J3 I1 I2 I3 K1 K2 K3 this other
  = Ok (reduced J1 J2 J3 I1 I2 I3 K1 other).
Proof.
  intros HJ1 HJ2 HJ3 (Hc & Hu1 & Hu2 & Hu3) (Hoc & Ho1 & Ho2 & Ho3).
  unfold reduce_ranks, assert, get_u1, get_u2, get_u3, get_core.
  rewrite (proj2 (Nat.leb_le J1 K1) HJ1), (proj2 (Nat.leb_le J2 K2) HJ2),
    (proj2 (Nat.leb_le J3 K3) HJ3).
  cbn [mbind result_bind].
  rewrite (reduce_basis_loop I1 J1 K1) by assumption.
  rewrite (reduce_basis_loop I2 J2 K2) by assumption.
  rewrite (reduce_basis_loop I3 J3 K3) by assumption.
  cbn [mbind result_bind].
  destruct (reduce_core_loop J1 J2 J3 K1 K2 K3 (_core other) (_core this))
    as (t & Hrun & Hwf & Hagree); try assumption.
  rewrite Hrun. cbn [mbind result_bind]. unfold reduced. f_equal. f_equal.
  apply (tensor3_ext J1 J2 J3); [assumption|apply wf_mk_tensor3|].
  intros a b c Ha Hb Hc'. rewrite Hagree by assumption.
  symmetry.
  exact (tensor3_at_mk_tensor3 J1 J2 J3
           (fun a0 b0 c0 => tensor3_at K1 (_core other) a0 b0 c0) a b c Ha Hb Hc').
Qed.

(** X6.  [reduce_ranks] with a target rank above the source rank fails its
    asserts, whatever the two models hold. *)
Theorem reduce_ranks_asserts (this other : tucker3_tensor T) :
  K1 < J1 \/ K2 < J2 \/ K3 < J3 ->
  reduce_ranks J1 J2 J3 I1 I2 I3 K1 K2 K3 this other = Fail assertion_failed.
Proof.
  intros Hover. unfold reduce_ranks, assert.
  destruct (J1 <=? K1) eqn:E1; [|reflexivity].
  destruct (J2 <=? K2) eqn:E2; [|reflexivity].
  destruct (J3 <=? K3) eqn:E3; [|reflexivity].
  rewrite ?Nat.leb_le in *. lia.
Qed.

(** X7.  [reduce_ranks] overwrites the whole target: what it returns does not
    depend on what the target held. *)
Theorem reduce_ranks_overwrites (this this' other : tucker3_tensor T) :
  J1 <= K1 -> J2 <= K2 -> J3 <= K3 ->
  wf_tucker3 J1 J2 J3 I1 I2 I3 this ->
  wf_tucker3 J1 J2 J3 I1 I2 I3 this' ->
  wf_tucker3 K1 K2 K3 I1 I2 I3 other ->
  exists r,
    reduce_ranks J1 J2 J3 I1 I2 I3 K1 K2 K3 this other = Ok r /\
    reduce_ranks J1 J2 J3 I1 I2 I3 K1 K2 K3 this' other = Ok r /\
    wf_tucker3 J1 J2 J3 I1 I2 I3 r.
Proof.
  intros HJ1 HJ2 HJ3 Hthis Hthis' Hother.
  exists (reduced J1 J2 J3 I1 I2 I3 K1 other).
  split; [now apply reduce_ranks_reduced|].
  split; [now apply reduce_ranks_reduced|].
  destruct Hother as (_ & Ho1 & Ho2 & Ho3). unfold wf_matrix in *.
  split; [apply wf_mk_tensor3|]. cbn [reduced _u1 _u2 _u3].
  repeat split; unfold wf_matrix; rewrite length_take; nia.
Qed.

End reduce_ranks_more.

Section reduce_ranks_compose.
Context {T : Type} `{Scalar T}.
Variables I1 I2 I3 : nat.

Lemma wf_reduced (J1 J2 J3 K1 K2 K3 : nat) (other : tucker3_tensor T) :
  J1 <= K1 -> J2 <= K2 -> J3 <= K3 ->
  wf_tucker3 K1 K2 K3 I1 I2 I3 other ->
  wf_tucker3 J1 J2 J3 I1 I2 I3 (reduced J1 J2 J3 I1 I2 I3 K1 other).
Proof.
  intros HJ1 HJ2 HJ3 (_ & Ho1 & Ho2 & Ho3). unfold wf_matrix in *.
  split; [apply wf_mk_tensor3|]. cbn [reduced _u1 _u2 _u3].
  repeat split; unfold wf_matrix; rewrite length_take; nia.
Qed.

(** X8.  [reduce_ranks] to the ranks the source has copies the source. *)
Theorem reduce_ranks_same_ranks (K1 K2 K3 : nat) (this other : tucker3_tensor T) :
  wf_tucker3 K1 K2 K3 I1 I2 I3 this ->
  wf_tucker3 K1 K2 K3 I1 I2 I3 other ->
  reduce_ranks K1 K2 K3 I1 I2 I3 K1 K2 K3 this other = Ok other.
Proof.
  intros Hthis Hother.
  rewrite (reduce_ranks_reduced K1 K2 K3 I1 I2 I3 K1 K2 K3)
    by (try assumption; lia).
  f_equal.
  destruct Hother as (Hoc & Ho1 & Ho2 & Ho3). unfold wf_matrix in *.
  destruct other as [core u1 u2 u3]. cbn [_core _u1 _u2 _u3] in *.
  unfold reduced. cbn [_core _u1 _u2 _u3].
  rewrite !take_ge by lia. f_equal.
  apply (tensor3_ext K1 K2 K3); [apply wf_mk_tensor3|assumption|].
  intros a b c Ha Hb Hc.
  exact (tensor3_at_mk_tensor3 K1 K2 K3
           (fun a0 b0 c0 => tensor3_at K1 core a0 b0 c0) a b c Ha Hb Hc).
Qed.

(** X9.  Reducing the ranks in two steps, from K to J and from J to L, gives the
    model that reducing from K to L in one step gives. *)
Theorem reduce_ranks_twice (L1 L2 L3 J1 J2 J3 K1 K2 K3 : nat)
    (thisL thisJ other : tucker3_tensor T) :
  L1 <= J1 -> L2 <= J2 -> L3 <= J3 -> J1 <= K1 -> J2 <= K2 -> J3 <= K3 ->
  wf_tucker3 L1 L2 L3 I1 I2 I3 thisL ->
  wf_tucker3 J1 J2 J3 I1 I2 I3 thisJ ->
  wf_tucker3 K1 K2 K3 I1 I2 I3 other ->
  exists mid r,
    reduce_ranks J1 J2 J3 I1 I2 I3 K1 K2 K3 thisJ other = Ok mid /\
    reduce_ranks L1 L2 L3 I1 I2 I3 J1 J2 J3 thisL mid = Ok r /\
    reduce_ranks L1 L2 L3 I1 I2 I3 K1 K2 K3 thisL other = Ok r.
Proof.
  intros HL1 HL2 HL3 HJ1 HJ2 HJ3 HthisL HthisJ Hother.
  exists (reduced J1 J2 J3 I1 I2 I3 K1 other),
         (reduced L1 L2 L3 I1 I2 I3 K1 other).
  split; [now apply reduce_ranks_reduced|].
  split; [|apply reduce_ranks_reduced; try assumption; lia].
  rewrite (reduce_ranks_reduced L1 L2 L3 I1 I2 I3 J1 J2 J3)
    by (try assumption; try lia; now apply (wf_reduced J1 J2 J3 K1 K2 K3)).
  f_equal. unfold reduced. cbn [_core _u1 _u2 _u3].
  rewrite !take_take.
  replace (Nat.min (I1 * L1) (I1 * J1)) with (I1 * L1) by nia.
  replace (Nat.min (I2 * L2) (I2 * J2)) with (I2 * L2) by nia.
  replace (Nat.min (I3 * L3) (I3 * J3)) with (I3 * L3) by nia.
  f_equal. apply mk_tensor3_ext. intros a b c Ha Hb Hc.
  exact (tensor3_at_mk_tensor3 J1 J2 J3
           (fun a0 b0 c0 => tensor3_at K1 (_core other) a0 b0 c0) a b c
           ltac:(lia) ltac:(lia) ltac:(lia)).
Qed.

End reduce_ranks_compose.

(** ** Flat import, continued *)

Section import_more.
Context {T : Type} `{Scalar T}.

Lemma vector_at_None (l : list T) (i : nat) :
  length l <= i -> vector_at l i = Fail index_out_of_bounds.
Proof.
  intros Hi. unfold vector_at. now rewrite (lookup_ge_None_2 l i Hi).
Qed.

Lemma matrix_import_short (data_ : list T) (count lo i : nat) (m : matrix T) :
  i <= length data_ -> length data_ < i + count ->
  for_loop lo count
    (fun k st => x ← vector_at data_ st.2; Ok (<[k := x]> st.1, st.2 + 1))
    (m, i)
  = Fail index_out_of_bounds.
Proof.
  revert lo i m. induction count as [|count IH]; intros lo i m Hle Hlen; [lia|].
  cbn [for_loop fst snd].
  destruct (Nat.lt_ge_cases i (length data_)) as [Hi|Hi].
  - destruct (lookup_lt_is_Some_2 data_ i Hi) as [x Hx].
    rewrite (vector_at_Some _ _ _ Hx). cbn [mbind result_bind].
    apply IH; lia.
  - now rewrite vector_at_None.
Qed.

Lemma tensor3_import_short (R C NS : nat) (data_ : list T)
    (it_end : tensor3_iterator) :
  0 < NS -> _matrix_it it_end = slice_end R C (NS - 1) ->
  forall fuel k off t i, wf_tensor3 R C NS t -> k < NS -> off < R * C ->
    NS * (R * C) - (k * (R * C) + off) <= fuel ->
    length data_ < i + (NS * (R * C) - (k * (R * C) + off)) ->
    tensor3_import_loop fuel R C NS data_ (it_at R C k off) it_end (t, i)
    = Fail index_out_of_bounds.
Proof.
  intros HS Hend.
  induction fuel as [|fuel IH]; intros k off t i Hwf Hk Hoff Hfuel Hdata;
    [nia|].
  assert (Hg : k * (R * C) + off < NS * (R * C)) by nia.
  cbn [tensor3_import_loop]. rewrite tensor3_iterator_neq_at, Hend.
  unfold slice_end.
  rewrite (bool_decide_eq_false_2 ((NS - 1, R * C) = (k, off)))
    by (intros [=]; lia).
  cbn [negb fst snd].
  destruct (Nat.lt_ge_cases i (length data_)) as [Hi|Hi];
    [|now rewrite vector_at_None].
  destruct (lookup_lt_is_Some_2 data_ i Hi) as [x Hx].
  rewrite (vector_at_Some _ _ _ Hx). cbn [mbind result_bind].
  destruct (tensor3_iterator_assign_at R C NS k off t x Hwf Hk Hoff)
    as (t1 & -> & Hwf1 & _).
  cbn [mbind result_bind].
  rewrite tensor3_iterator_incr_at by assumption.
  destruct (off + 1 =? R * C) eqn:E; cbn [andb].
  - apply Nat.eqb_eq in E. destruct (k + 1 <? NS) eqn:Ek.
    + apply Nat.ltb_lt in Ek. apply IH; try assumption; nia.
    + apply Nat.ltb_ge in Ek. nia.
  - apply Nat.eqb_neq in E. apply IH; try assumption; nia.
Qed.

Lemma take_drop_app_prefix (d e : list T) (n m : nat) :
  n + m <= length d -> take m (drop n (d ++ e)) = take m (drop n d).
Proof.
  intros Hlen. rewrite drop_app_le by lia.
  apply take_app_le. rewrite length_drop. lia.
Qed.

Lemma take_four (d : list T) (a b c e : nat) :
  a + b + c + e = length d ->
  take a d ++ take b (drop a d) ++ take c (drop (a + b) d)
    ++ take e (drop (a + b + c) d) = d.
Proof.
  intros Hlen.
  rewrite (take_ge (drop (a + b + c) d)) by (rewrite length_drop; lia).
  rewrite <- (drop_drop d c (a + b)), take_drop.
  rewrite <- (drop_drop d b a), take_drop.
  apply take_drop.
Qed.

Variables J1 J2 J3 I1 I2 I3 : nat.

(** X10.  [import_from] on a vector with fewer elements than the model has: the
    read past the end, [data_.at( i )], fails the call. *)
Theorem import_from_short (this : tucker3_tensor T) (data_ : list T) :
  wf_tucker3 J1 J2 J3 I1 I2 I3 this ->
  length data_ < I1 * J1 + I2 * J2 + I3 * J3 + J1 * J2 * J3 ->
  import_from J1 J2 J3 I1 I2 I3 this data_ = Fail index_out_of_bounds.
Proof.
  intros (Hc & Hu1 & Hu2 & Hu3) Hlen. unfold import_from.
  destruct (Nat.le_gt_cases (I1 * J1) (length data_)) as [H1|H1].
  2:{ unfold matrix_import_loop. now rewrite matrix_import_short by lia. }
  rewrite (matrix_import_loop_spec I1 J1) by (try assumption; lia).
  cbn [mbind result_bind].
  destruct (Nat.le_gt_cases (I1 * J1 + I2 * J2) (length data_)) as [H2|H2].
  2:{ unfold matrix_import_loop. now rewrite matrix_import_short by lia. }
  rewrite (matrix_import_loop_spec I2 J2) by (try assumption; lia).
  cbn [mbind result_bind].
  destruct (Nat.le_gt_cases (I1 * J1 + I2 * J2 + I3 * J3) (length data_))
    as [H3|H3].
  2:{ unfold matrix_import_loop. now rewrite matrix_import_short by lia. }
  rewrite (matrix_import_loop_spec I3 J3) by (try assumption; lia).
  cbn [mbind result_bind].
  assert (HJ3 : 0 < J3) by nia.
  unfold tensor3_iterator_new. rewrite (proj2 (Nat.ltb_lt 0 J3) HJ3).
  cbn [mbind result_bind].
  change {| _matrix_it := slice_begin 0; _matrix_it_end := slice_end J1 J2 0;
            _matrix_index := 0 |} with (it_at J1 J2 0 0).
  rewrite (tensor3_import_short J1 J2 J3) by (try assumption; try reflexivity; nia).
  reflexivity.
Qed.

Lemma import_from_prefix (this : tucker3_tensor T) (d extra : list T) :
  wf_tucker3 J1 J2 J3 I1 I2 I3 this -> 0 < J1 -> 0 < J2 -> 0 < J3 ->
  length d = I1 * J1 + I2 * J2 + I3 * J3 + J1 * J2 * J3 ->
  exists r, import_from J1 J2 J3 I1 I2 I3 this (d ++ extra) = Ok r /\
    wf_tucker3 J1 J2 J3 I1 I2 I3 r /\ exported r = d.
Proof.
  intros Hwf HJ1 HJ2 HJ3 Hlen.
  destruct (import_from_spec J1 J2 J3 I1 I2 I3 this (d ++ extra) Hwf HJ1 HJ2 HJ3)
    as (r & Hrun & Hwfc & Hr1 & Hr2 & Hr3 & Hrc).
  { rewrite length_app. lia. }
  exists r. split; [exact Hrun|].
  rewrite <- (drop_0 (d ++ extra)) in Hr1.
  rewrite take_drop_app_prefix in Hr1, Hr2, Hr3, Hrc by lia.
  rewrite drop_0 in Hr1.
  split.
  - split; [exact Hwfc|]. unfold wf_matrix. rewrite Hr1, Hr2, Hr3.
    rewrite !length_take, !length_drop. lia.
  - unfold exported. rewrite Hr1, Hr2, Hr3, Hrc. apply take_four. lia.
Qed.

Lemma exported_inj (a b : tucker3_tensor T) :
  wf_tucker3 J1 J2 J3 I1 I2 I3 a -> wf_tucker3 J1 J2 J3 I1 I2 I3 b ->
  exported a = exported b -> a = b.
Proof.
  intros (Hac & Ha1 & Ha2 & Ha3) (Hbc & Hb1 & Hb2 & Hb3).
  unfold exported, wf_matrix in *. intros Heq.
  apply app_inj_1 in Heq as [E1 Heq]; [|congruence].
  apply app_inj_1 in Heq as [E2 Heq]; [|congruence].
  apply app_inj_1 in Heq as [E3 Heq]; [|congruence].
  apply (concat_wf_inj J1 J2 J3) in Heq; try assumption.
  destruct a, b. cbn [_core _u1 _u2 _u3] in *. congruence.
Qed.

(** X11.  [import_from] reads the first I1*J1 + I2*J2 + I3*J3 + J1*J2*J3 elements
    and nothing else: what follows them in the vector and what the model
    held before do not matter, and [export_to] on the imported model gives
    those elements back. *)
Theorem import_then_export (this this' : tucker3_tensor T) (d extra : list T) :
  wf_tucker3 J1 J2 J3 I1 I2 I3 this ->
  wf_tucker3 J1 J2 J3 I1 I2 I3 this' ->
  0 < J1 -> 0 < J2 -> 0 < J3 ->
  length d = I1 * J1 + I2 * J2 + I3 * J3 + J1 * J2 * J3 ->
  exists r,
    import_from J1 J2 J3 I1 I2 I3 this (d ++ extra) = Ok r /\
    import_from J1 J2 J3 I1 I2 I3 this' d = Ok r /\
    export_to J1 J2 J3 I1 I2 I3 r [] = Ok (r, d).
Proof.
  intros Hwf Hwf' HJ1 HJ2 HJ3 Hlen.
  destruct (import_from_prefix this d extra Hwf HJ1 HJ2 HJ3 Hlen)
    as (r & Hrun & Hwfr & Hexp).
  destruct (import_from_prefix this' d [] Hwf' HJ1 HJ2 HJ3 Hlen)
    as (r' & Hrun' & Hwfr' & Hexp').
  rewrite app_nil_r in Hrun'.
  assert (r' = r) by (apply exported_inj; congruence). subst r'.
  exists r. split; [exact Hrun|]. split; [exact Hrun'|].
  rewrite (export_to_spec J1 J2 J3 I1 I2 I3 r []) by assumption.
  cbn [app]. now rewrite Hexp.
Qed.

End import_more.

(** ** The walk of [tensor3_iterator] *)

Section iterator_properties.
Context {T : Type} `{Scalar T}.

Lemma div_mod_step (n b : nat) :
  0 < b ->
  (n mod b + 1 = b -> (n + 1) / b = n / b + 1 /\ (n + 1) mod b = 0) /\
  (n mod b + 1 <> b -> (n + 1) / b = n / b /\ (n + 1) mod b = n mod b + 1).
Proof.
  intros Hb. pose proof (Nat.div_mod_eq n b) as E.
  pose proof (Nat.mod_upper_bound n b ltac:(lia)) as Hm.
  split; intros Hc.
  - assert (E' : n + 1 = b * (n / b + 1) + 0) by nia.
    split; symmetry.
    + exact (Nat.div_unique (n + 1) b (n / b + 1) 0 ltac:(lia) E').
    + exact (Nat.mod_unique (n + 1) b (n / b + 1) 0 ltac:(lia) E').
  - assert (E' : n + 1 = b * (n / b) + (n mod b + 1)) by nia.
    split; symmetry.
    + exact (Nat.div_unique (n + 1) b (n / b) (n mod b + 1) ltac:(lia) E').
    + exact (Nat.mod_unique (n + 1) b (n / b) (n mod b + 1) ltac:(lia) E').
Qed.

(** [n] increments from the first element stand at element [n] of the
    slice-by-slice order *)
Lemma iterator_walk_at (R C NS n : nat) :
  n < NS * (R * C) ->
  Nat.iter n (tensor3_iterator_incr R C NS) (it_at R C 0 0)
  = it_at R C (n / (R * C)) (n mod (R * C)).
Proof.
  induction n as [|n IH]; intros Hn.
  - assert (0 < R * C) by nia.
    now rewrite Nat.Div0.div_0_l, Nat.Div0.mod_0_l.
  - assert (Hb : 0 < R * C) by nia.
    rewrite Nat.iter_succ, IH by lia.
    pose proof (Nat.mod_upper_bound n (R * C) ltac:(lia)) as Hm.
    pose proof (Nat.div_mod_eq n (R * C)) as E.
    rewrite tensor3_iterator_incr_at by assumption.
    destruct (div_mod_step n (R * C) Hb) as [Hwrap Hstay].
    replace (S n) with (n + 1) by lia.
    destruct (n mod (R * C) + 1 =? R * C) eqn:Eo; cbn [andb].
    + apply Nat.eqb_eq in Eo. destruct (Hwrap Eo) as [-> ->].
      destruct (n / (R * C) + 1 <? NS) eqn:Ek; [reflexivity|].
      apply Nat.ltb_ge in Ek. nia.
    + apply Nat.eqb_neq in Eo. now destruct (Hstay Eo) as [-> ->].
Qed.

Lemma lookup_concat_blocks (b : nat) (t : list (list T)) (n : nat) :
  0 < b -> Forall (fun m => length m = b) t ->
  concat t !! n = t !! (n / b) ≫= (fun m => m !! (n mod b)).
Proof.
  intros Hb Ht. revert n. induction Ht as [|m t Hm Ht IH]; intros n.
  - reflexivity.
  - cbn [concat]. destruct (Nat.lt_ge_cases n b) as [Hn|Hn].
    + rewrite lookup_app_l by lia.
      now rewrite Nat.div_small, Nat.mod_small by lia.
    + rewrite lookup_app_r by lia. rewrite Hm, IH.
      assert (E : n = (n - b) + 1 * b) by lia.
      rewrite (f_equal (fun k => k / b) E), (f_equal (fun k => k mod b) E).
      cbv beta. rewrite Nat.div_add, Nat.Div0.mod_add by lia.
      now replace ((n - b) / b + 1) with (S ((n - b) / b)) by lia.
Qed.

(** the iterator a walk arrives at after the last element *)
Lemma iterator_walk_end (R C NS m : nat) :
  0 < NS -> 0 < R * C ->
  Nat.iter (NS * (R * C) + m) (tensor3_iterator_incr R C NS) (it_at R C 0 0)
  = it_at R C (NS - 1) (R * C).
Proof.
  intros HS Hb.
  assert (Hp : 0 < NS * (R * C)) by (apply Nat.mul_pos_pos; lia).
  induction m as [|m IH].
  - replace (NS * (R * C) + 0) with (S (NS * (R * C) - 1)) by lia.
    rewrite Nat.iter_succ, iterator_walk_at by lia.
    assert (E : NS * (R * C) - 1 = (R * C) * (NS - 1) + (R * C - 1)).
    { clear Hp. generalize dependent (R * C). intros P HP.
      destruct NS as [|k]; [lia|].
      replace (S k - 1) with k by lia. lia. }
    assert (Hr : R * C - 1 < R * C) by lia.
    rewrite <- (Nat.div_unique _ _ _ _ Hr E), <- (Nat.mod_unique _ _ _ _ Hr E).
    rewrite tensor3_iterator_incr_at by lia.
    rewrite (proj2 (Nat.eqb_eq (R * C - 1 + 1) (R * C))) by lia.
    rewrite (proj2 (Nat.ltb_ge (NS - 1 + 1) NS)) by lia.
    cbn [andb]. f_equal. lia.
  - replace (NS * (R * C) + S m) with (S (NS * (R * C) + m)) by lia.
    rewrite Nat.iter_succ, IH.
    unfold tensor3_iterator_incr, it_at, slice_end.
    cbn [_matrix_it _matrix_it_end _matrix_index fst snd].
    rewrite (bool_decide_eq_true_2 ((NS - 1, R * C) = (NS - 1, R * C)))
      by reflexivity.
    cbn [negb].
    rewrite (bool_decide_eq_true_2 ((NS - 1, R * C) = (NS - 1, R * C)))
      by reflexivity.
    now rewrite (proj2 (Nat.ltb_ge (NS - 1 + 1) NS)) by lia.
Qed.

Lemma tensor3_iterator_new_begin (R C NS : nat) (b : tensor3_iterator) :
  tensor3_iterator_new R C NS true = Ok b -> 0 < NS /\ b = it_at R C 0 0.
Proof.
  unfold tensor3_iterator_new. destruct (0 <? NS) eqn:E; [|discriminate].
  apply Nat.ltb_lt in E. intros [= <-]. now split.
Qed.

Lemma tensor3_iterator_new_end (R C NS : nat) (e : tensor3_iterator) :
  tensor3_iterator_new R C NS false = Ok e ->
  0 < NS /\ e = {| _matrix_it := slice_end R C (NS - 1);
                   _matrix_it_end := slice_begin (NS - 1);
                   _matrix_index := NS - 1 |}.
Proof.
  unfold tensor3_iterator_new. destruct (0 <? NS) eqn:E; [|discriminate].
  apply Nat.ltb_lt in E. intros [= <-]. now split.
Qed.

(** X12.  After [n] increments, [n] below the number of elements, the begin
    iterator stands in slice [n / (ROWS*COLS)], differs from the end
    iterator, and [operator*] yields element [n] of the slices laid end to
    end. *)
Theorem tensor3_iterator_walk (R C NS : nat) (t : tensor3 T)
    (b e : tensor3_iterator) (n : nat) :
  wf_tensor3 R C NS t ->
  tensor3_iterator_new R C NS true = Ok b ->
  tensor3_iterator_new R C NS false = Ok e ->
  n < NS * (R * C) ->
  exists x, concat t !! n = Some x /\
    tensor3_iterator_deref t (Nat.iter n (tensor3_iterator_incr R C NS) b) = Ok x /\
    tensor3_iterator_neq (Nat.iter n (tensor3_iterator_incr R C NS) b) e = true /\
    _matrix_index (Nat.iter n (tensor3_iterator_incr R C NS) b) = n / (R * C).
Proof.
  intros Hwf Hb He Hn.
  apply tensor3_iterator_new_begin in Hb as [HS ->].
  apply tensor3_iterator_new_end in He as [_ ->].
  assert (Hpos : 0 < R * C) by nia.
  pose proof (Nat.mod_upper_bound n (R * C) ltac:(lia)) as Hm.
  assert (Hk : n / (R * C) < NS).
  { apply Nat.Div0.div_lt_upper_bound. lia. }
  destruct (wf_tensor3_slice R C NS t _ Hwf Hk) as [Hslice Hlen].
  destruct (lookup_lt_is_Some_2 (nth (n / (R * C)) t []) (n mod (R * C)))
    as [x Hx]; [lia|].
  exists x. rewrite iterator_walk_at by assumption.
  repeat match goal with |- _ /\ _ => split end.
  - rewrite (lookup_concat_blocks (R * C)); [|assumption|exact (proj2 Hwf)].
    rewrite Hslice. exact Hx.
  - exact (tensor3_iterator_deref_at R C _ _ t _ x Hslice Hx).
  - rewrite tensor3_iterator_neq_at. cbn [_matrix_it]. unfold slice_end.
    rewrite bool_decide_eq_false_2; [reflexivity|]. intros [=]. lia.
  - reflexivity.
Qed.

(** X13.  From the last element on, every further increment leaves the iterator
    equal to the end iterator, and [operator*] there is out of bounds. *)
Theorem tensor3_iterator_saturates (R C NS : nat) (t : tensor3 T)
    (b e : tensor3_iterator) (n : nat) :
  wf_tensor3 R C NS t -> 0 < R * C ->
  tensor3_iterator_new R C NS true = Ok b ->
  tensor3_iterator_new R C NS false = Ok e ->
  NS * (R * C) <= n ->
  tensor3_iterator_neq (Nat.iter n (tensor3_iterator_incr R C NS) b) e = false /\
  tensor3_iterator_deref t (Nat.iter n (tensor3_iterator_incr R C NS) b)
  = Fail index_out_of_bounds.
Proof.
  intros Hwf Hpos Hb He Hn.
  apply tensor3_iterator_new_begin in Hb as [HS ->].
  apply tensor3_iterator_new_end in He as [_ ->].
  replace n with (NS * (R * C) + (n - NS * (R * C))) by lia.
  rewrite iterator_walk_end by assumption. split.
  - rewrite tensor3_iterator_neq_at. cbn [_matrix_it].
    now rewrite bool_decide_eq_true_2.
  - destruct (wf_tensor3_slice R C NS t (NS - 1) Hwf ltac:(lia))
      as [Hslice Hlen].
    unfold tensor3_iterator_deref, it_at. cbn [_matrix_it fst snd].
    rewrite Hslice. cbn [mbind option_bind].
    now rewrite lookup_ge_None_2 by lia.
Qed.

(** X14.  The end iterator of the constructor and the iterator a full walk arrives
    at compare equal, yet [operator++] tells them apart: the walked one
    stays, the constructed one, whose [_matrix_it_end] is [slice_.begin()],
    is advanced beyond [slice_.end()] and no longer equals the end. *)
Theorem tensor3_iterator_end_increment (R C NS : nat) (b e : tensor3_iterator) :
  0 < R * C ->
  tensor3_iterator_new R C NS true = Ok b ->
  tensor3_iterator_new R C NS false = Ok e ->
  let w := Nat.iter (NS * (R * C)) (tensor3_iterator_incr R C NS) b in
  tensor3_iterator_neq w e = false /\
  tensor3_iterator_incr R C NS w = w /\
  _matrix_it (tensor3_iterator_incr R C NS e) = (NS - 1, R * C + 1) /\
  tensor3_iterator_neq (tensor3_iterator_incr R C NS e) e = true.
Proof.
  intros Hpos Hb He.
  apply tensor3_iterator_new_begin in Hb as [HS ->].
  apply tensor3_iterator_new_end in He as [_ ->].
  cbv zeta.
  pose proof (iterator_walk_end R C NS 0 HS Hpos) as Hw0.
  pose proof (iterator_walk_end R C NS 1 HS Hpos) as Hw1.
  rewrite Nat.add_0_r in Hw0.
  replace (NS * (R * C) + 1) with (S (NS * (R * C))) in Hw1 by lia.
  rewrite Nat.iter_succ in Hw1.
  assert (Hinc : tensor3_iterator_incr R C NS
            {| _matrix_it := slice_end R C (NS - 1);
               _matrix_it_end := slice_begin (NS - 1);
               _matrix_index := NS - 1 |}
          = {| _matrix_it := (NS - 1, R * C + 1);
               _matrix_it_end := slice_begin (NS - 1);
               _matrix_index := NS - 1 |}).
  { unfold tensor3_iterator_incr, slice_end, slice_begin.
    cbn [_matrix_it _matrix_it_end _matrix_index fst snd].
    rewrite (bool_decide_eq_false_2 ((NS - 1, R * C) = (NS - 1, 0)))
      by (intros [=]; lia).
    cbn [negb].
    rewrite (bool_decide_eq_false_2 ((NS - 1, R * C + 1) = (NS - 1, 0)))
      by (intros [=]; lia).
    reflexivity. }
  repeat match goal with |- _ /\ _ => split end.
  - rewrite Hw0, tensor3_iterator_neq_at. cbn [_matrix_it].
    now rewrite bool_decide_eq_true_2.
  - rewrite Hw1. exact (eq_sym Hw0).
  - now rewrite Hinc.
  - rewrite Hinc. unfold tensor3_iterator_neq, slice_end. cbn [_matrix_it].
    rewrite bool_decide_eq_false_2; [reflexivity|]. intros [=]. lia.
Qed.

End iterator_properties.

(** * Properties of [Matrix4] *)

Section matrix4_access.
Context {T : Type} `{Scalar T} `{Numeric T} `{Matrix4_collaborators T}.
Import Matrix4.

Ltac index4 i Hi :=
  destruct i as [|[|[|[|i]]]]; [| | | |exfalso; lia]; clear Hi.

(** X15.  The constructor from four vectors stores them as rows, with
    [columnVectors] as columns; the two results are transposes of each
    other. *)
Theorem new_vectors_rows_columns (v0 v1 v2 v3 : Vector4.t T) (i : nat) :
  i < 4 ->
  getRow (new_vectors v0 v1 v2 v3 false) i = Ok (nth i [v0; v1; v2; v3] v0) /\
  getColumn (new_vectors v0 v1 v2 v3 true) i = Ok (nth i [v0; v1; v2; v3] v0) /\
  new_vectors v0 v1 v2 v3 true = getTransposed (new_vectors v0 v1 v2 v3 false).
Proof.
  intros Hi. destruct v0, v1, v2, v3. index4 i Hi; repeat split.
Qed.

(** X16.  [getTransposed] exchanges rows and columns, element by element,
    and is its own inverse. *)
Theorem getTransposed_involutive (this : t T) (row col : nat) :
  row < 4 -> col < 4 ->
  getElement (getTransposed this) row col = getElement this col row /\
  getTransposed (getTransposed this) = this.
Proof.
  intros Hrow Hcol. split; [|now destruct this].
  index4 row Hrow; index4 col Hcol; reflexivity.
Qed.

(** X17.  [setRow] at a row below 4 returns; that row then reads back as the
    vector written and every other row as before. *)
Theorem setRow_getRow (this : t T) (row : nat) (rowvec : Vector4.t T) :
  row < 4 ->
  exists this', setRow this row rowvec = Ok this' /\
    getRow this' row = Ok rowvec /\
    forall r, r <> row -> getRow this' r = getRow this r.
Proof.
  intros Hrow. destruct this, rowvec.
  index4 row Hrow; eexists; (split; [cbv; reflexivity|]);
    (split; [cbv; reflexivity|]).
  all: intros r Hr; destruct r as [|[|[|[|r]]]]; cbv; try reflexivity; lia.
Qed.

(** X18.  [setColumn] at a column below 4 returns; that column then reads back
    as the vector written and every other column as before. *)
Theorem setColumn_getColumn (this : t T) (column : nat) (columnvec : Vector4.t T) :
  column < 4 ->
  exists this', setColumn this column columnvec = Ok this' /\
    getColumn this' column = Ok columnvec /\
    forall c, c <> column -> getColumn this' c = getColumn this c.
Proof.
  intros Hcol. destruct this, columnvec.
  index4 column Hcol; eexists; (split; [cbv; reflexivity|]);
    (split; [cbv; reflexivity|]).
  all: intros c Hc; destruct c as [|[|[|[|c]]]]; cbv; try reflexivity; lia.
Qed.

(** X19.  Every element of the product written out in [operator*] is the
    row-by-column sum, added from the left, and [operator*=] computes the
    same matrix. *)
Theorem operator_mul_entries (this o : t T) (i j : nat) :
  i < 4 -> j < 4 ->
  entry (operator_mul this o) i j
  = Tadd (Tadd (Tadd (Tmul (entry this i 0) (entry o 0 j))
                     (Tmul (entry this i 1) (entry o 1 j)))
               (Tmul (entry this i 2) (entry o 2 j)))
         (Tmul (entry this i 3) (entry o 3 j)) /\
  operator_mul_assign this o = operator_mul this o.
Proof.
  intros Hi Hj. split; [|reflexivity].
  index4 i Hi; index4 j Hj; reflexivity.
Qed.

(** X20.  [operator*( Vector4 )] pairs the vector with the columns of the
    matrix: component [j] of the result is the sum of [vv[i]] times the
    element in row [i] and column [j]. *)
Theorem operator_mul_vector4_columns (this : t T) (vv col : Vector4.t T) (j : nat) :
  getColumn this j = Ok col ->
  component (operator_mul_vector4 this vv) j = dot4 vv col.
Proof.
  destruct this. destruct j as [|[|[|[|j]]]]; intros [= <-]; reflexivity.
Qed.

(** X21.  [getMinor( removeRow, removeCol )] is the minor of the three rows
    and columns left, in increasing order; an index beyond 3 is not
    refused, it removes nothing but the last row or column. *)
Theorem getMinor_remove_kept (this : t T) (removeRow removeCol : nat) :
  getMinor_remove this removeRow removeCol
  = let '(r0, r1, r2) := kept removeRow in
    let '(c0, c1, c2) := kept removeCol in
    getMinor this r0 r1 r2 c0 c1 c2.
Proof.
  destruct removeRow as [|[|[|removeRow]]];
    destruct removeCol as [|[|[|removeCol]]]; reflexivity.
Qed.

(** X22.  [setTranslation] writes the first three elements of column 3, while
    [operator*( Vector3 )] adds the first three elements of row 3: the first
    three components it computes are the same before and after
    [setTranslation]. *)
Theorem setTranslation_not_applied (this : t T) (x y z : T) (vv : Vector3.t T) :
  getColumn (setTranslation this x y z) 3 = Ok (Vector4.mk x y z (m33 this)) /\
  let before := operator_mul_vector3_result this vv in
  let after := operator_mul_vector3_result (setTranslation this x y z) vv in
  Vector4.x after = Vector4.x before /\
  Vector4.y after = Vector4.y before /\
  Vector4.z after = Vector4.z before.
Proof. repeat split. Qed.

End matrix4_access.

Section matrix4_algebra.
Context {T : Type} `{Scalar T} `{Numeric T} `{Matrix4_collaborators T}.
Import Matrix4.

(** the element type is a commutative ring *)
Hypothesis Tring : ring_theory T0 T1 Tadd Tmul Tsub Topp eq.
Add Ring T_ring : Tring.

Ltac fields := cbv -[T0 T1 Tadd Tmul Tsub Topp Tdiv Tsin Tcos]; f_equal; ring.

(** X23.  [operator*] is associative, with [IDENTITY] neutral and [ZERO]
    absorbing on both sides. *)
Theorem operator_mul_monoid (a b c : t T) :
  operator_mul (operator_mul a b) c = operator_mul a (operator_mul b c) /\
  operator_mul IDENTITY a = a /\ operator_mul a IDENTITY = a /\
  operator_mul ZERO a = ZERO /\ operator_mul a ZERO = ZERO.
Proof using Tring.
  destruct a, b, c. repeat split; fields.
Qed.

(** X24.  The transpose of a product is the product of the transposes in
    the opposite order. *)
Theorem getTransposed_product (a b : t T) :
  getTransposed (operator_mul a b)
  = operator_mul (getTransposed b) (getTransposed a).
Proof using Tring. destruct a, b. fields. Qed.

(** X25.  [operator*( Vector4 )] applies the transposed matrix: the product
    of two matrices acts on a vector as the first factor followed by the
    second. *)
Theorem operator_mul_vector4_composes (a b : t T) (vv : Vector4.t T) :
  operator_mul_vector4 (operator_mul a b) vv
  = operator_mul_vector4 b (operator_mul_vector4 a vv).
Proof using Tring. destruct a, b, vv. fields. Qed.

(** X26.  Each rotation multiplies from the left: [rotateX] mixes rows 0 and
    2, [rotateY] rows 1 and 2, [rotateZ] rows 0 and 1. *)
Theorem rotations_multiply_from_left (this : t T) (angle : T) :
  let s := Tsin angle in
  let c := Tcos angle in
  rotateX this angle
  = operator_mul (new c T0 (Topp s) T0  T0 T1 T0 T0  s T0 c T0  T0 T0 T0 T1) this /\
  rotateY this angle
  = operator_mul (new T1 T0 T0 T0  T0 c s T0  T0 (Topp s) c T0  T0 T0 T0 T1) this /\
  rotateZ this angle
  = operator_mul (new c s T0 T0  (Topp s) c T0 T0  T0 T0 T1 T0  T0 T0 T0 T1) this.
Proof using Tring.
  cbv zeta. destruct this. unfold rotateX, rotateY, rotateZ. cbv zeta.
  generalize (Tsin angle) (Tcos angle). intros s c.
  repeat split; fields.
Qed.

(** X27.  [scale] multiplies from the right by the diagonal matrix of the
    three factors and 1: column [k] is scaled by [scale[k]], its element in
    row 3 included, and column 3 is left. *)
Theorem scale_multiplies_from_right (this : t T) (s0 s1 s2 : T) :
  scale this (s0, s1, s2)
  = operator_mul this
      (new s0 T0 T0 T0  T0 s1 T0 T0  T0 T0 s2 T0  T0 T0 T0 T1).
Proof using Tring. destruct this. fields. Qed.

(** [Matrix3::det] is the determinant *)
Hypothesis Matrix3_det_spec :
  forall a00 a01 a02 a10 a11 a12 a20 a21 a22,
    Matrix3_det a00 a01 a02 a10 a11 a12 a20 a21 a22
    = det3 a00 a01 a02 a10 a11 a12 a20 a21 a22.

Lemma getDeterminant_returns (this : t T) :
  exists d, getDeterminant this = Ok d.
Proof. unfold getDeterminant, getMinor. cbv -[Matrix3_det Tadd Tsub Tmul]. eauto. Qed.

Lemma getAdjugate_returns (this : t T) :
  exists adj, getAdjugate this = Ok adj.
Proof.
  unfold getAdjugate, getMinor. cbv -[Matrix3_det Tadd Tsub Tmul Topp]. eauto.
Qed.

Lemma adjugate_spec (this : t T) (d : T) (adj : t T) :
  getDeterminant this = Ok d -> getAdjugate this = Ok adj ->
  operator_mul this adj = operator_mul_scalar IDENTITY d /\
  operator_mul adj this = operator_mul_scalar IDENTITY d.
Proof using Tring Matrix3_det_spec.
  destruct this.
  unfold getDeterminant, getAdjugate, getMinor.
  cbv -[Matrix3_det Tadd Tsub Tmul Topp T0 T1].
  rewrite !Matrix3_det_spec. intros [= <-] [= <-].
  split; cbv -[Tadd Tsub Tmul Topp T0 T1]; f_equal; ring.
Qed.

(** X28.  With [Matrix3::det] the determinant, [getDeterminant] and
    [getAdjugate] return, and the matrix times its adjugate, in either
    order, is the determinant times [IDENTITY]. *)
Theorem getAdjugate_product (this : t T) :
  exists d adj, getDeterminant this = Ok d /\ getAdjugate this = Ok adj /\
    operator_mul this adj = operator_mul_scalar IDENTITY d /\
    operator_mul adj this = operator_mul_scalar IDENTITY d.
Proof using Tring Matrix3_det_spec.
  destruct (getDeterminant_returns this) as [d Hd].
  destruct (getAdjugate_returns this) as [adj Hadj].
  exists d, adj. split; [exact Hd|]. split; [exact Hadj|].
  exact (adjugate_spec this d adj Hd Hadj).
Qed.

(** X29.  [getInverse] refuses a matrix whose determinant is within [limit]
    of zero and leaves [result] as it was; otherwise, when [1. / det] is the
    inverse of [det], what it stores is the inverse on both sides. *)
Theorem getInverse_inverts (this result_ : t T) (limit d : T) :
  getDeterminant this = Ok d ->
  (Tleb (Tabs d) limit = true ->
   getInverse this result_ limit = Ok (false, result_)) /\
  (Tleb (Tabs d) limit = false -> Tmul d (Tdiv T1 d) = T1 ->
   exists inv, getInverse this result_ limit = Ok (true, inv) /\
     operator_mul this inv = IDENTITY /\ operator_mul inv this = IDENTITY).
Proof using Tring Matrix3_det_spec.
  intros Hd. unfold getInverse. rewrite Hd. cbn [mbind result_bind].
  split; [now intros ->|]. intros -> Hinv.
  destruct (getAdjugate_returns this) as [adj Hadj]. rewrite Hadj.
  cbn [mbind result_bind]. eexists. split; [reflexivity|].
  destruct (adjugate_spec this d adj Hd Hadj) as [Hl Hr].
  generalize dependent (Tdiv T1 d). intros q Hq.
  assert (Hscale : forall a b : t T,
    operator_mul a (operator_mul_scalar b q)
    = operator_mul_scalar (operator_mul a b) q /\
    operator_mul (operator_mul_scalar a q) b
    = operator_mul_scalar (operator_mul a b) q).
  { intros a b. destruct a, b. split; fields. }
  assert (Hone : operator_mul_scalar (operator_mul_scalar IDENTITY d) q
                 = IDENTITY).
  { cbv -[Tadd Tsub Tmul Topp T0 T1]. f_equal; try ring.
    all: rewrite <- Hq at 2; ring. }
  split.
  - now rewrite (proj1 (Hscale this adj)), Hl.
  - now rewrite (proj2 (Hscale adj this)), Hr.
Qed.

(** X30.  With [Matrix3::det] the determinant, [getDeterminant] is
    multiplicative and does not change under [getTransposed]. *)
Theorem getDeterminant_multiplicative (a b : t T) :
  exists da db, getDeterminant a = Ok da /\ getDeterminant b = Ok db /\
    getDeterminant (operator_mul a b) = Ok (Tmul da db) /\
    getDeterminant (getTransposed a) = Ok da.
Proof using Tring Matrix3_det_spec.
  destruct a, b. unfold getDeterminant, getMinor.
  cbv -[Matrix3_det Tadd Tsub Tmul Topp T0 T1].
  rewrite !Matrix3_det_spec. do 2 eexists.
  split; [reflexivity|]. split; [reflexivity|].
  split; f_equal; cbv -[Tadd Tsub Tmul Topp T0 T1]; ring.
Qed.

End matrix4_algebra.

(** * The further theorems with hypotheses, at concrete inputs *)

Section further_examples.
Import Binary64.

Lemma subsampling_strides_witness :
  exists r,
    subsampling 1 1 1 1 1 1 2 2 2 target111 source222 2 = Ok r /\
    _core r = _core source222 /\
    get_row 1 1 (_u1 r) 0 = get_row 2 1 (_u1 source222) (0 * 2).
Proof.
  assert (Hthis : wf_tucker3 1 1 1 1 1 1 target111) by wf_example.
  destruct (subsampling_strides 1 1 1 1 1 1 2 2 2 target111 source222 2 Hthis
    ltac:(lia) ltac:(lia) ltac:(lia) ltac:(lia) ltac:(lia) ltac:(lia))
    as (r & Hrun & Hcore & _ & _ & _ & Hrow & _).
  exists r. split; [exact Hrun|]. split; [exact Hcore|].
  apply Hrow. lia.
Defined.

Lemma subsampling_overflow_witness :
  subsampling 1 1 1 1 1 1 2 2 2 target111 source222 1
  = Fail index_out_of_bounds.
Proof.
  assert (Hthis : wf_tucker3 1 1 1 1 1 1 target111) by wf_example.
  apply (subsampling_overflow 1 1 1 1 1 1 2 2 2 target111 source222 1 Hthis);
    lia.
Defined.

Lemma subsampling_on_average_by_mode_witness :
  exists r s,
    subsampling_on_average 1 1 1 1 1 1 2 2 2 target111 source222 2 = Ok r /\
    subsampling 1 1 1 1 1 1 2 2 2 target111 source222 2 = Ok s /\
    _u2 r = _u2 s /\ _u3 r = _u3 s /\
    get_row 1 1 (_u1 r) 0 = Ok (block_average 2 1 (_u1 source222) 2 0).
Proof.
  assert (Hthis : wf_tucker3 1 1 1 1 1 1 target111) by wf_example.
  destruct (subsampling_on_average_by_mode 1 1 1 1 1 1 2 2 2
    target111 source222 2 Hthis
    ltac:(lia) ltac:(lia) ltac:(lia) ltac:(lia) ltac:(lia) ltac:(lia))
    as (r & s & Hr & Hs & _ & H2 & H3 & Hrow & _).
  exists r, s. split; [exact Hr|]. split; [exact Hs|].
  split; [exact H2|]. split; [exact H3|]. apply Hrow. lia.
Defined.

Lemma region_of_interest_rows_witness :
  exists r,
    region_of_interest 1 1 1 1 1 1 2 2 2 target111 source222 0 1 0 1 0 1
    = Ok r /\
    _core r = _core source222 /\
    get_row 1 1 (_u1 r) 0 = get_row 2 1 (_u1 source222) (0 + 0).
Proof.
  assert (Hthis : wf_tucker3 1 1 1 1 1 1 target111) by wf_example.
  destruct (region_of_interest_rows 1 1 1 1 1 1 2 2 2 target111 source222
    0 1 0 1 0 1 Hthis
    ltac:(lia) ltac:(lia) ltac:(lia) ltac:(lia) ltac:(lia) ltac:(lia)
    ltac:(lia) ltac:(lia) ltac:(lia) ltac:(lia) ltac:(lia) ltac:(lia))
    as (r & Hrun & Hcore & Hrow & _).
  exists r. split; [exact Hrun|]. split; [exact Hcore|].
  apply Hrow. lia.
Defined.

Lemma region_of_interest_returns_witness :
  (1 <= 2 /\ 1 <= 2 /\ 1 <= 2) /\ (0 < 1 /\ 0 < 1 /\ 0 < 1) /\
  (1 < 2 /\ 1 < 2 /\ 1 < 2).
Proof.
  destruct (region_of_interest_returns 1 1 1 1 1 1 2 2 2 target111 source222
    {| _core := [[9%float]]; _u1 := [1%float]; _u2 := [1%float];
       _u3 := [1%float] |}
    0 1 0 1 0 1 ltac:(vm_compute; reflexivity))
    as (Hextents & Hregions & Hends & _).
  split; [exact Hextents|]. split; [exact Hregions|exact Hends].
Defined.

Lemma reduce_ranks_asserts_witness :
  reduce_ranks 2 2 2 1 1 1 1 1 1 fresh_rank2 target111 = Fail assertion_failed.
Proof.
  apply (reduce_ranks_asserts 2 2 2 1 1 1 1 1 1 fresh_rank2 target111).
  left. lia.
Defined.

Lemma reduce_ranks_overwrites_witness :
  exists r,
    reduce_ranks 1 1 1 1 1 1 2 2 2 target111 source_rank2 = Ok r /\
    reduce_ranks 1 1 1 1 1 1 2 2 2 target111_filled source_rank2 = Ok r.
Proof.
  assert (Hthis : wf_tucker3 1 1 1 1 1 1 target111) by wf_example.
  assert (Hthis' : wf_tucker3 1 1 1 1 1 1 target111_filled) by wf_example.
  assert (Hother : wf_tucker3 2 2 2 1 1 1 source_rank2) by wf_example.
  destruct (reduce_ranks_overwrites 1 1 1 1 1 1 2 2 2
    target111 target111_filled source_rank2
    ltac:(lia) ltac:(lia) ltac:(lia) Hthis Hthis' Hother)
    as (r & Hrun & Hrun' & _).
  exists r. split; [exact Hrun|exact Hrun'].
Defined.

Lemma reduce_ranks_same_ranks_witness :
  reduce_ranks 2 2 2 1 1 1 2 2 2 fresh_rank2 source_rank2 = Ok source_rank2.
Proof.
  assert (Hthis : wf_tucker3 2 2 2 1 1 1 fresh_rank2) by wf_example.
  assert (Hother : wf_tucker3 2 2 2 1 1 1 source_rank2) by wf_example.
  exact (reduce_ranks_same_ranks 1 1 1 2 2 2 fresh_rank2 source_rank2
           Hthis Hother).
Defined.

Lemma reduce_ranks_twice_witness :
  exists mid r,
    reduce_ranks 2 2 2 1 1 1 2 2 2 fresh_rank2 source_rank2 = Ok mid /\
    reduce_ranks 1 1 1 1 1 1 2 2 2 target111 mid = Ok r /\
    reduce_ranks 1 1 1 1 1 1 2 2 2 target111 source_rank2 = Ok r.
Proof.
  assert (HL : wf_tucker3 1 1 1 1 1 1 target111) by wf_example.
  assert (HJ : wf_tucker3 2 2 2 1 1 1 fresh_rank2) by wf_example.
  assert (HK : wf_tucker3 2 2 2 1 1 1 source_rank2) by wf_example.
  exact (reduce_ranks_twice 1 1 1 1 1 1 2 2 2 2 2 2
           target111 fresh_rank2 source_rank2
           ltac:(lia) ltac:(lia) ltac:(lia) ltac:(lia) ltac:(lia) ltac:(lia)
           HL HJ HK).
Defined.

Lemma import_from_short_witness :
  import_from 2 2 2 1 1 1 fresh_rank2 [1; 2; 3]%float
  = Fail index_out_of_bounds.
Proof.
  assert (Hthis : wf_tucker3 2 2 2 1 1 1 fresh_rank2) by wf_example.
  apply (import_from_short 2 2 2 1 1 1 fresh_rank2 [1; 2; 3]%float Hthis).
  cbn. lia.
Defined.

Lemma import_then_export_witness :
  exists r,
    import_from 2 2 2 1 1 1 fresh_rank2
      ([1; 2; 3; 4; 5; 6; 7; 8; 9; 10; 11; 12; 13; 14]%float ++ [99%float])
    = Ok r /\
    import_from 2 2 2 1 1 1 source_rank2
      [1; 2; 3; 4; 5; 6; 7; 8; 9; 10; 11; 12; 13; 14]%float = Ok r /\
    export_to 2 2 2 1 1 1 r []
    = Ok (r, [1; 2; 3; 4; 5; 6; 7; 8; 9; 10; 11; 12; 13; 14]%float).
Proof.
  assert (Hthis : wf_tucker3 2 2 2 1 1 1 fresh_rank2) by wf_example.
  assert (Hthis' : wf_tucker3 2 2 2 1 1 1 source_rank2) by wf_example.
  exact (import_then_export 2 2 2 1 1 1 fresh_rank2 source_rank2
           [1; 2; 3; 4; 5; 6; 7; 8; 9; 10; 11; 12; 13; 14]%float [99%float]
           Hthis Hthis' ltac:(lia) ltac:(lia) ltac:(lia) eq_refl).
Defined.

Lemma tensor3_iterator_walk_witness :
  exists x, concat (_core source_rank2) !! 5 = Some x /\
    tensor3_iterator_deref (_core source_rank2)
      (Nat.iter 5 (tensor3_iterator_incr 2 2 2) (it_at 2 2 0 0)) = Ok x.
Proof.
  assert (Hwf : wf_tensor3 2 2 2 (_core source_rank2)) by wf_example.
  destruct (tensor3_iterator_walk 2 2 2 (_core source_rank2) (it_at 2 2 0 0)
    {| _matrix_it := slice_end 2 2 1; _matrix_it_end := slice_begin 1;
       _matrix_index := 1 |} 5 Hwf eq_refl eq_refl ltac:(lia))
    as (x & Hx & Hderef & _).
  exists x. split; [exact Hx|exact Hderef].
Defined.

Lemma tensor3_iterator_saturates_witness :
  tensor3_iterator_neq
    (Nat.iter 9 (tensor3_iterator_incr 2 2 2) (it_at 2 2 0 0))
    {| _matrix_it := slice_end 2 2 1; _matrix_it_end := slice_begin 1;
       _matrix_index := 1 |} = false /\
  tensor3_iterator_deref (_core source_rank2)
    (Nat.iter 9 (tensor3_iterator_incr 2 2 2) (it_at 2 2 0 0))
  = Fail index_out_of_bounds.
Proof.
  assert (Hwf : wf_tensor3 2 2 2 (_core source_rank2)) by wf_example.
  exact (tensor3_iterator_saturates 2 2 2 (_core source_rank2) (it_at 2 2 0 0)
           {| _matrix_it := slice_end 2 2 1; _matrix_it_end := slice_begin 1;
              _matrix_index := 1 |} 9 Hwf ltac:(lia) eq_refl eq_refl ltac:(lia)).
Defined.

Lemma tensor3_iterator_end_increment_witness :
  let e := {| _matrix_it := slice_end 2 2 1; _matrix_it_end := slice_begin 1;
              _matrix_index := 1 |} in
  _matrix_it (tensor3_iterator_incr 2 2 2 e) = (1, 5) /\
  tensor3_iterator_neq (tensor3_iterator_incr 2 2 2 e) e = true.
Proof.
  destruct (tensor3_iterator_end_increment 2 2 2 (it_at 2 2 0 0)
    {| _matrix_it := slice_end 2 2 1; _matrix_it_end := slice_begin 1;
       _matrix_index := 1 |} ltac:(lia) eq_refl eq_refl)
    as (_ & _ & Hit & Hneq).
  split; [exact Hit|exact Hneq].
Defined.

End further_examples.

Section matrix4_examples.
Import Matrix4 Integers.
Local Open Scope Z_scope.

Lemma new_vectors_rows_columns_witness :
  getRow (new_vectors (Vector4.mk 1 2 3 4) (Vector4.mk 5 6 7 8)
            (Vector4.mk 9 10 11 12) (Vector4.mk 13 14 15 16) false) 2
  = Ok (Vector4.mk 9 10 11 12)%Z.
Proof.
  exact (proj1 (new_vectors_rows_columns
    (Vector4.mk 1 2 3 4)%Z (Vector4.mk 5 6 7 8)%Z
    (Vector4.mk 9 10 11 12)%Z (Vector4.mk 13 14 15 16)%Z 2 ltac:(lia))).
Defined.

Lemma getTransposed_involutive_witness :
  getElement (getTransposed counting) 1 2 = getElement counting 2 1 /\
  getTransposed (getTransposed counting) = counting.
Proof.
  exact (getTransposed_involutive counting 1 2 ltac:(lia) ltac:(lia)).
Defined.

Lemma setRow_getRow_witness :
  exists this', setRow counting 1 (Vector4.mk 0 0 0 7)%Z = Ok this' /\
    getRow this' 1 = Ok (Vector4.mk 0 0 0 7)%Z /\
    getRow this' 2 = getRow counting 2.
Proof.
  destruct (setRow_getRow counting 1 (Vector4.mk 0 0 0 7)%Z ltac:(lia))
    as (this' & Hset & Hget & Hframe).
  exists this'. split; [exact Hset|]. split; [exact Hget|].
  apply Hframe. lia.
Defined.

Lemma setColumn_getColumn_witness :
  exists this', setColumn counting 3 (Vector4.mk 0 0 0 7)%Z = Ok this' /\
    getColumn this' 3 = Ok (Vector4.mk 0 0 0 7)%Z /\
    getColumn this' 0 = getColumn counting 0.
Proof.
  destruct (setColumn_getColumn counting 3 (Vector4.mk 0 0 0 7)%Z ltac:(lia))
    as (this' & Hset & Hget & Hframe).
  exists this'. split; [exact Hset|]. split; [exact Hget|].
  apply Hframe. lia.
Defined.

Lemma operator_mul_entries_witness :
  entry (operator_mul shear counting) 0 1
  = (entry shear 0 0 * entry counting 0 1 + entry shear 0 1 * entry counting 1 1
     + entry shear 0 2 * entry counting 2 1
     + entry shear 0 3 * entry counting 3 1)%Z.
Proof.
  exact (proj1 (operator_mul_entries shear counting 0 1 ltac:(lia) ltac:(lia))).
Defined.

Lemma operator_mul_vector4_columns_witness :
  component (operator_mul_vector4 counting (Vector4.mk 1 0 0 1)%Z) 2
  = dot4 (Vector4.mk 1 0 0 1)%Z (Vector4.mk 3 7 11 15)%Z.
Proof.
  exact (operator_mul_vector4_columns counting (Vector4.mk 1 0 0 1)%Z
           (Vector4.mk 3 7 11 15)%Z 2 eq_refl).
Defined.

Lemma operator_mul_monoid_witness :
  operator_mul (operator_mul shear counting) shear
  = operator_mul shear (operator_mul counting shear) /\
  operator_mul IDENTITY shear = shear.
Proof.
  destruct (@operator_mul_monoid Z Z_scalar Z_numeric InitialRing.Zth shear counting shear)
    as (Hassoc & Hleft & _).
  split; [exact Hassoc|exact Hleft].
Defined.

Lemma getTransposed_product_witness :
  getTransposed (operator_mul shear counting)
  = operator_mul (getTransposed counting) (getTransposed shear).
Proof. exact (@getTransposed_product Z Z_scalar Z_numeric InitialRing.Zth shear counting). Defined.

Lemma operator_mul_vector4_composes_witness :
  operator_mul_vector4 (operator_mul shear counting) (Vector4.mk 1 2 3 4)%Z
  = operator_mul_vector4 counting
      (operator_mul_vector4 shear (Vector4.mk 1 2 3 4)%Z).
Proof.
  exact (@operator_mul_vector4_composes Z Z_scalar Z_numeric InitialRing.Zth shear counting
           (Vector4.mk 1 2 3 4)%Z).
Defined.

(** at angle 5 on [Matrix4< int >], where sine and cosine are stored as 0,
    and at one quarter turn with the exact sine 1 and cosine 0: rows, not
    columns, are the ones combined *)
Lemma rotations_multiply_from_left_witness :
  (rotateX counting 5
   = operator_mul (new 0 0 0 0  0 1 0 0  0 0 0 0  0 0 0 1) counting /\
   rotateX counting 5 = new 0 0 0 0  5 6 7 8  0 0 0 0  13 14 15 16) /\
  (@rotateX Z Z_scalar Z_numeric Z_quarter_turns counting 1
   = operator_mul (new 0 0 (-1) 0  0 1 0 0  1 0 0 0  0 0 0 1) counting /\
   @rotateX Z Z_scalar Z_numeric Z_quarter_turns counting 1
   = new (-9) (-10) (-11) (-12)  5 6 7 8  1 2 3 4  13 14 15 16) /\
  (@rotateY Z Z_scalar Z_numeric Z_quarter_turns counting 1
   = operator_mul (new 1 0 0 0  0 0 1 0  0 (-1) 0 0  0 0 0 1) counting /\
   @rotateY Z Z_scalar Z_numeric Z_quarter_turns counting 1
   = new 1 2 3 4  9 10 11 12  (-5) (-6) (-7) (-8)  13 14 15 16) /\
  (@rotateZ Z Z_scalar Z_numeric Z_quarter_turns counting 1
   = operator_mul (new 0 1 0 0  (-1) 0 0 0  0 0 1 0  0 0 0 1) counting /\
   @rotateZ Z Z_scalar Z_numeric Z_quarter_turns counting 1
   = new 5 6 7 8  (-1) (-2) (-3) (-4)  9 10 11 12  13 14 15 16).
Proof.
  destruct (@rotations_multiply_from_left Z Z_scalar Z_numeric Z_collaborators
    InitialRing.Zth counting 5%Z) as (HX & _ & _).
  destruct (@rotations_multiply_from_left Z Z_scalar Z_numeric Z_quarter_turns
    InitialRing.Zth counting 1%Z) as (QX & QY & QZ).
  split; [split; [exact HX|reflexivity]|].
  split; [split; [exact QX|reflexivity]|].
  split; [split; [exact QY|reflexivity]|].
  split; [exact QZ|reflexivity].
Defined.

Lemma scale_multiplies_from_right_witness :
  scale counting (2, 3, 5)%Z
  = operator_mul counting
      (new 2 0 0 0  0 3 0 0  0 0 5 0  0 0 0 1)%Z.
Proof.
  exact (@scale_multiplies_from_right Z Z_scalar Z_numeric InitialRing.Zth counting 2%Z 3%Z 5%Z).
Defined.

Lemma getAdjugate_product_witness :
  exists d adj, getDeterminant shear = Ok d /\ getAdjugate shear = Ok adj /\
    operator_mul shear adj = operator_mul_scalar IDENTITY d.
Proof.
  destruct (@getAdjugate_product Z Z_scalar Z_numeric Z_collaborators
    InitialRing.Zth
    (fun _ _ _ _ _ _ _ _ _ => eq_refl) shear)
    as (d & adj & Hd & Hadj & Hl & _).
  exists d, adj. split; [exact Hd|]. split; [exact Hadj|exact Hl].
Defined.

Lemma getInverse_inverts_witness :
  exists inv, getInverse shear ZERO 0%Z = Ok (true, inv) /\
    operator_mul shear inv = IDENTITY /\ operator_mul inv shear = IDENTITY.
Proof.
  exact (proj2 (@getInverse_inverts Z Z_scalar Z_numeric Z_collaborators
    InitialRing.Zth
    (fun _ _ _ _ _ _ _ _ _ => eq_refl) shear ZERO 0%Z 1%Z eq_refl)
    eq_refl eq_refl).
Defined.

Lemma getDeterminant_multiplicative_witness :
  exists da db, getDeterminant shear = Ok da /\ getDeterminant counting = Ok db /\
    getDeterminant (operator_mul shear counting) = Ok (da * db)%Z.
Proof.
  destruct (@getDeterminant_multiplicative Z Z_scalar Z_numeric Z_collaborators
    InitialRing.Zth
    (fun _ _ _ _ _ _ _ _ _ => eq_refl) shear counting)
    as (da & db & Ha & Hb & Hab & _).
  exists da, db. split; [exact Ha|]. split; [exact Hb|exact Hab].
Defined.

End matrix4_examples.
